(** * disks-poweroff: a shallow embedding of the daemon and its properties

    The repository holds two versions of one script:
    - [src/disks-poweroff.py]      (2021-2022), embedded in [Module V1];
    - [src/src/disks-poweroff.py]  (2021-2023), embedded in [Module V2].

    Both share the counter-line parser and the name normalisation, which are
    embedded once, before the two modules.

    Conventions of the embedding.
    - Python [str] is [string]; a character is a code point below 256.
    - A [dict] keyed by device name is a [gmap string _].
    - An uncaught Python exception is the [Raise] case of [Result].
    - The outside world is an explicit input: the lines read from
      /proc/diskstats, the values returned by [time.time()] and the exit
      statuses of the two external commands are fields of a [Tick], one
      [Tick] per iteration of the main loop.
    - Clock readings are integers.  Every iteration of the loops of
      [compare] and [poweroff] uses at most one reading, so the clock is
      given per loop and per position in the tracked list; nothing is
      assumed about how readings at different positions relate.
    - The two external programs are taken to start and to end with an
      exit status; the files /proc/diskstats and /dev are taken to be
      readable.
    - [time.sleep] checks its argument itself, on a platform with 64-bit
      time: a whole number of seconds whose nanoseconds do not fit a
      signed 64-bit integer raises [OverflowError], a negative one that
      fits raises [ValueError].  Whether the operating system then accepts
      the sleep is an input, a field of the [Tick]: a length it rejects
      raises [OSError].
    - What the daemon does to the outside world is an output: a list of
      [Event]s (syslog records, started commands, sleeps).
    - The configuration is what [configparser] hands out: a map from
      section names to maps from option names to values. *)

From Stdlib Require Import ZArith Ascii.
From stdpp Require Import gmap strings list fin_maps.

Local Open Scope Z_scope.

(** ** Exceptions *)

Inductive Exn : Type :=
  | IndexError
  | KeyError (key : string)
  | ValueError
  | OverflowError
  | OSError.

Inductive Result (A : Type) : Type :=
  | Ok (a : A)
  | Raise (e : Exn).
Arguments Ok {A} a.
Arguments Raise {A} e.

#[global] Instance Result_ret : MRet Result := @Ok.
#[global] Instance Result_bind : MBind Result := λ A B f m,
  match m with
  | Ok a => f a
  | Raise e => Raise e
  end.

#[global] Instance Exn_eq_dec : EqDecision Exn.
Proof. solve_decision. Defined.

(** [l[i]] on a Python list. *)
Definition list_getitem {A} (l : list A) (i : nat) : Result A :=
  match l !! i with
  | Some x => Ok x
  | None => Raise IndexError
  end.

(** [d[k]] on a Python dict. *)
Definition dict_getitem {A} (d : gmap string A) (k : string) : Result A :=
  match d !! k with
  | Some x => Ok x
  | None => Raise (KeyError k)
  end.

(** ** The string primitives the script relies on *)

Module Py.

(** [str.isspace] on one character, for code points below 256. *)
Definition isspace (c : ascii) : bool :=
  match c with
  | "009" | "010" | "011" | "012" | "013"
  | "028" | "029" | "030" | "031"
  | " " | "133" | "160" => true
  | _ => false
  end%char.

Fixpoint lstrip (s : string) : string :=
  match s with
  | EmptyString => EmptyString
  | String c s' => if isspace c then lstrip s' else s
  end.

Fixpoint rstrip (s : string) : string :=
  match s with
  | EmptyString => EmptyString
  | String c s' =>
      match rstrip s' with
      | EmptyString => if isspace c then EmptyString else String c EmptyString
      | r => String c r
      end
  end.

(** [s.strip()] *)
Definition strip (s : string) : string := rstrip (lstrip s).

(** [re.sub(' +', ' ', s)]: every maximal run of spaces becomes one space. *)
Fixpoint sub_spaces (s : string) : string :=
  match s with
  | EmptyString => EmptyString
  | String c s' =>
      if Ascii.eqb c " " then
        match s' with
        | String c' _ => if Ascii.eqb c' " " then sub_spaces s'
                         else String " " (sub_spaces s')
        | EmptyString => String " " EmptyString
        end
      else String c (sub_spaces s')
  end.

(** [s.split(sep)] for a separator of one character. *)
Fixpoint split (sep : ascii) (s : string) : list string :=
  match s with
  | EmptyString => [EmptyString]
  | String c s' =>
      if Ascii.eqb c sep then EmptyString :: split sep s'
      else match split sep s' with
           | f :: fs => String c f :: fs
           | [] => [String c EmptyString]
           end
  end.

(** [c in s] for a single character [c]. *)
Fixpoint contains (c : ascii) (s : string) : bool :=
  match s with
  | EmptyString => false
  | String c' s' => Ascii.eqb c' c || contains c s'
  end.

End Py.

(** ** Counter Source Adapter (identical in both versions) *)

(** The first statement of [parse_diskstats_line]: the line cut into fields. *)
Definition diskstats_fields (line : string) : list string :=
  Py.split " " (Py.strip (Py.sub_spaces line)).

(** [parse_diskstats_line]: fields 3, 6 and 10 of the line. *)
Definition parse_diskstats_line (line : string) : Result (string * string * string) :=
  let line := diskstats_fields line in
  device_name ← list_getitem line 2;
  sectors_read ← list_getitem line 5;
  sectors_written ← list_getitem line 9;
  Ok (device_name, sectors_read, sectors_written).

(** [normalize_name] ([normalize_disk], local to [__init__], in the older
    version): strip, then keep what follows the last slash. *)
Definition normalize_name (disk : string) : string :=
  let disk := Py.strip disk in
  if Py.contains "/" disk then default disk (last (Py.split "/" disk))
  else disk.

(** ** Data shared by the two versions *)

(** The three state labels, the strings "ACTIVE", "IDLE" and "POWEROFF". *)
Inductive Label : Type := ACTIVE | IDLE | POWEROFF.

#[global] Instance Label_eq_dec : EqDecision Label.
Proof. solve_decision. Defined.

Inductive Priority : Type := LOG_ERR | LOG_WARNING | LOG_INFO | LOG_DEBUG.

(** The syslog records of the script, by content rather than by wording. *)
Inductive Message : Type :=
  | MissingDevices
  | WorkingWithDisks (disks : list string)
  | InvalidConfigRecord (option : string) (fallback : Z)
  | RunningWithParameters (timeout polling_interval : Z)
  | StateChangedTo (disk : string) (l : Label)
  | HdparmFailed (disk : string)
  | DisksStateChanged (labels : gmap string Label).

(** What the daemon does to the outside world. *)
Inductive Event : Type :=
  | Syslog (p : Priority) (m : Message)
  | Popen (argv : list string)
  | Sleep (seconds : Z).

#[global] Instance Priority_eq_dec : EqDecision Priority.
Proof. solve_decision. Defined.
#[global] Instance Message_eq_dec : EqDecision Message.
Proof. solve_decision. Defined.
#[global] Instance Event_eq_dec : EqDecision Event.
Proof. solve_decision. Defined.

(** The standby query and the spin-down command for one device. *)
Definition smartctl_cmd (disk : string) : Event :=
  Popen ["smartctl"; "-n"; "standby"; "/dev/" +:+ disk].
Definition hdparm_cmd (disk : string) : Event :=
  Popen ["hdparm"; "-yY"; "/dev/" +:+ disk].

Definition is_Popen (e : Event) : bool :=
  match e with Popen _ => true | _ => false end.

(** The external commands of a trace, in the order they were started. *)
Definition commands (evs : list Event) : list Event :=
  filter (λ e, is_Popen e = true) evs.

(** How often an event occurs in a trace. *)
Definition occurrences (e : Event) (evs : list Event) : nat :=
  length (filter (λ e', e' = e) evs).

(** What the outside world supplies during one iteration of the main loop.
    The loops of [compare] and [poweroff] run over the tracked list; the
    index is the position in that list. *)
Record Tick : Type := {
  lines : list string;      (* fd.readlines() on /proc/diskstats *)
  now_compare : nat → Z;    (* time.time() in iteration i of compare *)
  now_poweroff : nat → Z;   (* time.time() in iteration i of poweroff *)
  smartctl_rc : nat → Z;    (* smartctl.returncode in iteration i *)
  hdparm_rc : nat → Z;      (* hdparm.returncode in iteration i *)
  sleep_rejected : bool     (* the operating system rejects the sleep *)
}.

(** The largest whole number of seconds whose nanoseconds fit the signed
    64-bit integer in which [time.sleep] keeps its argument. *)
Definition SLEEP_MAX : Z := 9223372036.

(** [time.sleep(secs)] on an integer: the conversion of the argument, the
    test of its sign, the sleep itself. *)
Definition time_sleep (rejected : bool) (secs : Z) : Result (list Event) :=
  if (secs <? - SLEEP_MAX) || (SLEEP_MAX <? secs) then Raise OverflowError
  else if secs <? 0 then Raise ValueError
  else if rejected then Raise OSError
  else Ok [Sleep secs].

(** [for disk in self.disks: body], the body seeing its position. *)
Fixpoint for_each {St : Type} (body : nat → string → St → Result (St * list Event))
    (i : nat) (ds : list string) (self : St) : Result (St * list Event) :=
  match ds with
  | [] => Ok (self, [])
  | disk :: ds' =>
      '(self1, ev1) ← body i disk self;
      '(self2, ev2) ← for_each body (S i) ds' self1;
      Ok (self2, ev1 ++ ev2)
  end.

(** [re.match("[sh]d[a-z]\Z", dev)] *)
Definition is_disk_name (dev : string) : bool :=
  match dev with
  | String c1 (String c2 (String c3 EmptyString)) =>
      (Ascii.eqb c1 "s" || Ascii.eqb c1 "h") && Ascii.eqb c2 "d"
      && (97 <=? Z.of_nat (nat_of_ascii c3)) && (Z.of_nat (nat_of_ascii c3) <=? 122)
  | _ => false
  end.

Definition PROGRAM_NAME : string := "disks-poweroff".
Definition DEVICES : string := "devices".
Definition TIMEOUT : string := "timeout".
Definition POLLING_INTERVAL : string := "polling_interval".

(** The parsed configuration: section name to option name to value. *)
Abbreviation Config := (gmap string (gmap string string)).

(** ** The current version, src/src/disks-poweroff.py *)

Module V2.

Definition DEFAULT_TIMEOUT : Z := 1800.
Definition DEFAULT_POLLING_INTERVAL : Z := 10.

Record DiskState : Type := { state : Label; timestamp : Z }.

Record DiskSectors : Type := { sectors_read : string; sectors_written : string }.

(** [DiskSectors.__eq__] *)
Definition DiskSectors_eq (a b : DiskSectors) : bool :=
  bool_decide (sectors_read a = sectors_read b)
  && bool_decide (sectors_written a = sectors_written b).

(** The attributes of a [DisksPowerOff] object. *)
Record DisksPowerOff : Type := {
  disks : list string;
  timeout : Z;
  polling_interval : Z;
  diskstats : gmap string DiskSectors;
  diskstats_prev : gmap string DiskSectors;
  disk_states : gmap string DiskState
}.

Definition set_disk_states (m : gmap string DiskState) (self : DisksPowerOff) :=
  {| disks := disks self; timeout := timeout self;
     polling_interval := polling_interval self;
     diskstats := diskstats self; diskstats_prev := diskstats_prev self;
     disk_states := m |}.

Definition set_diskstats (m : gmap string DiskSectors) (self : DisksPowerOff) :=
  {| disks := disks self; timeout := timeout self;
     polling_interval := polling_interval self;
     diskstats := m; diskstats_prev := diskstats_prev self;
     disk_states := disk_states self |}.

Definition set_diskstats_prev (m : gmap string DiskSectors) (self : DisksPowerOff) :=
  {| disks := disks self; timeout := timeout self;
     polling_interval := polling_interval self;
     diskstats := diskstats self; diskstats_prev := m;
     disk_states := disk_states self |}.

(** The object as the last three assignments of [__init__] leave it. *)
Definition fresh (self_disks : list string) (self_timeout self_polling_interval : Z)
    : DisksPowerOff :=
  {| disks := self_disks; timeout := self_timeout;
     polling_interval := self_polling_interval;
     diskstats := ∅; diskstats_prev := ∅; disk_states := ∅ |}.

Section Startup.

(** The builtin [int] on a string; [None] stands for [ValueError]. *)
Variable int : string → option Z.

(** One numeric option: [config[PROGRAM_NAME].get(name, str(fallback))],
    then [int] with the fallback on [ValueError]. *)
Definition numeric_option (section : gmap string string) (name : string)
    (str_fallback : string) (fallback : Z) : Z * list Event :=
  let value := default str_fallback (section !! name) in
  match int value with
  | Some n => (n, [])
  | None => (fallback, [Syslog LOG_WARNING (InvalidConfigRecord name fallback)])
  end.

(** [DisksPowerOff.__init__]; [listing] is [os.listdir('/dev')]. *)
Definition init (config : Config) (listing : list string)
    : Result (DisksPowerOff * list Event) :=
  let possible_devices := filter (λ dev, is_disk_name dev = true) listing in
  let '(disks0, ev1) :=
    match config !! PROGRAM_NAME ≫= (.!! DEVICES) with
    | Some value => (Py.split "," (Py.strip value), [])
    | None => (possible_devices, [Syslog LOG_WARNING MissingDevices])
    end in
  let disks1 := normalize_name <$> disks0 in
  let self_disks := filter (λ disk, disk ∈ possible_devices) disks1 in
  let ev2 := [Syslog LOG_INFO (WorkingWithDisks self_disks)] in
  section ← dict_getitem config PROGRAM_NAME;
  let '(self_timeout, ev3) :=
    numeric_option section TIMEOUT "1800" DEFAULT_TIMEOUT in
  let '(self_polling_interval, ev4) :=
    numeric_option section POLLING_INTERVAL "10" DEFAULT_POLLING_INTERVAL in
  let ev5 :=
    [Syslog LOG_INFO (RunningWithParameters self_timeout self_polling_interval)] in
  Ok (fresh self_disks self_timeout self_polling_interval,
      ev1 ++ ev2 ++ ev3 ++ ev4 ++ ev5).

End Startup.

(** One line of [poll]'s loop. *)
Definition poll_line (line : string) (self : DisksPowerOff) : Result DisksPowerOff :=
  '(disk, sectors_read, sectors_written) ← parse_diskstats_line line;
  if bool_decide (disk ∈ disks self) then
    Ok (set_diskstats
          (<[disk := {| sectors_read := sectors_read;
                        sectors_written := sectors_written |}]> (diskstats self))
          self)
  else Ok self.

Fixpoint poll_lines (ls : list string) (self : DisksPowerOff) : Result DisksPowerOff :=
  match ls with
  | [] => Ok self
  | line :: ls' => self' ← poll_line line self; poll_lines ls' self'
  end.

(** [poll] *)
Definition poll (ls : list string) (self : DisksPowerOff) : Result DisksPowerOff :=
  poll_lines ls (set_diskstats ∅ (set_diskstats_prev (diskstats self) self)).

(** The Activity Detector: the condition of the first [if] of [compare].
    [true] is "unchanged", [false] is "changed". *)
Definition unchanged (cur prev : gmap string DiskSectors) (disk : string) : bool :=
  match cur !! disk, prev !! disk with
  | Some c, Some p => DiskSectors_eq p c
  | _, _ => false
  end.

(** The body of [compare]'s loop; [now] is what [time.time()] returns. *)
Definition compare_disk (now : Z) (disk : string) (self : DisksPowerOff)
    : Result (DisksPowerOff * list Event) :=
  if unchanged (diskstats self) (diskstats_prev self) disk then
    ds ← dict_getitem (disk_states self) disk;
    if bool_decide (state ds ≠ IDLE) && bool_decide (state ds ≠ POWEROFF) then
      Ok (set_disk_states
            (<[disk := {| state := IDLE; timestamp := now |}]> (disk_states self)) self,
          [Syslog LOG_DEBUG (StateChangedTo disk IDLE)])
    else Ok (self, [])
  else
    match disk_states self !! disk with
    | Some ds =>
        if bool_decide (state ds ≠ ACTIVE) then
          Ok (set_disk_states
                (<[disk := {| state := ACTIVE; timestamp := now |}]> (disk_states self))
                self,
              [Syslog LOG_DEBUG (StateChangedTo disk ACTIVE)])
        else Ok (self, [])
    | None =>
        Ok (set_disk_states
              (<[disk := {| state := ACTIVE; timestamp := now |}]> (disk_states self))
              self,
            [Syslog LOG_DEBUG (StateChangedTo disk ACTIVE)])
    end.

(** [compare] *)
Definition compare (t : Tick) (self : DisksPowerOff) : Result (DisksPowerOff * list Event) :=
  for_each (λ i, compare_disk (now_compare t i)) 0%nat (disks self) self.

(** The body of [poweroff]'s loop. *)
Definition poweroff_disk (now rc_smartctl rc_hdparm : Z) (disk : string)
    (self : DisksPowerOff) : Result (DisksPowerOff * list Event) :=
  match disk_states self !! disk with
  | Some disk_state =>
      if (bool_decide (state disk_state = IDLE)
          || bool_decide (state disk_state = POWEROFF))
         && (timeout self <=? now - timestamp disk_state)
      then
        let ev_query := [smartctl_cmd disk] in
        let ev_spin :=
          if bool_decide (rc_smartctl ≠ 2) then
            hdparm_cmd disk ::
            (if bool_decide (rc_hdparm ≠ 0)
             then [Syslog LOG_ERR (HdparmFailed disk)] else [])
          else [] in
        ds ← dict_getitem (disk_states self) disk;
        let ev_log :=
          if bool_decide (state ds ≠ POWEROFF)
          then [Syslog LOG_DEBUG (StateChangedTo disk POWEROFF)] else [] in
        ds' ← dict_getitem (disk_states self) disk;
        Ok (set_disk_states
              (<[disk := {| state := POWEROFF; timestamp := timestamp ds' |}]>
                 (disk_states self)) self,
            ev_query ++ ev_spin ++ ev_log)
      else Ok (self, [])
  | None => Ok (self, [])
  end.

(** [poweroff] *)
Definition poweroff (t : Tick) (self : DisksPowerOff) : Result (DisksPowerOff * list Event) :=
  for_each (λ i, poweroff_disk (now_poweroff t i) (smartctl_rc t i) (hdparm_rc t i))
    0%nat (disks self) self.

(** [time.sleep(self.polling_interval)] *)
Definition sleep (t : Tick) (self : DisksPowerOff) : Result (DisksPowerOff * list Event) :=
  ev ← time_sleep (sleep_rejected t) (polling_interval self);
  Ok (self, ev).

(** One iteration of [run]'s loop. *)
Definition cycle (t : Tick) (self : DisksPowerOff) : Result (DisksPowerOff * list Event) :=
  self1 ← poll (lines t) self;
  '(self2, ev2) ← compare t self1;
  '(self3, ev3) ← poweroff t self2;
  '(self4, ev4) ← sleep t self3;
  Ok (self4, ev2 ++ ev3 ++ ev4).

(** [run], cut after as many iterations as there are ticks. *)
Fixpoint run (ts : list Tick) (self : DisksPowerOff) : Result (DisksPowerOff * list Event) :=
  match ts with
  | [] => Ok (self, [])
  | t :: ts' =>
      '(self1, ev1) ← cycle t self;
      '(self2, ev2) ← run ts' self1;
      Ok (self2, ev1 ++ ev2)
  end.

End V2.

(** ** The older version, src/disks-poweroff.py *)

Module V1.

(** A status is the two-element list [[label, timestamp]]; a snapshot is the
    two-element list [[sectors_read, sectors_written]]. *)
Record DisksPowerOff : Type := {
  disks : list string;
  timeout : Z;
  polling_interval : Z;
  diskstats : gmap string (list string);
  diskstats_prev : gmap string (list string);
  disk_statuses : gmap string (Label * Z);
  dump_log : bool
}.

Definition set_disk_statuses (m : gmap string (Label * Z)) (self : DisksPowerOff) :=
  {| disks := disks self; timeout := timeout self;
     polling_interval := polling_interval self;
     diskstats := diskstats self; diskstats_prev := diskstats_prev self;
     disk_statuses := m; dump_log := dump_log self |}.

Definition set_diskstats (m : gmap string (list string)) (self : DisksPowerOff) :=
  {| disks := disks self; timeout := timeout self;
     polling_interval := polling_interval self;
     diskstats := m; diskstats_prev := diskstats_prev self;
     disk_statuses := disk_statuses self; dump_log := dump_log self |}.

Definition set_diskstats_prev (m : gmap string (list string)) (self : DisksPowerOff) :=
  {| disks := disks self; timeout := timeout self;
     polling_interval := polling_interval self;
     diskstats := diskstats self; diskstats_prev := m;
     disk_statuses := disk_statuses self; dump_log := dump_log self |}.

Definition set_dump_log (b : bool) (self : DisksPowerOff) :=
  {| disks := disks self; timeout := timeout self;
     polling_interval := polling_interval self;
     diskstats := diskstats self; diskstats_prev := diskstats_prev self;
     disk_statuses := disk_statuses self; dump_log := b |}.

(** [self.disk_statuses.get(disk, [None, None])[0]] *)
Definition status_label (self : DisksPowerOff) (disk : string) : option Label :=
  fst <$> disk_statuses self !! disk.

(** The object as the last four assignments of [__init__] leave it. *)
Definition fresh (self_disks : list string) (self_timeout self_polling_interval : Z)
    : DisksPowerOff :=
  {| disks := self_disks; timeout := self_timeout;
     polling_interval := self_polling_interval;
     diskstats := ∅; diskstats_prev := ∅; disk_statuses := ∅;
     dump_log := false |}.

Section Startup.

(** The builtin [int] on a string; [None] stands for [ValueError]. *)
Variable int : string → option Z.

Definition numeric_option (section : gmap string string) (name : string)
    (str_fallback : string) (fallback : Z) : Z * list Event :=
  let value := default str_fallback (section !! name) in
  match int value with
  | Some n => (n, [])
  | None => (fallback, [Syslog LOG_WARNING (InvalidConfigRecord name fallback)])
  end.

(** [DisksPowerOff.__init__]; [listing] is [os.listdir('/dev')]. *)
Definition init (config : Config) (listing : list string)
    : Result (DisksPowerOff * list Event) :=
  let possible_devices := filter (λ dev, is_disk_name dev = true) listing in
  let '(disks0, ev1) :=
    match config !! PROGRAM_NAME ≫= (.!! DEVICES) with
    | Some value => (Py.split "," (Py.strip value), [])
    | None => (possible_devices, [Syslog LOG_WARNING MissingDevices])
    end in
  let disks1 := normalize_name <$> disks0 in
  let self_disks := filter (λ disk, disk ∈ possible_devices) disks1 in
  let ev2 := [Syslog LOG_INFO (WorkingWithDisks self_disks)] in
  section ← dict_getitem config PROGRAM_NAME;
  let '(self_timeout, ev3) := numeric_option section TIMEOUT "1800" 1800 in
  let '(self_polling_interval, ev4) :=
    numeric_option section POLLING_INTERVAL "5" 5 in
  Ok (fresh self_disks self_timeout self_polling_interval,
      ev1 ++ ev2 ++ ev3 ++ ev4).

End Startup.

Definition poll_line (line : string) (self : DisksPowerOff) : Result DisksPowerOff :=
  '(disk, sectors_read, sectors_written) ← parse_diskstats_line line;
  if bool_decide (disk ∈ disks self) then
    Ok (set_diskstats (<[disk := [sectors_read; sectors_written]]> (diskstats self)) self)
  else Ok self.

Fixpoint poll_lines (ls : list string) (self : DisksPowerOff) : Result DisksPowerOff :=
  match ls with
  | [] => Ok self
  | line :: ls' => self' ← poll_line line self; poll_lines ls' self'
  end.

(** [poll] *)
Definition poll (ls : list string) (self : DisksPowerOff) : Result DisksPowerOff :=
  poll_lines ls (set_diskstats ∅ (set_diskstats_prev (diskstats self) self)).

(** The Activity Detector: the condition of the first [if] of [compare]. *)
Definition unchanged (cur prev : gmap string (list string)) (disk : string) : bool :=
  bool_decide (default [] (prev !! disk) = default [] (cur !! disk))
  && bool_decide (default [] (cur !! disk) ≠ []).

(** The body of [compare]'s loop. *)
Definition compare_disk (now : Z) (disk : string) (self : DisksPowerOff)
    : Result (DisksPowerOff * list Event) :=
  if unchanged (diskstats self) (diskstats_prev self) disk then
    if bool_decide (status_label self disk ≠ Some IDLE)
       && bool_decide (status_label self disk ≠ Some POWEROFF)
    then
      Ok (set_disk_statuses (<[disk := (IDLE, now)]> (disk_statuses self))
            (set_dump_log true self), [])
    else Ok (self, [])
  else
    let self1 :=
      if bool_decide (status_label self disk ≠ Some ACTIVE)
      then set_dump_log true self else self in
    Ok (set_disk_statuses (<[disk := (ACTIVE, now)]> (disk_statuses self1)) self1, []).

(** [compare] *)
Definition compare (t : Tick) (self : DisksPowerOff) : Result (DisksPowerOff * list Event) :=
  for_each (λ i, compare_disk (now_compare t i)) 0%nat (disks self) self.

(** The body of [poweroff]'s loop.  The default status of the first line
    is built with a clock reading of its own, which is never looked at:
    its label is "ACTIVE" and the test on the label fails first. *)
Definition poweroff_disk (now rc_smartctl rc_hdparm : Z) (disk : string)
    (self : DisksPowerOff) : Result (DisksPowerOff * list Event) :=
  let disk_status := default (ACTIVE, now) (disk_statuses self !! disk) in
  if (bool_decide (disk_status.1 = IDLE) || bool_decide (disk_status.1 = POWEROFF))
     && (timeout self <=? now - disk_status.2)
  then
    let ev_query := [smartctl_cmd disk] in
    let ev_spin :=
      if bool_decide (rc_smartctl ≠ 2) then
        hdparm_cmd disk ::
        (if bool_decide (rc_hdparm ≠ 0)
         then [Syslog LOG_ERR (HdparmFailed disk)] else [])
      else [] in
    st ← dict_getitem (disk_statuses self) disk;
    let self1 :=
      if bool_decide (st.1 ≠ POWEROFF) then set_dump_log true self else self in
    st' ← dict_getitem (disk_statuses self1) disk;
    Ok (set_disk_statuses (<[disk := (POWEROFF, st'.2)]> (disk_statuses self1)) self1,
        ev_query ++ ev_spin)
  else Ok (self, []).

(** [poweroff] *)
Definition poweroff (t : Tick) (self : DisksPowerOff) : Result (DisksPowerOff * list Event) :=
  for_each (λ i, poweroff_disk (now_poweroff t i) (smartctl_rc t i) (hdparm_rc t i))
    0%nat (disks self) self.

(** The state dump at the end of an iteration of [run]. *)
Definition dump (self : DisksPowerOff) : DisksPowerOff * list Event :=
  if dump_log self then
    (set_dump_log false self,
     [Syslog LOG_INFO (DisksStateChanged (fst <$> disk_statuses self))])
  else (self, []).

(** [time.sleep(self.polling_interval)] *)
Definition sleep (t : Tick) (self : DisksPowerOff) : Result (DisksPowerOff * list Event) :=
  ev ← time_sleep (sleep_rejected t) (polling_interval self);
  Ok (self, ev).

(** One iteration of [run]'s loop. *)
Definition cycle (t : Tick) (self : DisksPowerOff) : Result (DisksPowerOff * list Event) :=
  self1 ← poll (lines t) self;
  '(self2, ev2) ← compare t self1;
  '(self3, ev3) ← poweroff t self2;
  let '(self4, ev4) := dump self3 in
  '(self5, ev5) ← sleep t self4;
  Ok (self5, ev2 ++ ev3 ++ ev4 ++ ev5).

(** [run], cut after as many iterations as there are ticks. *)
Fixpoint run (ts : list Tick) (self : DisksPowerOff) : Result (DisksPowerOff * list Event) :=
  match ts with
  | [] => Ok (self, [])
  | t :: ts' =>
      '(self1, ev1) ← cycle t self;
      '(self2, ev2) ← run ts' self1;
      Ok (self2, ev1 ++ ev2)
  end.

End V1.

(** * Notions used in the statements *)

(** ** The current version *)

(** What the loops never touch. *)
Definition frame2 (s s' : V2.DisksPowerOff) : Prop :=
  V2.disks s' = V2.disks s ∧ V2.timeout s' = V2.timeout s
  ∧ V2.polling_interval s' = V2.polling_interval s
  ∧ V2.diskstats s' = V2.diskstats s ∧ V2.diskstats_prev s' = V2.diskstats_prev s.

(** The detector's verdict on the maps of an object. *)
Definition verdict2 (s : V2.DisksPowerOff) (disk : string) : bool :=
  V2.unchanged (V2.diskstats s) (V2.diskstats_prev s) disk.

(** [i] is the first position of [d] in [l]. *)
Definition first_at (d : string) (l : list string) (i : nat) : Prop :=
  l !! i = Some d ∧ d ∉ take i l.

(** A device is settled when its label agrees with the verdict on it. *)
Definition settled2 (s : V2.DisksPowerOff) (d : string) : Prop :=
  ∃ ds, V2.disk_states s !! d = Some ds
        ∧ (V2.state ds = ACTIVE ↔ verdict2 s d = false).

(** The test that guards the power-down attempt. *)
Definition eligible2 (s : V2.DisksPowerOff) (now : Z) (ds : V2.DiskState) : bool :=
  (bool_decide (V2.state ds = IDLE) || bool_decide (V2.state ds = POWEROFF))
  && (V2.timeout s <=? now - V2.timestamp ds).

(** The events of an attempt: the query, the spin-down command unless the
    query exits with 2, an error record if that command fails, and a debug
    record if the label was not POWEROFF yet. *)
Definition attempt_events (rc_smartctl rc_hdparm : Z) (disk : string) (l : Label)
    : list Event :=
  [smartctl_cmd disk]
  ++ (if bool_decide (rc_smartctl ≠ 2) then
        hdparm_cmd disk ::
        (if bool_decide (rc_hdparm ≠ 0) then [Syslog LOG_ERR (HdparmFailed disk)] else [])
      else [])
  ++ (if bool_decide (l ≠ POWEROFF)
      then [Syslog LOG_DEBUG (StateChangedTo disk POWEROFF)] else []).

(** In the loop that runs over [l] with its first position numbered [k],
    the device [d] is met at a position where it passes the test. *)
Definition touched2 (t : Tick) (k : nat) (l : list string)
    (s : V2.DisksPowerOff) (d : string) : Prop :=
  ∃ j ds, l !! j = Some d ∧ V2.disk_states s !! d = Some ds
          ∧ eligible2 s (now_poweroff t (k + j)) ds = true.

(** What a run of [poweroff]'s loop can do: relabel devices that pass the
    test, keeping their timestamps, and start commands for such devices. *)
Definition poweroff_rel2 (t : Tick) (k : nat) (l : list string)
    (s : V2.DisksPowerOff) (e : list Event) (s' : V2.DisksPowerOff) : Prop :=
  frame2 s s'
  ∧ (∀ d, V2.disk_states s' !! d = V2.disk_states s !! d
          ∨ touched2 t k l s d
            ∧ ∃ ds, V2.disk_states s !! d = Some ds
                    ∧ V2.disk_states s' !! d =
                        Some {| V2.state := POWEROFF; V2.timestamp := V2.timestamp ds |})
  ∧ (∀ x, x ∈ e → is_Popen x = true →
          ∃ d, (x = smartctl_cmd d ∨ x = hdparm_cmd d) ∧ touched2 t k l s d).

(** ** Concrete inputs for the examples *)

(** A well-formed counter line for device [name]. *)
Definition counter_line (name r w : string) : string :=
  "   8       0 " +:+ name +:+ " 19912 11150 " +:+ r +:+ " 10996 76961 88315 "
  +:+ w +:+ " 72070 0 92637 83075
".

(** A tick whose clock stands still at [now] and whose commands exit with
    [rs] and [rh]. *)
Definition still_tick (ls : list string) (now rs rh : Z) : Tick :=
  {| lines := ls; now_compare := λ _, now; now_poweroff := λ _, now;
     smartctl_rc := λ _, rs; hdparm_rc := λ _, rh; sleep_rejected := false |}.

(** An object that tracks [ds], with [sda] in state [l] since time 0 and an
    unchanged snapshot [(100, 200)] for it. *)
Definition sda_object (ds : list string) (l : Label) : V2.DisksPowerOff :=
  {| V2.disks := ds; V2.timeout := 1800; V2.polling_interval := 10;
     V2.diskstats := {[ "sda" := {| V2.sectors_read := "100"; V2.sectors_written := "200" |} ]};
     V2.diskstats_prev := {[ "sda" := {| V2.sectors_read := "100"; V2.sectors_written := "200" |} ]};
     V2.disk_states := {[ "sda" := {| V2.state := l; V2.timestamp := 0 |} ]} |}.

(** ** Snapshots as pairs *)

(** The token pair of a snapshot. *)
Definition tokens (s : V2.DiskSectors) : string * string :=
  (V2.sectors_read s, V2.sectors_written s).

(** A snapshot of the older version: the list [poll] writes for a pair. *)
Definition token_list (p : string * string) : list string := [p.1; p.2].

(** The record a changed verdict leaves: an active device keeps its record,
    any other device, or a device without record, becomes active at [now]. *)
Definition activated (now : Z) (r : option V2.DiskState) : V2.DiskState :=
  match r with
  | Some ds =>
      if decide (V2.state ds = ACTIVE) then ds
      else {| V2.state := ACTIVE; V2.timestamp := now |}
  | None => {| V2.state := ACTIVE; V2.timestamp := now |}
  end.

(** ** An [int] for the examples *)

(** The value of a string of decimal digits, after [acc]. *)
Fixpoint digits (s : string) (acc : Z) : option Z :=
  match s with
  | EmptyString => Some acc
  | String c s' =>
      match Ascii.is_nat c with
      | Some n => digits s' (10 * acc + Z.of_nat n)
      | None => None
      end
  end.

(** A stand-in for the builtin [int] on plain decimal literals: blanks
    around, an optional sign, then digits. *)
Definition decimal (s : string) : option Z :=
  match Py.strip s with
  | EmptyString | String "-" EmptyString | String "+" EmptyString => None
  | String "-" s' => Z.opp <$> digits s' 0
  | String "+" s' => digits s' 0
  | s' => digits s' 0
  end.

(** ** The two versions side by side *)

(** The snapshot list the older version keeps for a [DiskSectors]. *)
Definition sectors_list (s : V2.DiskSectors) : list string :=
  [V2.sectors_read s; V2.sectors_written s].

(** A status of the older version and a state of the current one agree:
    same label and, unless the label is ACTIVE, same timestamp. *)
Definition status_rel (st : Label * Z) (ds : V2.DiskState) : Prop :=
  st.1 = V2.state ds ∧ (st.1 ≠ ACTIVE → st.2 = V2.timestamp ds).

Definition states_rel (m1 : gmap string (Label * Z))
    (m2 : gmap string V2.DiskState) : Prop :=
  ∀ d, match m1 !! d, m2 !! d with
       | Some st, Some ds => status_rel st ds
       | None, None => True
       | _, _ => False
       end.

(** The two objects hold the same data, up to the timestamps of active
    devices (and the flag [dump_log], which only the older one has). *)
Definition sim (s1 : V1.DisksPowerOff) (s2 : V2.DisksPowerOff) : Prop :=
  V1.disks s1 = V2.disks s2 ∧ V1.timeout s1 = V2.timeout s2
  ∧ V1.polling_interval s1 = V2.polling_interval s2
  ∧ V1.diskstats s1 = sectors_list <$> V2.diskstats s2
  ∧ V1.diskstats_prev s1 = sectors_list <$> V2.diskstats_prev s2
  ∧ states_rel (V1.disk_statuses s1) (V2.disk_states s2).

(** Every device with a previous snapshot has a record. *)
Definition prev_recorded (s2 : V2.DisksPowerOff) : Prop :=
  ∀ d, is_Some (V2.diskstats_prev s2 !! d) → is_Some (V2.disk_states s2 !! d).

(** Every device with a current snapshot has a record. *)
Definition cur_recorded (s2 : V2.DisksPowerOff) : Prop :=
  ∀ d, is_Some (V2.diskstats s2 !! d) → is_Some (V2.disk_states s2 !! d).

(** Two results agree: both raise the same exception, or both objects
    hold the same data and the same commands were started. *)
Definition agree (r1 : Result (V1.DisksPowerOff * list Event))
    (r2 : Result (V2.DisksPowerOff * list Event)) : Prop :=
  match r1, r2 with
  | Ok (s1, e1), Ok (s2, e2) =>
      sim s1 s2 ∧ cur_recorded s2 ∧ commands e1 = commands e2
  | Raise x1, Raise x2 => x1 = x2
  | _, _ => False
  end.

(** ** Counter lines and device names as they are written *)

(** A run of [n] spaces. *)
Fixpoint spaces (n : nat) : string :=
  match n with
  | O => EmptyString
  | S n' => String " " (spaces n')
  end.

(** No character of [s] is white space. *)
Fixpoint solid (s : string) : bool :=
  match s with
  | EmptyString => true
  | String c s' => negb (Py.isspace c) && solid s'
  end.

(** Every character of [s] is white space. *)
Fixpoint blank (s : string) : bool :=
  match s with
  | EmptyString => true
  | String c s' => Py.isspace c && blank s'
  end.

(** A field of a counter line: not empty, no white space in it. *)
Definition is_field (s : string) : bool :=
  match s with
  | EmptyString => false
  | _ => solid s
  end.

(** The fields after the first, each behind [1 + gap i] spaces. *)
Fixpoint render_from (gap : nat → nat) (i : nat) (fields : list string) : string :=
  match fields with
  | [] => EmptyString
  | f :: fs => spaces (S (gap i)) +:+ f +:+ render_from gap (S i) fs
  end.

(** A counter line as the kernel prints it: the first field behind [gap 0]
    spaces, the others behind one space or more. *)
Definition render (gap : nat → nat) (fields : list string) : string :=
  match fields with
  | [] => EmptyString
  | f :: fs => spaces (gap 0%nat) +:+ f +:+ render_from gap 1 fs
  end.

(** The fields [fs], each behind one space, in front of [t]. *)
Definition join_tail (fs : list string) (t : string) : string :=
  foldr (λ f acc, String " " (f +:+ acc)) t fs.

(** ** Traces of commands *)

(** A trace of commands in which every spin-down command comes right after
    a standby query for the same device. *)
Inductive protocol : list Event → Prop :=
  | protocol_nil : protocol []
  | protocol_query d evs : protocol evs → protocol (smartctl_cmd d :: evs)
  | protocol_spin d evs :
      protocol evs → protocol (smartctl_cmd d :: hdparm_cmd d :: evs).

Definition is_Sleep (e : Event) : bool :=
  match e with Sleep _ => true | _ => false end.

(** ** The log *)

(** Between [a] and [b] the record of [d] was left alone, or the trace [e]
    holds the debug record for the label [d] has in [b]. *)
Definition logged2 (d : string) (a : V2.DisksPowerOff) (e : list Event)
    (b : V2.DisksPowerOff) : Prop :=
  V2.disk_states b !! d = V2.disk_states a !! d
  ∨ ∃ ds, V2.disk_states b !! d = Some ds
          ∧ Syslog LOG_DEBUG (StateChangedTo d (V2.state ds)) ∈ e.

(** Every record of a state change in [e] is a debug record for a device
    of [l]. *)
Definition log_names (l : list string) (e : list Event) : Prop :=
  ∀ p d lab, Syslog p (StateChangedTo d lab) ∈ e → p = LOG_DEBUG ∧ d ∈ l.

(** ** The older version *)

(** The labels an object of the older version holds, device by device. *)
Definition labels1 (s : V1.DisksPowerOff) : gmap string Label :=
  fst <$> V1.disk_statuses s.

(** The detector's verdict on the maps of an object of the older version. *)
Definition verdict1 (s : V1.DisksPowerOff) (d : string) : bool :=
  V1.unchanged (V1.diskstats s) (V1.diskstats_prev s) d.

(** What the loops of the older version never touch. *)
Definition frame1 (s s' : V1.DisksPowerOff) : Prop :=
  V1.disks s' = V1.disks s ∧ V1.timeout s' = V1.timeout s
  ∧ V1.polling_interval s' = V1.polling_interval s
  ∧ V1.diskstats s' = V1.diskstats s ∧ V1.diskstats_prev s' = V1.diskstats_prev s.

(** How far a label is along the way it can go within one iteration, for
    a device with an unchanged verdict ([true]) and with a changed one. *)
Definition rank (verdict : bool) (l : option Label) : nat :=
  match verdict, l with
  | true, (None | Some ACTIVE) => 0
  | true, Some IDLE => 1
  | true, Some POWEROFF => 2
  | false, (None | Some IDLE) => 0
  | false, Some POWEROFF => 1
  | false, Some ACTIVE => 2
  end.

(** Every label of [lb] is the label of [la] or one further along. *)
Definition advance (v : string → bool) (la lb : gmap string Label) : Prop :=
  ∀ d, lb !! d = la !! d ∨ (rank (v d) (la !! d) < rank (v d) (lb !! d))%nat.

(** The state dumps of a trace. *)
Definition is_dump (e : Event) : bool :=
  match e with Syslog _ (DisksStateChanged _) => true | _ => false end.

(** What a loop of the older version does between [a] and [b]: labels
    advance, and the flag [dump_log] is raised exactly if one has. *)
Definition loop_rel1 (a : V1.DisksPowerOff) (e : list Event) (b : V1.DisksPowerOff)
    : Prop :=
  frame1 a b
  ∧ advance (verdict1 a) (labels1 a) (labels1 b)
  ∧ V1.dump_log b = V1.dump_log a || bool_decide (labels1 b ≠ labels1 a)
  ∧ filter (λ x, is_dump x = true) e = [].

(** * Properties *)

(** ** The parser and the normalisation on examples *)

Example parse_docstring_line :
  parse_diskstats_line
    "8       0 sda 19912 11150 4603573 10996 76961 88315 4666256 72070 0 92637 83075 0 0 0 0 13 8
" = Ok ("sda", "4603573", "4666256").
Proof. reflexivity. Qed.

Example parse_short_line : parse_diskstats_line "8 0 sda 1 2 3" = Raise IndexError.
Proof. reflexivity. Qed.

Example normalize_dev_path : normalize_name " /dev/sda " = "sda".
Proof. reflexivity. Qed.

(** ** Loops over the tracked list *)

Section ForEach.

Context {St : Type}.
Variable body : nat → string → St → Result (St * list Event).

Lemma for_each_cons_Ok i disk ds self self' evs :
  for_each body i (disk :: ds) self = Ok (self', evs) ↔
  ∃ s1 e1 e2, body i disk self = Ok (s1, e1)
              ∧ for_each body (S i) ds s1 = Ok (self', e2)
              ∧ evs = e1 ++ e2.
Proof.
  simpl. split.
  - destruct (body i disk self) as [[s1 e1]|] eqn:Hb; simpl; [|discriminate].
    destruct (for_each body (S i) ds s1) as [[s2 e2]|] eqn:Hr; simpl; [|discriminate].
    intros ?; simplify_eq. by exists s1, e1, e2.
  - intros (s1 & e1 & e2 & -> & Hr & ->). simpl. by rewrite Hr.
Qed.

(** A loop that ran to its end ran its body at every position. *)
Lemma for_each_lookup ds : ∀ k self self' evs i disk,
  for_each body k ds self = Ok (self', evs) →
  ds !! i = Some disk →
  ∃ s1 e1 s2 e2 e3,
    for_each body k (take i ds) self = Ok (s1, e1)
    ∧ body (k + i)%nat disk s1 = Ok (s2, e2)
    ∧ for_each body (S (k + i)) (drop (S i) ds) s2 = Ok (self', e3)
    ∧ evs = e1 ++ e2 ++ e3.
Proof.
  induction ds as [|d ds IH]; intros k self self' evs i disk Hrun Hi; [done|].
  apply for_each_cons_Ok in Hrun as (s1 & e1 & e2 & Hb & Hr & ->).
  destruct i as [|i]; simpl in Hi.
  - injection Hi as ->. exists self, [], s1, e1, e2.
    rewrite Nat.add_0_r. simpl. rewrite drop_0. done.
  - destruct (IH _ _ _ _ _ _ Hr Hi) as (s1' & e1' & s2 & e2' & e3 & H1 & H2 & H3 & ->).
    exists s1', (e1 ++ e1'), s2, e2', e3.
    replace (k + S i)%nat with (S k + i)%nat by lia.
    repeat split; try done.
    + simpl. rewrite Hb. simpl. by rewrite H1.
    + by rewrite <- app_assoc.
Qed.

(** A body that keeps an invariant and cannot raise under it gives a loop
    that cannot raise. *)
Lemma for_each_total (I : St → Prop) ds : ∀ k self,
  (∀ i disk s, disk ∈ ds → I s → ∃ s' e, body i disk s = Ok (s', e) ∧ I s') →
  I self →
  ∃ self' evs, for_each body k ds self = Ok (self', evs) ∧ I self'.
Proof.
  induction ds as [|d ds IH]; intros k self Hbody HI.
  - by exists self, [].
  - destruct (Hbody k d self) as (s1 & e1 & Hb & HI1); [by left|done|].
    destruct (IH (S k) s1) as (s2 & e2 & Hr & HI2); [|done|].
    { intros i x s Hx. apply Hbody. by right. }
    exists s2, (e1 ++ e2). split; [|done].
    apply for_each_cons_Ok. by exists s1, e1, e2.
Qed.

(** A relation between the object before, the trace and the object after
    that holds of every run of the body, of doing nothing and of doing one
    thing after another, holds of the loop. *)
Lemma for_each_rel (R : St → list Event → St → Prop) ds :
  (∀ s, R s [] s) →
  (∀ s1 e1 s2 e2 s3, R s1 e1 s2 → R s2 e2 s3 → R s1 (e1 ++ e2) s3) →
  ∀ k self self' evs,
    (∀ j disk s s' e, ds !! j = Some disk →
       body (k + j)%nat disk s = Ok (s', e) → R s e s') →
    for_each body k ds self = Ok (self', evs) → R self evs self'.
Proof.
  intros Hnil Hseq.
  induction ds as [|d ds IH]; intros k self self' evs Hbody Hrun.
  - injection Hrun as <- <-. done.
  - apply for_each_cons_Ok in Hrun as (s1 & e1 & e2 & Hb & Hr & ->).
    eapply Hseq.
    + apply (Hbody 0%nat d); [done|]. by rewrite Nat.add_0_r.
    + eapply IH; [|done]. intros j x s s' e Hj.
      replace (S k + j)%nat with (k + S j)%nat by lia. by apply Hbody.
Qed.

End ForEach.

(** Two loops whose bodies stay in step stay in step. *)
Lemma for_each_sim {S1 S2 : Type}
    (body1 : nat → string → S1 → Result (S1 * list Event))
    (body2 : nat → string → S2 → Result (S2 * list Event))
    (R : S1 → S2 → Prop) (ds : list string) :
  (∀ i disk s1 s2, R s1 s2 →
     ∃ s1' e1 s2' e2, body1 i disk s1 = Ok (s1', e1) ∧ body2 i disk s2 = Ok (s2', e2)
                      ∧ R s1' s2' ∧ commands e1 = commands e2) →
  ∀ k s1 s2, R s1 s2 →
    ∃ s1' e1 s2' e2, for_each body1 k ds s1 = Ok (s1', e1)
                     ∧ for_each body2 k ds s2 = Ok (s2', e2)
                     ∧ R s1' s2' ∧ commands e1 = commands e2.
Proof.
  intros Hstep. induction ds as [|d ds IH]; intros k s1 s2 HR.
  - by exists s1, [], s2, [].
  - destruct (Hstep k d s1 s2 HR) as (a1 & e1 & a2 & e2 & Hb1 & Hb2 & HR' & Hc).
    destruct (IH (S k) a1 a2 HR') as (b1 & f1 & b2 & f2 & Hr1 & Hr2 & HR'' & Hc').
    exists b1, (e1 ++ f1), b2, (e2 ++ f2). repeat split; [| |done|].
    + apply for_each_cons_Ok. by exists a1, e1, f1.
    + apply for_each_cons_Ok. by exists a2, e2, f2.
    + unfold commands in *. rewrite !filter_app. congruence.
Qed.

(** ** Traces *)

Lemma occurrences_app e evs1 evs2 :
  occurrences e (evs1 ++ evs2) = (occurrences e evs1 + occurrences e evs2)%nat.
Proof. unfold occurrences. by rewrite filter_app, length_app. Qed.

Lemma occurrences_zero e evs : occurrences e evs = 0%nat ↔ e ∉ evs.
Proof.
  unfold occurrences. induction evs as [|x evs IH]; simpl.
  - split; [intros _; apply not_elem_of_nil|done].
  - rewrite filter_cons. rewrite not_elem_of_cons. case_decide; simpl.
    + subst. split; [lia|]. by intros [? _].
    + rewrite IH. split; [|by intros [_ ?]]. intros ?; split; [congruence|done].
Qed.

Lemma smartctl_cmd_inj d d' : smartctl_cmd d = smartctl_cmd d' → d = d'.
Proof. unfold smartctl_cmd. intros [= H]. done. Qed.

Lemma hdparm_cmd_inj d d' : hdparm_cmd d = hdparm_cmd d' → d = d'.
Proof. unfold hdparm_cmd. intros [= H]. done. Qed.


(** ** The current version: what one run of a loop body does *)

Lemma frame2_refl s : frame2 s s.
Proof. by repeat split. Qed.

Lemma frame2_trans s1 s2 s3 : frame2 s1 s2 → frame2 s2 s3 → frame2 s1 s3.
Proof. unfold frame2. intuition congruence. Qed.

Lemma frame2_set_disk_states m s : frame2 s (V2.set_disk_states m s).
Proof. by repeat split. Qed.

#[local] Hint Resolve frame2_refl frame2_set_disk_states : core.

Lemma verdict2_frame s s' disk : frame2 s s' → verdict2 s' disk = verdict2 s disk.
Proof. intros (_ & _ & _ & Hc & Hp). unfold verdict2. by rewrite Hc, Hp. Qed.

Lemma unchanged2_true cur prev disk :
  V2.unchanged cur prev disk = true ↔
  ∃ p c, prev !! disk = Some p ∧ cur !! disk = Some c
         ∧ V2.sectors_read p = V2.sectors_read c
         ∧ V2.sectors_written p = V2.sectors_written c.
Proof.
  unfold V2.unchanged, V2.DiskSectors_eq.
  destruct (cur !! disk) as [c|], (prev !! disk) as [p|]; split;
    try discriminate; try (intros (? & ? & ? & ? & _); discriminate).
  - rewrite andb_true_iff, !bool_decide_eq_true. intros [? ?]. by exists p, c.
  - intros (p' & c' & [= <-] & [= <-] & ? & ?).
    rewrite andb_true_iff, !bool_decide_eq_true. done.
Qed.

(** Changed, and the device is not yet active: it becomes active now. *)
Lemma compare_disk_changed_to_active now disk s :
  verdict2 s disk = false →
  (∀ ds, V2.disk_states s !! disk = Some ds → V2.state ds ≠ ACTIVE) →
  V2.compare_disk now disk s =
    Ok (V2.set_disk_states
          (<[disk := {| V2.state := ACTIVE; V2.timestamp := now |}]> (V2.disk_states s)) s,
        [Syslog LOG_DEBUG (StateChangedTo disk ACTIVE)]).
Proof.
  unfold verdict2, V2.compare_disk. intros -> Hna.
  destruct (V2.disk_states s !! disk) as [ds|] eqn:Hds; [|done].
  by rewrite bool_decide_eq_true_2 by by apply Hna.
Qed.

(** Changed, and the device is active already: nothing happens. *)
Lemma compare_disk_changed_active now disk s ds :
  verdict2 s disk = false →
  V2.disk_states s !! disk = Some ds → V2.state ds = ACTIVE →
  V2.compare_disk now disk s = Ok (s, []).
Proof.
  unfold verdict2, V2.compare_disk. intros -> -> Ha.
  by rewrite bool_decide_eq_false_2 by (intros ?; congruence).
Qed.

(** Unchanged, and the device is idle or powered off: nothing happens. *)
Lemma compare_disk_unchanged_idle now disk s ds :
  verdict2 s disk = true →
  V2.disk_states s !! disk = Some ds → V2.state ds ≠ ACTIVE →
  V2.compare_disk now disk s = Ok (s, []).
Proof.
  unfold verdict2, V2.compare_disk, dict_getitem. intros -> -> Hna. simpl.
  destruct (V2.state ds); [done|..]; by repeat case_bool_decide.
Qed.

(** Unchanged, and the device is active: it becomes idle now. *)
Lemma compare_disk_unchanged_active now disk s ds :
  verdict2 s disk = true →
  V2.disk_states s !! disk = Some ds → V2.state ds = ACTIVE →
  V2.compare_disk now disk s =
    Ok (V2.set_disk_states
          (<[disk := {| V2.state := IDLE; V2.timestamp := now |}]> (V2.disk_states s)) s,
        [Syslog LOG_DEBUG (StateChangedTo disk IDLE)]).
Proof.
  unfold verdict2, V2.compare_disk, dict_getitem. intros -> -> Ha. simpl.
  by rewrite Ha.
Qed.

(** Unchanged, and the device has no record: the lookup fails. *)
Lemma compare_disk_unchanged_no_record now disk s :
  verdict2 s disk = true → V2.disk_states s !! disk = None →
  V2.compare_disk now disk s = Raise (KeyError disk).
Proof. unfold verdict2, V2.compare_disk, dict_getitem. by intros -> ->. Qed.

(** The five cases together. *)
Lemma compare_disk_cases now disk s :
  match V2.compare_disk now disk s with
  | Ok (s', e) =>
      frame2 s s'
      ∧ (s' = s ∧ e = []
         ∨ ∃ l, V2.disk_states s' =
                  <[disk := {| V2.state := l; V2.timestamp := now |}]> (V2.disk_states s)
                ∧ e = [Syslog LOG_DEBUG (StateChangedTo disk l)]
                ∧ l = (if verdict2 s disk then IDLE else ACTIVE))
      ∧ ∃ ds', V2.disk_states s' !! disk = Some ds'
               ∧ (V2.state ds' = ACTIVE ↔ verdict2 s disk = false)
  | Raise e =>
      e = KeyError disk ∧ verdict2 s disk = true ∧ V2.disk_states s !! disk = None
  end.
Proof.
  destruct (verdict2 s disk) eqn:Hv, (V2.disk_states s !! disk) as [ds|] eqn:Hds.
  - destruct (decide (V2.state ds = ACTIVE)) as [Ha|Ha].
    + rewrite (compare_disk_unchanged_active _ _ _ ds) by done.
      split; [done|]. split; [right; by exists IDLE|].
      eexists. simpl. rewrite lookup_insert_eq. split; [done|]. simpl. by split.
    + rewrite (compare_disk_unchanged_idle _ _ _ ds) by done.
      split; [done|]. split; [by left|]. exists ds. split; [done|]. by split.
  - by rewrite compare_disk_unchanged_no_record.
  - destruct (decide (V2.state ds = ACTIVE)) as [Ha|Ha].
    + rewrite (compare_disk_changed_active _ _ _ ds) by done.
      split; [done|]. split; [by left|]. by exists ds.
    + rewrite compare_disk_changed_to_active; [|done|intros; congruence].
      split; [done|]. split; [right; by exists ACTIVE|].
      eexists. simpl. rewrite lookup_insert_eq. done.
  - rewrite compare_disk_changed_to_active; [|done|intros; congruence].
    split; [done|]. split; [right; by exists ACTIVE|].
    eexists. simpl. rewrite lookup_insert_eq. done.
Qed.

(** ** The current version: a whole pass of [compare] *)

Lemma first_at_exists d (l : list string) : d ∈ l → ∃ i, first_at d l i.
Proof.
  induction l as [|x l IH]; [by intros ?%elem_of_nil|].
  destruct (decide (x = d)) as [->|Hne].
  - intros _. exists 0%nat. split; [done|]. simpl. apply not_elem_of_nil.
  - intros [?|Hin]%elem_of_cons; [congruence|].
    destruct (IH Hin) as (i & Hi & Hni). exists (S i). split; [done|].
    simpl. rewrite not_elem_of_cons. split; [congruence|done].
Qed.

Lemma compare_disk_other now d d' s s' e :
  d' ≠ d → V2.compare_disk now d' s = Ok (s', e) →
  V2.disk_states s' !! d = V2.disk_states s !! d.
Proof.
  intros Hne Hrun. pose proof (compare_disk_cases now d' s) as H.
  rewrite Hrun in H. destruct H as (_ & [[-> _]|(l & -> & _)] & _); [done|].
  by rewrite lookup_insert_ne.
Qed.

Lemma compare_disk_frame now d s s' e :
  V2.compare_disk now d s = Ok (s', e) → frame2 s s'.
Proof.
  intros Hrun. pose proof (compare_disk_cases now d s) as H.
  rewrite Hrun in H. by destruct H.
Qed.

(** The record a run of the body leaves for its device depends on the
    verdict and on the record it found, on nothing else. *)
Lemma compare_disk_congr now d s s1 s2 e2 :
  frame2 s s1 → V2.disk_states s1 !! d = V2.disk_states s !! d →
  V2.compare_disk now d s1 = Ok (s2, e2) →
  ∃ s2', V2.compare_disk now d s = Ok (s2', e2)
         ∧ V2.disk_states s2' !! d = V2.disk_states s2 !! d.
Proof.
  intros Hf Hrec. unfold V2.compare_disk. fold (verdict2 s1 d) (verdict2 s d).
  rewrite (verdict2_frame s s1) by done. unfold dict_getitem. rewrite Hrec.
  destruct (verdict2 s d), (V2.disk_states s !! d) as [ds|] eqn:Hds; simpl;
    repeat case_bool_decide; simpl; intros ?; simplify_eq;
    eexists; (split; [done|]); simpl; rewrite ?lookup_insert_eq; congruence.
Qed.

Lemma compare_disk_settles now d s s' e :
  V2.compare_disk now d s = Ok (s', e) → settled2 s' d.
Proof.
  intros Hrun. pose proof (compare_disk_cases now d s) as H.
  rewrite Hrun in H. destruct H as (Hf & _ & ds' & Hds' & Hiff).
  exists ds'. by rewrite (verdict2_frame s s').
Qed.

Lemma compare_disk_settled now d s :
  settled2 s d → V2.compare_disk now d s = Ok (s, []).
Proof.
  intros (ds & Hds & Hiff). destruct (verdict2 s d) eqn:Hv.
  - apply (compare_disk_unchanged_idle _ _ _ ds); [done..|].
    intros Ha. by apply Hiff in Ha.
  - apply (compare_disk_changed_active _ _ _ ds); [done..|]. by apply Hiff.
Qed.

(** The record [compare] leaves for a tracked device is the one the body
    leaves when run on the object as it was, with the clock as read at the
    first position of the device; nothing else is looked at or changed. *)
Lemma compare_pass t self self' evs d :
  V2.compare t self = Ok (self', evs) →
  frame2 self self'
  ∧ (d ∉ V2.disks self → V2.disk_states self' !! d = V2.disk_states self !! d)
  ∧ (∀ i, first_at d (V2.disks self) i →
       ∃ s2 e2, V2.compare_disk (now_compare t i) d self = Ok (s2, e2)
                ∧ V2.disk_states self' !! d = V2.disk_states s2 !! d).
Proof.
  unfold V2.compare. intros Hrun.
  (* runs of the body on other devices *)
  assert (Hothers : ∀ l k s s' e, d ∉ l →
            for_each (λ i, V2.compare_disk (now_compare t i)) k l s = Ok (s', e) →
            frame2 s s' ∧ V2.disk_states s' !! d = V2.disk_states s !! d).
  { intros l k s s' e Hnin Hl.
    eapply (for_each_rel _
              (λ a _ b, frame2 a b ∧ V2.disk_states b !! d = V2.disk_states a !! d))
      in Hl; [done|done| |].
    - intros a _ b _ c [? ?] [? ?]. split; [by eapply frame2_trans|congruence].
    - intros j x a b e' Hx Hb. split.
      + by eapply compare_disk_frame.
      + eapply compare_disk_other; [|done]. intros ->.
        by apply list_elem_of_lookup_2 in Hx. }
  (* runs of the body once the device is settled *)
  assert (Hsettled : ∀ l k s s' e, settled2 s d →
            for_each (λ i, V2.compare_disk (now_compare t i)) k l s = Ok (s', e) →
            frame2 s s' ∧ V2.disk_states s' !! d = V2.disk_states s !! d).
  { intros l k s s' e Hs Hl.
    eapply (for_each_rel _
              (λ a _ b, frame2 a b
                        ∧ (settled2 a d → V2.disk_states b !! d = V2.disk_states a !! d)))
      in Hl; [destruct Hl as [? ?]; auto|by auto| |].
    - intros a _ b _ c [Hab Hab'] [Hbc Hbc']. split; [by eapply frame2_trans|].
      intros (ds & Hds & Hiff). rewrite Hbc', Hab'; [done|by exists ds|].
      exists ds. rewrite Hab' by by exists ds.
      by rewrite (verdict2_frame a b).
    - intros j x a b e' _ Hb.
      split; [by eapply compare_disk_frame|]. intros Hs'.
      destruct (decide (x = d)) as [->|Hne].
      + rewrite compare_disk_settled in Hb by done. by simplify_eq.
      + by eapply compare_disk_other. }
  split; [|split].
  - destruct (decide (d ∈ V2.disks self)) as [Hin|Hnin].
    + apply first_at_exists in Hin as (i & Hi & Hni).
      destruct (for_each_lookup _ _ _ _ _ _ _ _ Hrun Hi)
        as (s1 & e1 & s2 & e2 & e3 & H1 & H2 & H3 & _).
      apply Hothers in H1 as [Hf1 _]; [|done].
      pose proof (compare_disk_frame _ _ _ _ _ H2) as Hf2.
      apply Hsettled in H3 as [Hf3 _]; [|by eapply compare_disk_settles].
      eauto using frame2_trans.
    + by apply Hothers in Hrun as [? _].
  - intros Hnin. by apply Hothers in Hrun as [_ ?].
  - intros i [Hi Hni].
    destruct (for_each_lookup _ _ _ _ _ _ _ _ Hrun Hi)
      as (s1 & e1 & s2 & e2 & e3 & H1 & H2 & H3 & _).
    apply Hothers in H1 as [Hf1 Hr1]; [|done]. simpl in H2.
    destruct (compare_disk_congr _ _ _ _ _ _ Hf1 Hr1 H2) as (s2' & Hb & Hr2).
    exists s2', e2. split; [done|].
    apply Hsettled in H3 as [_ Hr3]; [|by eapply compare_disk_settles].
    congruence.
Qed.


(** ** The current version: [poweroff] *)

Lemma eligible2_true s now ds :
  eligible2 s now ds = true ↔
  V2.state ds ≠ ACTIVE ∧ V2.timeout s ≤ now - V2.timestamp ds.
Proof.
  unfold eligible2. rewrite andb_true_iff, orb_true_iff, !bool_decide_eq_true.
  rewrite Z.leb_le. destruct (V2.state ds); intuition congruence.
Qed.

(** The body of [poweroff] never raises: its lookups are guarded. *)
Lemma poweroff_disk_eq now rs rh disk s :
  V2.poweroff_disk now rs rh disk s =
    Ok (match V2.disk_states s !! disk with
        | Some ds =>
            if eligible2 s now ds then
              (V2.set_disk_states
                 (<[disk := {| V2.state := POWEROFF; V2.timestamp := V2.timestamp ds |}]>
                    (V2.disk_states s)) s,
               attempt_events rs rh disk (V2.state ds))
            else (s, [])
        | None => (s, [])
        end).
Proof.
  unfold V2.poweroff_disk, eligible2, attempt_events, dict_getitem.
  destruct (V2.disk_states s !! disk) as [ds|]; [|done].
  by destruct (_ && _).
Qed.

Lemma occurrences_cons e x evs :
  occurrences e (x :: evs) =
    ((if decide (x = e) then 1 else 0) + occurrences e evs)%nat.
Proof. unfold occurrences. rewrite filter_cons. by case_decide. Qed.

(** An attempt holds one query, and one spin-down command unless the query
    exits with 2. *)
Lemma attempt_events_counts rs rh disk l :
  occurrences (smartctl_cmd disk) (attempt_events rs rh disk l) = 1%nat
  ∧ occurrences (hdparm_cmd disk) (attempt_events rs rh disk l)
    = (if bool_decide (rs = 2) then 0%nat else 1%nat).
Proof.
  unfold attempt_events.
  repeat case_bool_decide; try done; simpl;
    repeat (rewrite occurrences_cons; case_decide; try discriminate);
    done.
Qed.

(** The commands of an attempt on one device name only that device. *)
Lemma attempt_events_commands rs rh disk l e :
  e ∈ attempt_events rs rh disk l → is_Popen e = true →
  e = smartctl_cmd disk ∨ e = hdparm_cmd disk.
Proof.
  unfold attempt_events. intros He Hp.
  repeat case_bool_decide; simpl in He;
    repeat (apply elem_of_cons in He as [->|He]; [by auto|]);
    by apply elem_of_nil in He.
Qed.

Lemma eligible2_frame s s' now ds :
  frame2 s s' → eligible2 s' now ds = eligible2 s now ds.
Proof. intros (_ & Ht & _). unfold eligible2. by rewrite Ht. Qed.

Lemma touched2_back t k l s1 e s2 d :
  poweroff_rel2 t k l s1 e s2 → touched2 t k l s2 d → touched2 t k l s1 d.
Proof.
  intros (Hf & Hrec & _) (j & ds & Hj & Hds & Hel).
  destruct (Hrec d) as [Hsame|[Ht _]]; [|done].
  exists j, ds. rewrite <- Hsame. by rewrite <- (eligible2_frame s1 s2).
Qed.

Lemma poweroff_rel2_seq t k l s1 e1 s2 e2 s3 :
  poweroff_rel2 t k l s1 e1 s2 → poweroff_rel2 t k l s2 e2 s3 →
  poweroff_rel2 t k l s1 (e1 ++ e2) s3.
Proof.
  intros H12 H23.
  pose proof H12 as (Hf12 & Hrec12 & Hev12).
  pose proof H23 as (Hf23 & Hrec23 & Hev23).
  split; [by eapply frame2_trans|]. split.
  - intros d. destruct (Hrec23 d) as [Hs23|(Ht23 & ds2 & Hds2 & Hds3)].
    + rewrite Hs23. apply Hrec12.
    + right. split; [by eapply touched2_back|].
      destruct (Hrec12 d) as [Hs12|(_ & ds1 & Hds1 & Hds2')].
      * exists ds2. by rewrite <- Hs12.
      * exists ds1. split; [done|]. rewrite Hds3. by simplify_eq.
  - intros x [Hx|Hx]%elem_of_app Hp.
    + by apply Hev12.
    + destruct (Hev23 x Hx Hp) as (d & Hd & Ht). exists d.
      split; [done|]. by eapply touched2_back.
Qed.

Lemma poweroff_rel2_nil t k l s : poweroff_rel2 t k l s [] s.
Proof.
  split; [done|]. split; [by left|]. by intros x ?%elem_of_nil.
Qed.

(** The loop of [poweroff], over any stretch of the tracked list. *)
Lemma poweroff_loop t l k s s' evs :
  for_each (λ i, V2.poweroff_disk (now_poweroff t i) (smartctl_rc t i) (hdparm_rc t i))
    k l s = Ok (s', evs) →
  poweroff_rel2 t k l s evs s'.
Proof.
  apply for_each_rel.
  - apply poweroff_rel2_nil.
  - apply poweroff_rel2_seq.
  - intros j disk a b e Hj. rewrite poweroff_disk_eq.
    destruct (V2.disk_states a !! disk) as [ds|] eqn:Hds.
    2:{ intros ?; simplify_eq. apply poweroff_rel2_nil. }
    destruct (eligible2 a (now_poweroff t (k + j)) ds) eqn:Hel.
    2:{ intros ?; simplify_eq. apply poweroff_rel2_nil. }
    intros ?; simplify_eq.
    assert (touched2 t k l a disk) as Ht by by exists j, ds.
    split; [done|]. split.
    + intros d. simpl. destruct (decide (d = disk)) as [->|Hne].
      * right. split; [done|]. exists ds. by rewrite lookup_insert_eq.
      * left. by rewrite lookup_insert_ne.
    + intros x Hx Hp. exists disk. split; [|done].
      by eapply attempt_events_commands.
Qed.

(** [poweroff] never raises. *)
Lemma poweroff_total t self : ∃ self' evs, V2.poweroff t self = Ok (self', evs).
Proof.
  destruct (for_each_total
              (λ i, V2.poweroff_disk (now_poweroff t i) (smartctl_rc t i) (hdparm_rc t i))
              (λ _, True) (V2.disks self) 0%nat self) as (s' & e & H & _); [|done|by eauto].
  intros i d s _ _. rewrite poweroff_disk_eq.
  match goal with |- ∃ _ _, Ok ?r = _ ∧ _ => exists r.1, r.2; by destruct r end.
Qed.

(** A device the loop does not meet keeps its record and gets no command. *)
Lemma poweroff_loop_absent t l k s s' evs d :
  for_each (λ i, V2.poweroff_disk (now_poweroff t i) (smartctl_rc t i) (hdparm_rc t i))
    k l s = Ok (s', evs) →
  d ∉ l →
  V2.disk_states s' !! d = V2.disk_states s !! d
  ∧ (smartctl_cmd d ∉ evs) ∧ (hdparm_cmd d ∉ evs).
Proof.
  intros (Hf & Hrec & Hev)%poweroff_loop Hnin.
  assert (¬ touched2 t k l s d) as Hnt.
  { intros (j & ? & Hj & _). by apply list_elem_of_lookup_2 in Hj. }
  split; [destruct (Hrec d) as [?|[? _]]; done|].
  split; intros Hx; destruct (Hev _ Hx) as (d' & [Heq|Heq] & Ht); try done.
  - by apply smartctl_cmd_inj in Heq as ->.
  - by apply hdparm_cmd_inj in Heq as ->.
Qed.

(** What [poweroff] does at one position of the tracked list where the
    device passes the test on the object as it was before the pass. *)
Lemma poweroff_at t self self' evs i d ds :
  V2.poweroff t self = Ok (self', evs) →
  V2.disks self !! i = Some d →
  V2.disk_states self !! d = Some ds →
  eligible2 self (now_poweroff t i) ds = true →
  ∃ e1 l e3,
    evs = e1 ++ attempt_events (smartctl_rc t i) (hdparm_rc t i) d l ++ e3
    ∧ (l = V2.state ds ∨ l = POWEROFF)
    ∧ V2.disk_states self' !! d =
        Some {| V2.state := POWEROFF; V2.timestamp := V2.timestamp ds |}
    ∧ (d ∉ take i (V2.disks self) →
         l = V2.state ds ∧ (smartctl_cmd d ∉ e1) ∧ (hdparm_cmd d ∉ e1))
    ∧ (d ∉ drop (S i) (V2.disks self) → (smartctl_cmd d ∉ e3) ∧ (hdparm_cmd d ∉ e3)).
Proof.
  unfold V2.poweroff. intros Hrun Hi Hds Hel.
  destruct (for_each_lookup _ _ _ _ _ _ _ _ Hrun Hi)
    as (s1 & e1 & s2 & e2 & e3 & H1 & H2 & H3 & ->).
  simpl in H2. rewrite poweroff_disk_eq in H2.
  pose proof (poweroff_loop _ _ _ _ _ _ H1) as (Hf1 & Hrec1 & _).
  (* the record the body finds at position i *)
  assert (∃ ds1, V2.disk_states s1 !! d = Some ds1
                 ∧ V2.timestamp ds1 = V2.timestamp ds
                 ∧ (V2.state ds1 = V2.state ds ∨ V2.state ds1 = POWEROFF)
                 ∧ (d ∉ take i (V2.disks self) → ds1 = ds)) as
    (ds1 & Hds1 & Hts1 & Hst1 & Hsame).
  { destruct (Hrec1 d) as [Hs|(_ & ds' & Hds' & Hds1)].
    - exists ds. rewrite Hs. auto.
    - simplify_eq. eexists. split; [done|]. simpl. repeat split; [by right|].
      intros Hnin. by apply (poweroff_loop_absent _ _ _ _ _ _ d) in H1 as [? _];
        [congruence|]. }
  rewrite Hds1 in H2.
  assert (eligible2 s1 (now_poweroff t i) ds1 = true) as Hel1.
  { rewrite (eligible2_frame self s1) by done. apply eligible2_true.
    apply eligible2_true in Hel as [Hna Hto]. rewrite Hts1. split; [|done].
    destruct Hst1 as [->| ->]; done. }
  rewrite Hel1 in H2. simplify_eq.
  pose proof (poweroff_loop _ _ _ _ _ _ H3) as (_ & Hrec3 & _).
  exists e1, (V2.state ds1), e3. split; [done|]. split; [done|]. split; [|split].
  - destruct (Hrec3 d) as [Hs|(_ & ds' & Hds' & Hds3)].
    + rewrite Hs. simpl. rewrite lookup_insert_eq. by rewrite Hts1.
    + simpl in Hds'. rewrite lookup_insert_eq in Hds'. simplify_eq.
      rewrite Hds3. simpl. by rewrite Hts1.
  - intros Hnin. rewrite (Hsame Hnin). split; [done|].
    by apply (poweroff_loop_absent _ _ _ _ _ _ d) in H1 as [_ ?].
  - intros Hnin. by apply (poweroff_loop_absent _ _ _ _ _ _ d) in H3 as [_ ?].
Qed.

(** ** The counter source *)

Lemma parse_diskstats_line_Ok line :
  (10 ≤ length (diskstats_fields line))%nat →
  ∃ name r w, parse_diskstats_line line = Ok (name, r, w)
              ∧ diskstats_fields line !! 2%nat = Some name
              ∧ diskstats_fields line !! 5%nat = Some r
              ∧ diskstats_fields line !! 9%nat = Some w.
Proof.
  intros Hlen. unfold parse_diskstats_line, list_getitem.
  destruct (lookup_lt_is_Some_2 (diskstats_fields line) 2) as [name Hn]; [lia|].
  destruct (lookup_lt_is_Some_2 (diskstats_fields line) 5) as [r Hr]; [lia|].
  destruct (lookup_lt_is_Some_2 (diskstats_fields line) 9) as [w Hw]; [lia|].
  exists name, r, w. by rewrite Hn, Hr, Hw.
Qed.

Lemma parse_diskstats_line_Raise line :
  (length (diskstats_fields line) < 10)%nat →
  parse_diskstats_line line = Raise IndexError.
Proof.
  intros Hlen. unfold parse_diskstats_line, list_getitem.
  rewrite (lookup_ge_None_2 (diskstats_fields line) 9) by lia.
  destruct (_ !! 2%nat); [|done]. by destruct (_ !! 5%nat).
Qed.

(** What [poll]'s loop keeps, and where the snapshots it writes come from. *)
Lemma poll_lines_spec ls : ∀ s s',
  V2.poll_lines ls s = Ok s' →
  V2.disks s' = V2.disks s ∧ V2.timeout s' = V2.timeout s
  ∧ V2.polling_interval s' = V2.polling_interval s
  ∧ V2.diskstats_prev s' = V2.diskstats_prev s
  ∧ V2.disk_states s' = V2.disk_states s
  ∧ (∀ d, V2.diskstats s' !! d = V2.diskstats s !! d
          ∨ d ∈ V2.disks s
            ∧ ∃ line r w, line ∈ ls ∧ parse_diskstats_line line = Ok (d, r, w)
                          ∧ V2.diskstats s' !! d =
                              Some {| V2.sectors_read := r; V2.sectors_written := w |})
  ∧ (∀ line d r w, line ∈ ls → parse_diskstats_line line = Ok (d, r, w) →
       d ∈ V2.disks s → is_Some (V2.diskstats s' !! d)).
Proof.
  induction ls as [|line ls IH]; intros s s'; simpl.
  - intros [= <-]. repeat split; [by left|]. by intros ???? ?%elem_of_nil.
  - unfold V2.poll_line.
    destruct (parse_diskstats_line line) as [[[name r] w]|] eqn:Hp; [|done]. simpl.
    case_bool_decide as Hin; simpl; intros Hrest;
      apply IH in Hrest as (Hd & Ht & Hpi & Hprev & Hst & Hsrc & Hall); simpl in *.
    + repeat split; try done.
      * intros d. destruct (Hsrc d) as [Hsame|(Hdin & l' & r' & w' & Hl' & Hp' & Hv)].
        -- destruct (decide (d = name)) as [->|Hne].
           ++ right. split; [done|]. exists line, r, w. split; [by left|].
              split; [done|]. by rewrite Hsame, lookup_insert_eq.
           ++ left. by rewrite Hsame, lookup_insert_ne.
        -- right. split; [done|]. exists l', r', w'. split; [by right|done].
      * intros l' d r' w' [->|Hl']%elem_of_cons Hp' Hdin; [|by eapply Hall].
        rewrite Hp in Hp'. simplify_eq.
        destruct (Hsrc d) as [Hsame|(_ & ? & ? & ? & _ & _ & Hv)].
        -- rewrite Hsame, lookup_insert_eq. by eexists.
        -- rewrite Hv. by eexists.
    + repeat split; try done.
      * intros d. destruct (Hsrc d) as [Hsame|(Hdin & l' & r' & w' & Hl' & Hp' & Hv)];
          [by left|].
        right. split; [done|]. exists l', r', w'. split; [by right|done].
      * intros l' d r' w' [->|Hl']%elem_of_cons Hp' Hdin; [|by eapply Hall].
        rewrite Hp in Hp'. by simplify_eq.
Qed.

(** [poll] runs to its end exactly when every line has ten fields; a
    shorter line raises [IndexError]. *)
Lemma poll_lines_result ls : ∀ s,
  (Forall (λ line, (10 ≤ length (diskstats_fields line))%nat) ls
   ∧ ∃ s', V2.poll_lines ls s = Ok s')
  ∨ (Exists (λ line, (length (diskstats_fields line) < 10)%nat) ls
     ∧ V2.poll_lines ls s = Raise IndexError).
Proof.
  induction ls as [|line ls IH]; intros s; simpl.
  - left. split; [done|]. by exists s.
  - unfold V2.poll_line.
    destruct (decide (length (diskstats_fields line) < 10)%nat) as [Hshort|Hlong].
    + right. split; [by left|]. by rewrite parse_diskstats_line_Raise.
    + destruct (parse_diskstats_line_Ok line) as (name & r & w & -> & _); [lia|].
      simpl. case_bool_decide; simpl.
      * destruct (IH (V2.set_diskstats
                        (<[name := {| V2.sectors_read := r; V2.sectors_written := w |}]>
                           (V2.diskstats s)) s)) as [[Hall Hok]|[Hex Hr]].
        -- left. split; [|done]. constructor; [lia|done].
        -- right. split; [by right|done].
      * destruct (IH s) as [[Hall Hok]|[Hex Hr]].
        -- left. split; [|done]. constructor; [lia|done].
        -- right. split; [by right|done].
Qed.

Lemma poll_spec ls s s' :
  V2.poll ls s = Ok s' →
  V2.disks s' = V2.disks s ∧ V2.timeout s' = V2.timeout s
  ∧ V2.polling_interval s' = V2.polling_interval s
  ∧ V2.diskstats_prev s' = V2.diskstats s
  ∧ V2.disk_states s' = V2.disk_states s
  ∧ (∀ d, is_Some (V2.diskstats s' !! d) → d ∈ V2.disks s).
Proof.
  unfold V2.poll. intros (Hd & Ht & Hpi & Hprev & Hst & Hsrc & _)%poll_lines_spec.
  simpl in *. repeat split; try done.
  intros d [v Hv]. destruct (Hsrc d) as [Hsame|[? _]]; [|done].
  rewrite Hv, lookup_empty in Hsame. done.
Qed.

(** [time.sleep]: when it returns and how it fails. *)
Lemma time_sleep_cases rejected secs :
  match time_sleep rejected secs with
  | Ok ev => (0 ≤ secs ≤ SLEEP_MAX ∧ rejected = false) ∧ ev = [Sleep secs]
  | Raise x =>
      x = OverflowError ∧ (secs < - SLEEP_MAX ∨ SLEEP_MAX < secs)
      ∨ x = ValueError ∧ - SLEEP_MAX ≤ secs < 0
      ∨ x = OSError ∧ 0 ≤ secs ≤ SLEEP_MAX ∧ rejected = true
  end.
Proof.
  unfold time_sleep.
  destruct (secs <? - SLEEP_MAX) eqn:H1; simpl.
  { apply Z.ltb_lt in H1. left. auto. }
  apply Z.ltb_ge in H1.
  destruct (SLEEP_MAX <? secs) eqn:H2; simpl.
  { apply Z.ltb_lt in H2. left. auto. }
  apply Z.ltb_ge in H2.
  destruct (secs <? 0) eqn:H3.
  { apply Z.ltb_lt in H3. right. left. auto. }
  apply Z.ltb_ge in H3. destruct rejected; [right; right|]; auto.
Qed.

Lemma time_sleep_Ok rejected secs ev :
  time_sleep rejected secs = Ok ev ↔
  (0 ≤ secs ≤ SLEEP_MAX ∧ rejected = false) ∧ ev = [Sleep secs].
Proof.
  pose proof (time_sleep_cases rejected secs) as H. split.
  - intros Heq. rewrite Heq in H. done.
  - intros [[[H0 Hmax] ->] ->]. unfold time_sleep.
    rewrite (proj2 (Z.ltb_ge _ _)) by (unfold SLEEP_MAX in *; lia).
    rewrite (proj2 (Z.ltb_ge _ _) Hmax). simpl.
    by rewrite (proj2 (Z.ltb_ge _ _) H0).
Qed.

(** The four steps of an iteration that ran to its end. *)
Lemma cycle_Ok t self self' evs :
  V2.cycle t self = Ok (self', evs) ↔
  ∃ s1 s2 e2 e3,
    V2.poll (lines t) self = Ok s1
    ∧ V2.compare t s1 = Ok (s2, e2)
    ∧ V2.poweroff t s2 = Ok (self', e3)
    ∧ (0 ≤ V2.polling_interval self' ≤ SLEEP_MAX ∧ sleep_rejected t = false)
    ∧ evs = e2 ++ e3 ++ [Sleep (V2.polling_interval self')].
Proof.
  unfold V2.cycle, V2.sleep. split.
  - destruct (V2.poll (lines t) self) as [s1|]; simpl; [|done].
    destruct (V2.compare t s1) as [[s2 e2]|] eqn:H2; simpl; [|done].
    destruct (V2.poweroff t s2) as [[s3 e3]|] eqn:H3; simpl; [|done].
    destruct (time_sleep (sleep_rejected t) (V2.polling_interval s3)) as [ev|]
      eqn:Hsl; simpl; [|done].
    apply time_sleep_Ok in Hsl as [Hok ->].
    intros ?; simplify_eq. by exists s1, s2, e2, e3.
  - intros (s1 & s2 & e2 & e3 & -> & H2 & H3 & Hok & ->). simpl.
    rewrite H2. simpl. rewrite H3. simpl.
    by rewrite (proj2 (time_sleep_Ok _ _ _) (conj Hok eq_refl)).
Qed.

(** ** A counter line on an example *)

Example counter_line_parses :
  parse_diskstats_line (counter_line "sda" "100" "200") = Ok ("sda", "100", "200").
Proof. reflexivity. Qed.

(** ** C1: the Activity Detector *)

Lemma unchanged1_true (cur prev : gmap string (string * string)) disk :
  V1.unchanged (token_list <$> cur) (token_list <$> prev) disk = true ↔
  ∃ p c, prev !! disk = Some p ∧ cur !! disk = Some c ∧ p = c.
Proof.
  unfold V1.unchanged. rewrite !lookup_fmap, andb_true_iff, !bool_decide_eq_true.
  destruct (cur !! disk) as [[cr cw]|], (prev !! disk) as [[pr pw]|]; simpl; split.
  - intros [[= -> ->] _]. by eexists _, _.
  - by intros (? & ? & [= <-] & [= <-] & [= -> ->]).
  - by intros [[=] _].
  - by intros (? & ? & [=] & _).
  - by intros [_ ?].
  - by intros (? & ? & _ & [=] & _).
  - by intros [_ ?].
  - by intros (? & ? & [=] & _).
Qed.

(** C1. For every device and every pair of snapshot maps, the detector says
    "unchanged" exactly when the previous and the current snapshot both
    exist for the device and hold the same (sectors-read, sectors-written)
    pair; in every other case its verdict is [false], "changed".  This is
    the condition of the first [if] of [compare], in the current version
    and, on the snapshots [poll] writes, in the older one. *)
Theorem activity_detector_classification :
  (∀ (cur prev : gmap string V2.DiskSectors) (disk : string),
     (V2.unchanged cur prev disk = true ↔
        ∃ p c, prev !! disk = Some p ∧ cur !! disk = Some c ∧ tokens p = tokens c)
     ∧ (V2.unchanged cur prev disk = false ↔
          prev !! disk = None ∨ cur !! disk = None
          ∨ ∃ p c, prev !! disk = Some p ∧ cur !! disk = Some c ∧ tokens p ≠ tokens c))
  ∧ (∀ (cur prev : gmap string (string * string)) (disk : string),
       V1.unchanged (token_list <$> cur) (token_list <$> prev) disk = true ↔
         ∃ p c, prev !! disk = Some p ∧ cur !! disk = Some c ∧ p = c).
Proof.
  split; [|apply unchanged1_true].
  intros cur prev disk.
  assert (V2.unchanged cur prev disk = true ↔
            ∃ p c, prev !! disk = Some p ∧ cur !! disk = Some c ∧ tokens p = tokens c)
    as Htrue.
  { rewrite unchanged2_true. unfold tokens.
    split; intros (p & c & ? & ? & H); exists p, c; (split; [done|]); (split; [done|]).
    - destruct H. congruence.
    - by injection H. }
  split; [done|].
  rewrite <- not_true_iff_false, Htrue.
  destruct (prev !! disk) as [p|], (cur !! disk) as [c|]; split; try by auto.
  - intros Hne. right. right. exists p, c. repeat split. intros Heq.
    apply Hne. by exists p, c.
  - intros [?|[?|(p' & c' & ? & ? & Hne)]] (p'' & c'' & ? & ? & Heq); simplify_eq.
  - intros _ (? & ? & _ & ? & _). done.
  - intros _ (? & ? & ? & _). done.
  - intros _ (? & ? & ? & _). done.
Qed.

(** ** C2: the Power Controller *)

(** With the device listed twice, one pass queries it twice. *)
Lemma poweroff_listed_twice_queries_twice :
  "sda" ∈ V2.disks (sda_object ["sda"; "sda"] IDLE)
  ∧ V2.disk_states (sda_object ["sda"; "sda"] IDLE) !! "sda"
    = Some {| V2.state := IDLE; V2.timestamp := 0 |}
  ∧ V2.timeout (sda_object ["sda"; "sda"] IDLE) ≤ 1800 - 0
  ∧ ∃ self' evs,
      V2.poweroff (still_tick [] 1800 2 0) (sda_object ["sda"; "sda"] IDLE)
        = Ok (self', evs)
      ∧ occurrences (smartctl_cmd "sda") evs = 2%nat.
Proof.
  split; [by left|]. split; [done|]. split; [done|].
  eexists _, _. split; [reflexivity|]. by vm_compute.
Qed.

(** C2, amended. For every device that stands once in the tracked list:
    if its state is Idle or PoweredOff and its time-in-state is at least
    the timeout, one pass of [poweroff] starts exactly one standby query
    for it, starts the spin-down command exactly when the query does not
    exit with 2, and leaves it PoweredOff with its timestamp; if it is
    Active, has no record, or its time-in-state is below the timeout, the
    pass starts neither command for it and leaves its record alone.
    The pass itself always runs to its end. *)
Theorem poweroff_device_listed_once (t : Tick) (self : V2.DisksPowerOff)
    (i : nat) (d : string) :
  V2.disks self !! i = Some d →
  d ∉ take i (V2.disks self) → d ∉ drop (S i) (V2.disks self) →
  ∃ self' evs,
    V2.poweroff t self = Ok (self', evs)
    ∧ match V2.disk_states self !! d with
      | Some ds =>
          if decide ((V2.state ds = IDLE ∨ V2.state ds = POWEROFF)
                     ∧ V2.timeout self ≤ now_poweroff t i - V2.timestamp ds)
          then
            occurrences (smartctl_cmd d) evs = 1%nat
            ∧ occurrences (hdparm_cmd d) evs
              = (if decide (smartctl_rc t i = 2) then 0%nat else 1%nat)
            ∧ V2.disk_states self' !! d =
                Some {| V2.state := POWEROFF; V2.timestamp := V2.timestamp ds |}
          else
            occurrences (smartctl_cmd d) evs = 0%nat
            ∧ occurrences (hdparm_cmd d) evs = 0%nat
            ∧ V2.disk_states self' !! d = Some ds
      | None =>
          occurrences (smartctl_cmd d) evs = 0%nat
          ∧ occurrences (hdparm_cmd d) evs = 0%nat
          ∧ V2.disk_states self' !! d = None
      end.
Proof.
  intros Hi Hbefore Hafter.
  destruct (poweroff_total t self) as (self' & evs & Hrun).
  exists self', evs. split; [done|].
  (* the device is met at position i only *)
  assert (∀ j, V2.disks self !! j = Some d → j = i) as Honly.
  { intros j Hj. destruct (Nat.lt_trichotomy j i) as [Hlt|[->|Hgt]]; [|done|].
    - exfalso. apply Hbefore. apply list_elem_of_lookup. exists j.
      by rewrite lookup_take_lt.
    - exfalso. apply Hafter. apply list_elem_of_lookup. exists (j - S i)%nat.
      rewrite lookup_drop. by replace (S i + (j - S i))%nat with j by lia. }
  assert (∀ ds, V2.disk_states self !! d = Some ds →
            eligible2 self (now_poweroff t i) ds = false →
            ¬ touched2 t 0 (V2.disks self) self d) as Hquiet.
  { intros ds Hds Hel (j & ds' & Hj & Hds' & Hel').
    apply Honly in Hj as ->. simpl in Hel'. congruence. }
  pose proof (poweroff_loop _ _ _ _ _ _ Hrun) as (_ & Hrec & Hev).
  assert (¬ touched2 t 0 (V2.disks self) self d →
            occurrences (smartctl_cmd d) evs = 0%nat
            ∧ occurrences (hdparm_cmd d) evs = 0%nat
            ∧ V2.disk_states self' !! d = V2.disk_states self !! d) as Hnone.
  { intros Hnt. rewrite !occurrences_zero. repeat split.
    - intros Hx. destruct (Hev _ Hx) as (d' & [Heq|Heq] & Ht); try done.
      by apply smartctl_cmd_inj in Heq as ->.
    - intros Hx. destruct (Hev _ Hx) as (d' & [Heq|Heq] & Ht); try done.
      by apply hdparm_cmd_inj in Heq as ->.
    - destruct (Hrec d) as [?|[? _]]; done. }
  destruct (V2.disk_states self !! d) as [ds|] eqn:Hds.
  2:{ apply Hnone. intros (? & ? & _ & ? & _). congruence. }
  case_decide as Hc.
  - assert (eligible2 self (now_poweroff t i) ds = true) as Hel.
    { apply eligible2_true. destruct Hc as [[Hs|Hs] ?]; rewrite Hs; done. }
    destruct (poweroff_at _ _ _ _ _ _ _ Hrun Hi Hds Hel)
      as (e1 & l & e3 & -> & _ & Hrec' & H1 & H3).
    destruct (H1 Hbefore) as (_ & Hs1 & Hh1). destruct (H3 Hafter) as [Hs3 Hh3].
    apply occurrences_zero in Hs1, Hh1, Hs3, Hh3.
    rewrite !occurrences_app, Hs1, Hh1, Hs3, Hh3.
    destruct (attempt_events_counts (smartctl_rc t i) (hdparm_rc t i) d l) as [-> ->].
    split; [done|]. split; [|done]. by case_bool_decide; case_decide.
  - apply Hnone. eapply Hquiet; [done|].
    apply not_true_iff_false. rewrite eligible2_true. intros [Hna Hto]. apply Hc.
    split; [|done]. destruct (V2.state ds); auto. done.
Qed.

Lemma poweroff_device_listed_once_example :
  ∃ self' evs,
    V2.poweroff (still_tick [] 1800 2 0) (sda_object ["sdb"; "sda"] IDLE)
      = Ok (self', evs)
    ∧ occurrences (smartctl_cmd "sda") evs = 1%nat
    ∧ occurrences (hdparm_cmd "sda") evs = 0%nat
    ∧ V2.disk_states self' !! "sda" = Some {| V2.state := POWEROFF; V2.timestamp := 0 |}.
Proof.
  destruct (poweroff_device_listed_once
              (still_tick [] 1800 2 0) (sda_object ["sdb"; "sda"] IDLE) 1 "sda")
    as (self' & evs & Hrun & H).
  - reflexivity.
  - simpl. intros [[=]|?%elem_of_nil]%elem_of_cons. done.
  - simpl. apply not_elem_of_nil.
  - exists self', evs. split; [exact Hrun|]. exact H.
Defined.

(** ** C3: repeated idle observations *)

(** An idle device whose timeout has run out leaves the cycle PoweredOff. *)
Lemma idle_cycle_relabels_at_timeout :
  ∃ s1 self' evs,
    V2.poll [counter_line "sda" "100" "200"] (sda_object ["sda"] IDLE) = Ok s1
    ∧ verdict2 s1 "sda" = true
    ∧ V2.cycle (still_tick [counter_line "sda" "100" "200"] 1800 2 0)
        (sda_object ["sda"] IDLE) = Ok (self', evs)
    ∧ V2.disk_states (sda_object ["sda"] IDLE) !! "sda"
      = Some {| V2.state := IDLE; V2.timestamp := 0 |}
    ∧ V2.disk_states self' !! "sda"
      = Some {| V2.state := POWEROFF; V2.timestamp := 0 |}.
Proof.
  eexists _, _, _. split; [reflexivity|]. split; [by vm_compute|].
  split; [reflexivity|]. split; by vm_compute.
Qed.

(** C3, amended. For a device in state Idle or PoweredOff, in a cycle whose
    verdict on it is "unchanged": [compare] leaves its record exactly as it
    was, and the whole cycle leaves its timestamp exactly as it was.  The
    label is as it was after the cycle when the time-in-state is below the
    timeout at every visit of [poweroff]; a visit at which the timeout has
    run out relabels the device PoweredOff. *)
Theorem idle_cycle_keeps_timestamp (t : Tick) (self s1 self' : V2.DisksPowerOff)
    (evs : list Event) (d : string) (ds : V2.DiskState) :
  V2.cycle t self = Ok (self', evs) →
  V2.poll (lines t) self = Ok s1 → verdict2 s1 d = true →
  V2.disk_states self !! d = Some ds →
  V2.state ds = IDLE ∨ V2.state ds = POWEROFF →
  (∃ s2 e2, V2.compare t s1 = Ok (s2, e2) ∧ V2.disk_states s2 !! d = Some ds)
  ∧ ∃ ds', V2.disk_states self' !! d = Some ds'
           ∧ V2.timestamp ds' = V2.timestamp ds
           ∧ ((∀ i, V2.disks self !! i = Some d →
                 now_poweroff t i - V2.timestamp ds < V2.timeout self) →
              V2.state ds' = V2.state ds)
           ∧ (∀ i, V2.disks self !! i = Some d →
                 V2.timeout self ≤ now_poweroff t i - V2.timestamp ds →
                 V2.state ds' = POWEROFF).
Proof.
  intros Hcycle Hpoll Hv Hds Hst.
  apply cycle_Ok in Hcycle as (s1' & s2 & e2 & e3 & Hpoll' & Hcmp & Hoff & _ & _).
  rewrite Hpoll in Hpoll'. injection Hpoll' as <-.
  apply poll_spec in Hpoll as (Hd1 & Ht1 & _ & _ & Hst1 & _).
  assert (V2.state ds ≠ ACTIVE) as Hna by (destruct Hst as [-> | ->]; done).
  (* compare *)
  assert (V2.disk_states s2 !! d = Some ds) as Hds2.
  { destruct (compare_pass _ _ _ _ d Hcmp) as (_ & Hnin & Hfirst).
    destruct (decide (d ∈ V2.disks s1)) as [Hin|Hout].
    - apply first_at_exists in Hin as [i Hi].
      destruct (Hfirst i Hi) as (s' & e' & Hb & ->).
      rewrite (compare_disk_unchanged_idle _ _ _ ds) in Hb; [|done|congruence|done].
      simplify_eq. congruence.
    - rewrite Hnin by done. congruence. }
  split; [by exists s2, e2|].
  destruct (compare_pass _ _ _ _ d Hcmp) as ((Hd2 & Ht2 & _) & _ & _).
  (* poweroff *)
  pose proof (poweroff_loop _ _ _ _ _ _ Hoff) as (_ & Hrec & _).
  destruct (Hrec d) as [Hsame|((j & ds2 & Hj & Hds2' & Hel) & ds2' & Hds2'' & Hnew)].
  - exists ds. rewrite Hsame. split; [done|]. split; [done|]. split; [done|].
    intros i Hi Hto.
    assert (eligible2 s2 (now_poweroff t i) ds = true) as Hel.
    { apply eligible2_true. split; [done|]. by rewrite Ht2, Ht1. }
    rewrite <- Hd1, <- Hd2 in Hi.
    destruct (poweroff_at _ _ _ _ _ _ _ Hoff Hi Hds2 Hel) as (_ & _ & _ & _ & _ & Hp & _).
    rewrite Hsame, Hds2 in Hp. by injection Hp as ->.
  - simplify_eq. eexists. split; [done|]. simpl. split; [done|]. split; [|done].
    intros Hbelow. apply eligible2_true in Hel as [_ Hto].
    rewrite Hd2, Hd1 in Hj. specialize (Hbelow _ Hj).
    rewrite Ht2, Ht1 in Hto. simpl in Hto. lia.
Qed.

Lemma idle_cycle_keeps_timestamp_example :
  ∃ self' evs ds',
    V2.cycle (still_tick [counter_line "sda" "100" "200"] 1799 0 0)
      (sda_object ["sda"] IDLE) = Ok (self', evs)
    ∧ V2.disk_states self' !! "sda" = Some ds'
    ∧ V2.timestamp ds' = 0 ∧ V2.state ds' = IDLE.
Proof.
  pose (self := sda_object ["sda"] IDLE).
  pose (t := still_tick [counter_line "sda" "100" "200"] 1799 0 0).
  destruct (V2.cycle t self) as [[self' evs]|] eqn:Hcycle; [|by vm_compute in Hcycle].
  destruct (V2.poll (lines t) self) as [s1|] eqn:Hpoll; [|by vm_compute in Hpoll].
  assert (verdict2 s1 "sda" = true) as Hv.
  { vm_compute in Hpoll. injection Hpoll as <-. by vm_compute. }
  destruct (idle_cycle_keeps_timestamp t self s1 self' evs "sda"
              {| V2.state := IDLE; V2.timestamp := 0 |} Hcycle Hpoll Hv eq_refl
              (or_introl eq_refl)) as (_ & ds' & Hds' & Hts & Hsame & _).
  exists self', evs, ds'. split; [exact Hcycle|]. split; [exact Hds'|].
  split; [exact Hts|]. apply Hsame. intros [|[|i]]; simpl; [intros _; lia|done..].
Defined.

(** ** C4: a changed verdict *)

(** C4. When the detector reports "changed" for a device, the body of
    [compare] cannot fail on it; a device that is not Active (PoweredOff,
    Idle or without record) becomes Active with the current time as its
    timestamp, and a device that is Active already keeps its record as it
    is.  After a whole pass of [compare] this holds of every tracked
    device, the current time being the clock reading at the first position
    of the device in the tracked list. *)
Theorem changed_verdict_activates (t : Tick) (self : V2.DisksPowerOff) (d : string) :
  verdict2 self d = false →
  (∀ now, ∃ s' e,
     V2.compare_disk now d self = Ok (s', e)
     ∧ V2.disk_states s' !! d = Some (activated now (V2.disk_states self !! d))
     ∧ (∀ ds, V2.disk_states self !! d = Some ds → V2.state ds = ACTIVE →
          s' = self ∧ e = []))
  ∧ (∀ self' evs i,
       V2.compare t self = Ok (self', evs) → first_at d (V2.disks self) i →
       V2.disk_states self' !! d
         = Some (activated (now_compare t i) (V2.disk_states self !! d))).
Proof.
  intros Hv.
  assert (∀ now, ∃ s' e,
            V2.compare_disk now d self = Ok (s', e)
            ∧ V2.disk_states s' !! d = Some (activated now (V2.disk_states self !! d))
            ∧ (∀ ds, V2.disk_states self !! d = Some ds → V2.state ds = ACTIVE →
                 s' = self ∧ e = [])) as Hstep.
  { intros now. unfold activated.
    destruct (V2.disk_states self !! d) as [ds|] eqn:Hds.
    - case_decide as Ha.
      + exists self, []. split; [by eapply compare_disk_changed_active|]. by auto.
      + eexists _, _. split; [apply compare_disk_changed_to_active; [done|]|].
        * intros; congruence.
        * simpl. rewrite lookup_insert_eq. split; [done|]. intros; congruence.
    - eexists _, _. split; [apply compare_disk_changed_to_active; [done|]|].
      + intros; congruence.
      + simpl. rewrite lookup_insert_eq. split; [done|]. intros; congruence. }
  split; [done|].
  intros self' evs i Hrun Hi.
  destruct (compare_pass _ _ _ _ d Hrun) as (_ & _ & Hfirst).
  destruct (Hfirst i Hi) as (s2 & e2 & Hb & ->).
  destruct (Hstep (now_compare t i)) as (s' & e & Hb' & Hrec & _).
  congruence.
Qed.

Lemma changed_verdict_activates_example :
  ∃ s' e,
    V2.compare_disk 77 "sda" (V2.set_diskstats ∅ (sda_object ["sda"] POWEROFF))
      = Ok (s', e)
    ∧ V2.disk_states s' !! "sda" = Some {| V2.state := ACTIVE; V2.timestamp := 77 |}.
Proof.
  assert (verdict2 (V2.set_diskstats ∅ (sda_object ["sda"] POWEROFF)) "sda" = false)
    as Hv by (vm_compute; reflexivity).
  destruct (changed_verdict_activates (still_tick [] 77 0 0)
              (V2.set_diskstats ∅ (sda_object ["sda"] POWEROFF)) "sda" Hv)
    as [Hstep _].
  destruct (Hstep 77) as (s' & e & Hb & Hrec & _).
  exists s', e. split; [exact Hb|exact Hrec].
Defined.

(** ** C5: an unchanged verdict on an active device, or on none *)

(** An unchanged verdict on an active device makes it Idle, now. *)
Lemma unchanged_active_becomes_idle now d s ds :
  verdict2 s d = true → V2.disk_states s !! d = Some ds → V2.state ds = ACTIVE →
  ∃ s' e, V2.compare_disk now d s = Ok (s', e)
          ∧ V2.disk_states s' !! d = Some {| V2.state := IDLE; V2.timestamp := now |}.
Proof.
  intros Hv Hds Ha. eexists _, _.
  split; [by eapply compare_disk_unchanged_active|].
  simpl. by rewrite lookup_insert_eq.
Qed.

(** Out of the order of the loop.  Two calls of [poll] on the same counters
    and no [compare] in between leave a tracked device with equal snapshots
    and no state record.  On that object the current [compare] raises
    [KeyError], and the older [compare] makes the device Idle.  The loop
    calls [compare] after every [poll], and never gets there. *)
Lemma compare_unchanged_without_record_raises :
  (∃ s1 s2,
     V2.poll [counter_line "sda" "100" "200"] (V2.fresh ["sda"] 1800 10) = Ok s1
     ∧ V2.poll [counter_line "sda" "100" "200"] s1 = Ok s2
     ∧ verdict2 s2 "sda" = true ∧ V2.disk_states s2 !! "sda" = None
     ∧ V2.compare_disk 7 "sda" s2 = Raise (KeyError "sda")
     ∧ V2.compare (still_tick [] 7 0 0) s2 = Raise (KeyError "sda"))
  ∧ (∃ s1 s2 s3 e,
       V1.poll [counter_line "sda" "100" "200"] (V1.fresh ["sda"] 1800 5) = Ok s1
       ∧ V1.poll [counter_line "sda" "100" "200"] s1 = Ok s2
       ∧ V1.compare (still_tick [] 7 0 0) s2 = Ok (s3, e)
       ∧ V1.disk_statuses s3 !! "sda" = Some (IDLE, 7)).
Proof.
  split.
  - eexists _, _. split; [reflexivity|]. split; [reflexivity|].
    repeat split; by vm_compute.
  - eexists _, _, _, _. split; [reflexivity|]. split; [reflexivity|].
    split; [reflexivity|]. by vm_compute.
Qed.

(** ** C6: a failing spin-down command *)

Lemma poweroff_frame t self self' evs :
  V2.poweroff t self = Ok (self', evs) → frame2 self self'.
Proof. by intros (? & _)%poweroff_loop. Qed.

(** C6. A spin-down command that exits with a non-zero status is logged as
    an error; the pass of [poweroff] still runs to its end without raising;
    the device is left PoweredOff with its timestamp unchanged.  So on the
    next cycle, if the device is again seen unchanged and the clock has not
    gone back, the test on the timeout holds again and [poweroff] starts
    the standby query again: the retry comes with the next poll, not after
    another timeout. *)
Theorem failed_spin_down_is_retried (t t' : Tick) (self : V2.DisksPowerOff)
    (i : nat) (d : string) (ds : V2.DiskState) :
  V2.disks self !! i = Some d →
  V2.disk_states self !! d = Some ds →
  V2.state ds = IDLE ∨ V2.state ds = POWEROFF →
  V2.timeout self ≤ now_poweroff t i - V2.timestamp ds →
  smartctl_rc t i ≠ 2 → hdparm_rc t i ≠ 0 →
  ∃ self' evs,
    V2.poweroff t self = Ok (self', evs)
    ∧ hdparm_cmd d ∈ evs
    ∧ Syslog LOG_ERR (HdparmFailed d) ∈ evs
    ∧ V2.disk_states self' !! d =
        Some {| V2.state := POWEROFF; V2.timestamp := V2.timestamp ds |}
    ∧ (∀ s1 s2 e2,
         V2.poll (lines t') self' = Ok s1 → verdict2 s1 d = true →
         V2.compare t' s1 = Ok (s2, e2) →
         now_poweroff t i ≤ now_poweroff t' i →
         ∃ s3 e3,
           V2.poweroff t' s2 = Ok (s3, e3)
           ∧ smartctl_cmd d ∈ e3
           ∧ V2.disk_states s3 !! d =
               Some {| V2.state := POWEROFF; V2.timestamp := V2.timestamp ds |}).
Proof.
  intros Hi Hds Hst Hto Hrs Hrh.
  destruct (poweroff_total t self) as (self' & evs & Hrun).
  exists self', evs. split; [done|].
  assert (eligible2 self (now_poweroff t i) ds = true) as Hel.
  { apply eligible2_true. split; [|done]. destruct Hst as [-> | ->]; done. }
  destruct (poweroff_at _ _ _ _ _ _ _ Hrun Hi Hds Hel) as (e1 & l & e3 & -> & _ & Hrec & _).
  assert (∀ x, x ∈ attempt_events (smartctl_rc t i) (hdparm_rc t i) d l →
            x ∈ e1 ++ attempt_events (smartctl_rc t i) (hdparm_rc t i) d l ++ e3) as Hmid.
  { intros x Hx. apply elem_of_app. right. apply elem_of_app. by left. }
  split; [|split; [|split; [done|]]].
  - apply Hmid. unfold attempt_events.
    rewrite (bool_decide_eq_true_2 _ Hrs). apply elem_of_app. right.
    apply elem_of_app. left. by left.
  - apply Hmid. unfold attempt_events.
    rewrite (bool_decide_eq_true_2 _ Hrs), (bool_decide_eq_true_2 _ Hrh).
    apply elem_of_app. right. apply elem_of_app. left. right. by left.
  - (* the next cycle *)
    intros s1 s2 e2 Hpoll Hv Hcmp Hclock.
    pose proof (poweroff_frame _ _ _ _ Hrun) as (Hd0 & Ht0 & _).
    apply poll_spec in Hpoll as (Hd1 & Ht1 & _ & _ & Hst1 & _).
    destruct (compare_pass _ _ _ _ d Hcmp) as ((Hd2 & Ht2 & _) & _ & Hfirst).
    assert (d ∈ V2.disks s1) as Hin.
    { rewrite Hd1, Hd0. by eapply list_elem_of_lookup_2. }
    apply first_at_exists in Hin as [j Hj].
    destruct (Hfirst j Hj) as (s' & e' & Hb & Hrec2).
    rewrite (compare_disk_unchanged_idle _ _ _
               {| V2.state := POWEROFF; V2.timestamp := V2.timestamp ds |}) in Hb;
      [|done|congruence|done].
    simplify_eq. rewrite Hst1, Hrec in Hrec2.
    destruct (poweroff_total t' s2) as (s3 & e3' & Hrun').
    exists s3, e3'. split; [done|].
    assert (eligible2 s2 (now_poweroff t' i)
              {| V2.state := POWEROFF; V2.timestamp := V2.timestamp ds |} = true) as Hel'.
    { apply eligible2_true. simpl. split; [done|]. rewrite Ht2, Ht1, Ht0. lia. }
    assert (V2.disks s2 !! i = Some d) as Hi' by by rewrite Hd2, Hd1, Hd0.
    destruct (poweroff_at _ _ _ _ _ _ _ Hrun' Hi' Hrec2 Hel')
      as (f1 & l' & f3 & -> & _ & Hrec3 & _).
    split; [|done]. apply elem_of_app. right. apply elem_of_app. left.
    unfold attempt_events. apply elem_of_app. left. by left.
Qed.

Lemma failed_spin_down_is_retried_example :
  ∃ self' evs,
    V2.poweroff (still_tick [] 1800 0 1) (sda_object ["sda"] IDLE) = Ok (self', evs)
    ∧ Syslog LOG_ERR (HdparmFailed "sda") ∈ evs
    ∧ V2.disk_states self' !! "sda" = Some {| V2.state := POWEROFF; V2.timestamp := 0 |}.
Proof.
  assert (V2.disk_states (sda_object ["sda"] IDLE) !! "sda"
          = Some {| V2.state := IDLE; V2.timestamp := 0 |}) as Hds
    by (vm_compute; reflexivity).
  destruct (failed_spin_down_is_retried
              (still_tick [] 1800 0 1) (still_tick [] 1810 0 1)
              (sda_object ["sda"] IDLE) 0 "sda" _ eq_refl Hds (or_introl eq_refl))
    as (self' & evs & Hrun & _ & Herr & Hrec & _).
  - simpl. lia.
  - simpl. lia.
  - simpl. lia.
  - exists self', evs. split; [exact Hrun|]. split; [exact Herr|exact Hrec].
Defined.

(** ** C7: a malformed counter line *)

(** A short first line: [poll] raises, the loop of [run] ends with the
    exception, and the well-formed second line leaves no record. *)
Lemma malformed_line_aborts_poll :
  (length (diskstats_fields "8 0 sda 1 2 3") < 10)%nat
  ∧ parse_diskstats_line (counter_line "sda" "100" "200") = Ok ("sda", "100", "200")
  ∧ V2.poll ["8 0 sda 1 2 3"; counter_line "sda" "100" "200"]
      (V2.fresh ["sda"] 1800 10) = Raise IndexError
  ∧ V2.run [still_tick ["8 0 sda 1 2 3"; counter_line "sda" "100" "200"] 0 0 0]
      (V2.fresh ["sda"] 1800 10) = Raise IndexError
  ∧ ¬ ∃ self', V2.poll ["8 0 sda 1 2 3"; counter_line "sda" "100" "200"]
                 (V2.fresh ["sda"] 1800 10) = Ok self'
               ∧ is_Some (V2.diskstats self' !! "sda").
Proof.
  split; [vm_compute; lia|]. repeat split; try reflexivity.
  intros (self' & Hpoll & _). vm_compute in Hpoll. discriminate.
Qed.

(** C7, amended. A line with fewer than ten fields makes the parser raise
    [IndexError]; [poll] does not catch it and neither does [run], so the
    cycle is aborted, the daemon ends, and no line of that reading produces
    a record.  When every line has at least ten fields, [poll] runs to its
    end and every tracked device named on some line has a snapshot. *)
Theorem poll_runs_or_raises (t : Tick) (ts : list Tick) (self : V2.DisksPowerOff) :
  (Forall (λ line, (10 ≤ length (diskstats_fields line))%nat) (lines t)
   ∧ ∃ self', V2.poll (lines t) self = Ok self'
              ∧ ∀ line d r w, line ∈ lines t →
                  parse_diskstats_line line = Ok (d, r, w) →
                  d ∈ V2.disks self → is_Some (V2.diskstats self' !! d))
  ∨ (Exists (λ line, (length (diskstats_fields line) < 10)%nat) (lines t)
     ∧ V2.poll (lines t) self = Raise IndexError
     ∧ V2.cycle t self = Raise IndexError
     ∧ V2.run (t :: ts) self = Raise IndexError).
Proof.
  unfold V2.poll.
  destruct (poll_lines_result (lines t)
              (V2.set_diskstats ∅ (V2.set_diskstats_prev (V2.diskstats self) self)))
    as [[Hall [self' Hok]]|[Hex Hraise]].
  - left. split; [done|]. exists self'. split; [done|].
    apply poll_lines_spec in Hok as (_ & _ & _ & _ & _ & _ & Hrec).
    intros line d r w Hl Hp Hd. by eapply Hrec.
  - right. split; [done|]. split; [done|].
    assert (V2.cycle t self = Raise IndexError) as Hc.
    { unfold V2.cycle, V2.poll. by rewrite Hraise. }
    split; [done|]. simpl. by rewrite Hc.
Qed.

(** ** C8: the tracked devices *)

(** [compare] starts no command. *)
Lemma compare_no_command t self self' evs :
  V2.compare t self = Ok (self', evs) → commands evs = [].
Proof.
  unfold V2.compare. intros Hrun.
  eapply (for_each_rel _ (λ _ e _, commands e = [])) in Hrun; [done|done| |].
  - intros _ e1 _ e2 _ H1 H2. unfold commands in *. by rewrite filter_app, H1, H2.
  - intros j x a b e _ Hb. pose proof (compare_disk_cases (now_compare t j) x a) as H.
    simpl in Hb. rewrite Hb in H. by destruct H as (_ & [[_ ->]|(l & _ & -> & _)] & _).
Qed.

Lemma commands_elem_of x evs : is_Popen x = true → x ∈ evs → x ∈ commands evs.
Proof. intros Hp Hx. unfold commands. by apply list_elem_of_filter. Qed.

(** One cycle leaves an untracked device without snapshot and command. *)
Lemma cycle_untracked t self self' evs d :
  V2.cycle t self = Ok (self', evs) →
  d ∉ V2.disks self → V2.diskstats self !! d = None →
  V2.disks self' = V2.disks self
  ∧ V2.diskstats self' !! d = None ∧ V2.diskstats_prev self' !! d = None
  ∧ (smartctl_cmd d ∉ evs) ∧ (hdparm_cmd d ∉ evs).
Proof.
  intros (s1 & s2 & e2 & e3 & Hpoll & Hcmp & Hoff & _ & ->)%cycle_Ok Hnin Hnone.
  apply poll_spec in Hpoll as (Hd1 & _ & _ & Hprev1 & _ & Hkeys).
  destruct (compare_pass _ _ _ _ d Hcmp) as ((Hd2 & _ & _ & Hc2 & Hp2) & _).
  pose proof (poweroff_frame _ _ _ _ Hoff) as (Hd3 & _ & _ & Hc3 & Hp3).
  assert (V2.diskstats s1 !! d = None) as Hs1.
  { apply eq_None_not_Some. intros ?%Hkeys. done. }
  split; [congruence|]. split; [congruence|]. split; [congruence|].
  unfold V2.poweroff in Hoff.
  apply (poweroff_loop_absent _ _ _ _ _ _ d) in Hoff as (_ & Hq & Hh); [|congruence].
  pose proof (compare_no_command _ _ _ _ Hcmp) as Hnc.
  split; intros [Hx|[Hx|Hx]%elem_of_app]%elem_of_app; try done.
  - apply commands_elem_of in Hx; [|done]. rewrite Hnc in Hx. by apply elem_of_nil in Hx.
  - by apply list_elem_of_singleton in Hx.
  - apply commands_elem_of in Hx; [|done]. rewrite Hnc in Hx. by apply elem_of_nil in Hx.
  - by apply list_elem_of_singleton in Hx.
Qed.

Lemma run_untracked ts : ∀ self self' evs d,
  V2.run ts self = Ok (self', evs) →
  d ∉ V2.disks self → V2.diskstats self !! d = None →
  V2.diskstats_prev self !! d = None →
  V2.diskstats self' !! d = None ∧ V2.diskstats_prev self' !! d = None
  ∧ (smartctl_cmd d ∉ evs) ∧ (hdparm_cmd d ∉ evs).
Proof.
  induction ts as [|t ts IH]; intros self self' evs d; simpl.
  - intros [= <- <-] _ ? ?. repeat split; try done; apply not_elem_of_nil.
  - destruct (V2.cycle t self) as [[s1 e1]|] eqn:Hc; simpl; [|done].
    destruct (V2.run ts s1) as [[s2 e2]|] eqn:Hr; simpl; [|done].
    intros ? Hnin Hcur Hprev; simplify_eq.
    destruct (cycle_untracked _ _ _ _ d Hc Hnin Hcur) as (Hd & Hc1 & Hp1 & Hq1 & Hh1).
    destruct (IH _ _ _ d Hr) as (? & ? & Hq2 & Hh2); [congruence|done..|].
    repeat split; try done; rewrite elem_of_app; intros [?|?]; done.
Qed.

(** What [__init__] computes when it runs to its end. *)
Lemma init_Ok int (config : Config) listing self evs :
  V2.init int config listing = Ok (self, evs) →
  ∃ section,
    config !! PROGRAM_NAME = Some section
    ∧ V2.disks self =
        filter (λ disk, disk ∈ filter (λ dev, is_disk_name dev = true) listing)
          (normalize_name <$>
             match section !! DEVICES with
             | Some value => Py.split "," (Py.strip value)
             | None => filter (λ dev, is_disk_name dev = true) listing
             end)
    ∧ V2.timeout self = (V2.numeric_option int section TIMEOUT "1800" 1800).1
    ∧ V2.polling_interval self
      = (V2.numeric_option int section POLLING_INTERVAL "10" 10).1
    ∧ V2.diskstats self = ∅ ∧ V2.diskstats_prev self = ∅ ∧ V2.disk_states self = ∅.
Proof.
  unfold V2.init, dict_getitem.
  destruct (config !! PROGRAM_NAME) as [section|] eqn:Hsec; simpl.
  2:{ intros ?; discriminate. }
  exists section. split; [done|].
  destruct (section !! DEVICES) as [value|] eqn:Hdev; simpl in *;
    destruct (V2.numeric_option int section TIMEOUT "1800" V2.DEFAULT_TIMEOUT)
      as [timeout ev3] eqn:Ht;
    destruct (V2.numeric_option int section POLLING_INTERVAL "10"
                V2.DEFAULT_POLLING_INTERVAL) as [interval ev4] eqn:Hp;
    unfold V2.DEFAULT_TIMEOUT, V2.DEFAULT_POLLING_INTERVAL in *;
    simplify_eq; simpl; by rewrite ?Ht, ?Hp.
Qed.

(** C8. The tracked list that [__init__] resolves holds exactly the
    configured names, each normalized, that are among the enumerated
    devices and match [[sh]d[a-z]]; in particular a configured device that
    is not enumerated is left out.  A device that is not tracked never
    gets a snapshot and never has a query or spin-down command started for
    it, however long the loop runs. *)
Theorem tracked_devices (int : string → option Z) (config : Config)
    (listing : list string) (section : gmap string string) (value : string)
    (self : V2.DisksPowerOff) (evs : list Event) :
  config !! PROGRAM_NAME = Some section → section !! DEVICES = Some value →
  V2.init int config listing = Ok (self, evs) →
  (∀ d, d ∈ V2.disks self ↔
        d ∈ normalize_name <$> Py.split "," (Py.strip value)
        ∧ d ∈ listing ∧ is_disk_name d = true)
  ∧ (∀ d, d ∉ listing → d ∉ V2.disks self)
  ∧ (∀ d ts self' evs',
       d ∉ V2.disks self → V2.run ts self = Ok (self', evs') →
       V2.diskstats self' !! d = None ∧ V2.diskstats_prev self' !! d = None
       ∧ (smartctl_cmd d ∉ evs') ∧ (hdparm_cmd d ∉ evs')).
Proof.
  intros Hsec Hdev (section' & Hsec' & Hdisks & _ & _ & Hcur & Hprev & _)%init_Ok.
  rewrite Hsec in Hsec'. injection Hsec' as <-. rewrite Hdev in Hdisks.
  assert (∀ d, d ∈ V2.disks self ↔
            d ∈ normalize_name <$> Py.split "," (Py.strip value)
            ∧ d ∈ listing ∧ is_disk_name d = true) as Hiff.
  { intros d. rewrite Hdisks, !list_elem_of_filter. tauto. }
  split; [done|]. split.
  - intros d Hnl Hd. apply Hiff in Hd. tauto.
  - intros d ts self' evs' Hnin Hrun.
    eapply run_untracked; [done..| |]; [by rewrite Hcur|by rewrite Hprev].
Qed.

Lemma tracked_devices_example :
  ∃ self evs,
    V2.init decimal ({[ PROGRAM_NAME := {[ DEVICES := " sda, /dev/sdb ,sdc" ]} ]} : Config)
      ["tty0"; "sda"; "sda1"; "sdb"] = Ok (self, evs)
    ∧ V2.disks self = ["sda"; "sdb"]
    ∧ "sdc" ∉ V2.disks self.
Proof.
  pose (config := ({[ PROGRAM_NAME := {[ DEVICES := " sda, /dev/sdb ,sdc" ]} ]} : Config)).
  pose (listing := ["tty0"; "sda"; "sda1"; "sdb"]).
  destruct (V2.init decimal config listing) as [[self evs]|] eqn:Hinit;
    [|by vm_compute in Hinit].
  assert (config !! PROGRAM_NAME = Some {[ DEVICES := " sda, /dev/sdb ,sdc" ]}) as Hsec
    by (vm_compute; reflexivity).
  assert (({[ DEVICES := " sda, /dev/sdb ,sdc" ]} : gmap string string) !! DEVICES
          = Some " sda, /dev/sdb ,sdc") as Hdev by (vm_compute; reflexivity).
  destruct (tracked_devices decimal config listing _ _ self evs Hsec Hdev Hinit)
    as (_ & Habsent & _).
  exists self, evs. split; [exact Hinit|]. split.
  - vm_compute in Hinit. injection Hinit as <- _. reflexivity.
  - apply Habsent. subst listing. intros Hin.
    repeat (apply elem_of_cons in Hin as [[=]|Hin]). by apply elem_of_nil in Hin.
Defined.

(** ** C9: numeric options that are not integers *)

Example decimal_1800 : decimal "1800" = Some 1800.
Proof. reflexivity. Qed.

Example decimal_abc : decimal "abc" = None.
Proof. reflexivity. Qed.




(** The older version differs in one constant: its interval falls back to 5. *)
Lemma older_version_fallbacks int (config : Config) listing section :
  config !! PROGRAM_NAME = Some section →
  ∃ self evs,
    V1.init int config listing = Ok (self, evs)
    ∧ (∀ value, section !! TIMEOUT = Some value → int value = None →
         V1.timeout self = 1800)
    ∧ (∀ value, section !! POLLING_INTERVAL = Some value → int value = None →
         V1.polling_interval self = 5).
Proof.
  intros Hsec. unfold V1.init, dict_getitem. rewrite Hsec. simpl.
  destruct (match section !! DEVICES with Some _ => _ | None => _ end)
    as [disks0 ev1].
  destruct (V1.numeric_option int section TIMEOUT "1800" 1800)
    as [timeout ev3] eqn:Ht.
  destruct (V1.numeric_option int section POLLING_INTERVAL "5" 5)
    as [interval ev4] eqn:Hp.
  eexists _, _. split; [done|]. simpl.
  unfold V1.numeric_option in Ht, Hp.
  split; intros value Hv Hint.
  - rewrite Hv in Ht. simpl in Ht. rewrite Hint in Ht. by injection Ht.
  - rewrite Hv in Hp. simpl in Hp. rewrite Hint in Hp. by injection Hp.
Qed.

(** ** C10: the two versions side by side *)

Lemma states_rel_insert m1 m2 d st ds :
  states_rel m1 m2 → status_rel st ds →
  states_rel (<[d := st]> m1) (<[d := ds]> m2).
Proof.
  intros Hrel Hst d'. destruct (decide (d = d')) as [->|Hne].
  - by rewrite !lookup_insert_eq.
  - rewrite !lookup_insert_ne by done. apply Hrel.
Qed.

Lemma states_rel_refresh m1 m2 d ds now :
  states_rel m1 m2 → m2 !! d = Some ds → V2.state ds = ACTIVE →
  states_rel (<[d := (ACTIVE, now)]> m1) m2.
Proof.
  intros Hrel Hds Ha d'. destruct (decide (d = d')) as [->|Hne].
  - rewrite lookup_insert_eq, Hds. by split.
  - rewrite lookup_insert_ne by done. apply Hrel.
Qed.

Lemma unchanged_agree (cur prev : gmap string V2.DiskSectors) d :
  V1.unchanged (sectors_list <$> cur) (sectors_list <$> prev) d
  = V2.unchanged cur prev d.
Proof.
  unfold V1.unchanged, V2.unchanged, V2.DiskSectors_eq. rewrite !lookup_fmap.
  destruct (cur !! d) as [[cr cw]|], (prev !! d) as [[pr pw]|]; simpl;
    unfold sectors_list; simpl; repeat case_bool_decide; simplify_eq; done.
Qed.

Lemma status_label_rel s1 s2 d :
  states_rel (V1.disk_statuses s1) (V2.disk_states s2) →
  V1.status_label s1 d = V2.state <$> V2.disk_states s2 !! d.
Proof.
  intros Hrel. unfold V1.status_label. specialize (Hrel d).
  destruct (V1.disk_statuses s1 !! d) as [[l ts]|], (V2.disk_states s2 !! d) as [ds|];
    simpl; try done. destruct Hrel as [Hl _]. simpl in Hl. by rewrite Hl.
Qed.

(** The bodies of the two [compare] loops stay in step. *)
Lemma compare_disk_sim now d s1 s2 :
  sim s1 s2 ∧ prev_recorded s2 →
  ∃ s1' e1 s2' e2,
    V1.compare_disk now d s1 = Ok (s1', e1) ∧ V2.compare_disk now d s2 = Ok (s2', e2)
    ∧ (sim s1' s2' ∧ prev_recorded s2') ∧ commands e1 = commands e2.
Proof.
  intros [(Hd & Ht & Hpi & Hcur & Hprev & Hrel) Hinv].
  pose proof (status_label_rel s1 s2 d Hrel) as Hlab.
  pose proof (compare_disk_cases now d s2) as Hcases.
  unfold V1.compare_disk. rewrite Hcur, Hprev, unchanged_agree. fold (verdict2 s2 d).
  rewrite Hlab.
  destruct (V2.compare_disk now d s2) as [[s2' e2]|x] eqn:Hrun.
  2:{ exfalso. destruct Hcases as (_ & Hv & Hnone).
      apply unchanged2_true in Hv as (p & _ & Hp & _).
      destruct (Hinv d) as [? ?]; [by eexists|congruence]. }
  destruct Hcases as (Hf & Hchg & ds' & Hds' & Hiff).
  assert (prev_recorded s2') as Hinv'.
  { intros d' Hd'. destruct Hf as (_ & _ & _ & _ & Hp'). rewrite Hp' in Hd'.
    destruct Hchg as [[-> _]|(l & -> & _)]; [by apply Hinv|].
    destruct (decide (d = d')) as [->|]; [by rewrite lookup_insert_eq|].
    rewrite lookup_insert_ne by done. by apply Hinv. }
  assert (commands e2 = []) as Hnc.
  { by destruct Hchg as [[_ ->]|(l & _ & -> & _)]. }
  destruct Hf as (Hd' & Ht' & Hpi' & Hcur' & Hprev').
  destruct (verdict2 s2 d) eqn:Hv.
  - (* unchanged *)
    destruct (V2.disk_states s2 !! d) as [ds|] eqn:Hds.
    2:{ rewrite compare_disk_unchanged_no_record in Hrun by done. done. }
    simpl. destruct (decide (V2.state ds = ACTIVE)) as [Ha|Hna].
    + rewrite (compare_disk_unchanged_active _ _ _ ds) in Hrun by done.
      simplify_eq. rewrite Ha. simpl. eexists _, _, _, _.
      split; [done|]. split; [done|]. split; [|done]. split; [|done].
      repeat split; simpl; try done. by apply states_rel_insert.
    + rewrite (compare_disk_unchanged_idle _ _ _ ds) in Hrun by done.
      simplify_eq.
      assert (bool_decide (Some (V2.state ds) ≠ Some IDLE)
              && bool_decide (Some (V2.state ds) ≠ Some POWEROFF) = false) as ->.
      { destruct (V2.state ds); [done|..]; by repeat case_bool_decide. }
      eexists _, _, _, _. split; [done|]. split; [done|]. split; [|done].
      split; [|done]. by repeat split.
  - (* changed *)
    eexists _, _, _, _. split; [done|]. split; [done|]. split; [|done].
    split; [|done].
    assert (states_rel
              (<[d := (ACTIVE, now)]>
                 (V1.disk_statuses
                    (if bool_decide (V2.state <$> V2.disk_states s2 !! d ≠ Some ACTIVE)
                     then V1.set_dump_log true s1 else s1)))
              (V2.disk_states s2')) as Hrel'.
    { assert (∀ b, V1.disk_statuses (if b : bool then V1.set_dump_log true s1 else s1)
                   = V1.disk_statuses s1) as -> by by intros [].
      destruct Hchg as [[-> _]|(l & -> & _ & ->)].
      - apply (states_rel_refresh _ _ _ ds'); [done..|]. by apply Hiff.
      - by apply states_rel_insert. }
    case_bool_decide; repeat split; simpl; try done; congruence.
Qed.

(** The commands of an attempt are the query and, unless the query exits
    with 2, the spin-down command; the older version starts the same. *)
Lemma attempt_events_same_commands rs rh d l :
  commands
    ([smartctl_cmd d]
     ++ (if bool_decide (rs ≠ 2) then
           hdparm_cmd d ::
           (if bool_decide (rh ≠ 0) then [Syslog LOG_ERR (HdparmFailed d)] else [])
         else []))
  = commands (attempt_events rs rh d l).
Proof. unfold attempt_events. by repeat case_bool_decide. Qed.

(** The bodies of the two [poweroff] loops stay in step. *)
Lemma poweroff_disk_sim (Q : V2.DisksPowerOff → Prop) now rs rh d s1 s2 :
  (∀ m, Q s2 →
        (∀ d', is_Some (V2.disk_states s2 !! d') → is_Some (m !! d')) →
        Q (V2.set_disk_states m s2)) →
  sim s1 s2 ∧ Q s2 →
  ∃ s1' e1 s2' e2,
    V1.poweroff_disk now rs rh d s1 = Ok (s1', e1)
    ∧ V2.poweroff_disk now rs rh d s2 = Ok (s2', e2)
    ∧ (sim s1' s2' ∧ Q s2') ∧ commands e1 = commands e2.
Proof.
  intros HQ [(Hd & Ht & Hpi & Hcur & Hprev & Hrel) Hq].
  rewrite poweroff_disk_eq. unfold V1.poweroff_disk, eligible2, dict_getitem.
  pose proof (Hrel d) as Hreld. rewrite Ht.
  destruct (V1.disk_statuses s1 !! d) as [[l ts]|] eqn:Hst,
           (V2.disk_states s2 !! d) as [ds|] eqn:Hds; try done; simpl.
  2:{ eexists _, _, _, _. by repeat split. }
  destruct Hreld as [Hl Hts]. simpl in Hl, Hts. subst l.
  destruct (decide (V2.state ds = ACTIVE)) as [Ha|Hna].
  { rewrite Ha. simpl. eexists _, _, _, _. by repeat split. }
  rewrite (Hts Hna).
  destruct ((bool_decide (V2.state ds = IDLE) || bool_decide (V2.state ds = POWEROFF))
            && (V2.timeout s2 <=? now - V2.timestamp ds)) eqn:Hc.
  2:{ eexists _, _, _, _. by repeat split. }
  assert (Q (V2.set_disk_states
               (<[d := {| V2.state := POWEROFF; V2.timestamp := V2.timestamp ds |}]>
                  (V2.disk_states s2)) s2)) as Hq'.
  { apply HQ; [done|]. intros d' Hd'.
    destruct (decide (d = d')) as [->|]; [by rewrite lookup_insert_eq|].
    by rewrite lookup_insert_ne. }
  destruct (bool_decide (V2.state ds ≠ POWEROFF)) eqn:Hlog; simpl;
    rewrite Hst; simpl; eexists _, _, _, _;
    (split; [done|]); (split; [done|]);
    (split; [|unfold attempt_events; rewrite Hlog; by repeat case_bool_decide]);
    (split; [|done]); repeat split; simpl; try done;
    (apply states_rel_insert; [done|]); split; simpl; auto.
Qed.

(** The two [poll]s stay in step, a raise included. *)
Lemma poll_lines_sim ls : ∀ s1 s2,
  sim s1 s2 →
  match V1.poll_lines ls s1, V2.poll_lines ls s2 with
  | Ok s1', Ok s2' => sim s1' s2'
  | Raise x1, Raise x2 => x1 = x2
  | _, _ => False
  end.
Proof.
  induction ls as [|line ls IH]; intros s1 s2 Hsim; simpl; [done|].
  unfold V1.poll_line, V2.poll_line.
  destruct (parse_diskstats_line line) as [[[name r] w]|x]; simpl; [|done].
  destruct Hsim as (Hd & Ht & Hpi & Hcur & Hprev & Hrel). rewrite Hd.
  case_bool_decide; simpl; apply IH; repeat split; simpl; try done.
  rewrite Hcur. by rewrite fmap_insert.
Qed.

Lemma poll_sim ls s1 s2 :
  sim s1 s2 →
  match V1.poll ls s1, V2.poll ls s2 with
  | Ok s1', Ok s2' => sim s1' s2'
  | Raise x1, Raise x2 => x1 = x2
  | _, _ => False
  end.
Proof.
  intros (Hd & Ht & Hpi & Hcur & Hprev & Hrel). unfold V1.poll, V2.poll.
  apply poll_lines_sim. repeat split; simpl; by rewrite ?fmap_empty.
Qed.

(** After [compare] every tracked device has a record. *)
Lemma compare_records_all t s s' e d :
  V2.compare t s = Ok (s', e) → d ∈ V2.disks s → is_Some (V2.disk_states s' !! d).
Proof.
  intros Hrun [i Hi]%first_at_exists.
  destruct (compare_pass _ _ _ _ d Hrun) as (_ & _ & Hfirst).
  destruct (Hfirst i Hi) as (s2 & e2 & Hb & ->).
  apply compare_disk_settles in Hb as (ds & -> & _). by eexists.
Qed.

Lemma commands_app e1 e2 : commands (e1 ++ e2) = commands e1 ++ commands e2.
Proof. unfold commands. by rewrite filter_app. Qed.

(** One iteration of the two loops. *)
Lemma cycle_sim t s1 s2 :
  sim s1 s2 → cur_recorded s2 → agree (V1.cycle t s1) (V2.cycle t s2).
Proof.
  intros Hsim Hrec. unfold agree, V1.cycle, V2.cycle.
  pose proof (poll_sim (lines t) s1 s2 Hsim) as Hpoll.
  destruct (V1.poll (lines t) s1) as [a1|x1], (V2.poll (lines t) s2) as [a2|x2] eqn:Hp2;
    try done; simpl.
  apply poll_spec in Hp2 as (Hd2 & _ & _ & Hprev2 & Hst2 & Hkeys).
  (* compare *)
  assert (prev_recorded a2) as Hinv.
  { intros d. rewrite Hprev2, Hst2. apply Hrec. }
  pose proof Hpoll as (Hda & _).
  destruct (for_each_sim
              (λ i, V1.compare_disk (now_compare t i))
              (λ i, V2.compare_disk (now_compare t i))
              (λ a b, sim a b ∧ prev_recorded b) (V2.disks a2)
              (λ i d a b, compare_disk_sim (now_compare t i) d a b)
              0%nat a1 a2 (conj Hpoll Hinv))
    as (b1 & f1 & b2 & f2 & Hc1 & Hc2 & [Hsimb _] & Hcmd).
  unfold V1.compare, V2.compare. rewrite Hda, Hc1, Hc2. simpl.
  pose proof (compare_pass _ _ _ _ "" Hc2) as ((Hdb & _ & _ & Hcurb & _) & _).
  (* poweroff *)
  pose proof Hsimb as (Hdb1 & _).
  destruct (for_each_sim
              (λ i, V1.poweroff_disk (now_poweroff t i) (smartctl_rc t i) (hdparm_rc t i))
              (λ i, V2.poweroff_disk (now_poweroff t i) (smartctl_rc t i) (hdparm_rc t i))
              (λ a b, sim a b
                      ∧ ∀ d, d ∈ V2.disks a2 → is_Some (V2.disk_states b !! d))
              (V2.disks b2)) with (k := 0%nat) (s1 := b1) (s2 := b2)
    as (c1 & g1 & c2 & g2 & Hp1 & Hp2 & [Hsimc Hall] & Hcmd').
  { intros i d a b.
    apply (poweroff_disk_sim
             (λ b, ∀ d, d ∈ V2.disks a2 → is_Some (V2.disk_states b !! d))).
    intros m Hq Hm d' Hd'. simpl. apply Hm. by apply Hq. }
  { split; [done|]. intros d Hd. eapply compare_records_all; [done|].
    done. }
  unfold V1.poweroff, V2.poweroff. rewrite Hdb1, Hp1, Hp2. simpl.
  pose proof (poweroff_frame t b2 c2 g2 Hp2) as (_ & _ & _ & Hcurc & _).
  (* dump and sleep *)
  assert (∃ c1' h1, V1.dump c1 = (c1', h1) ∧ sim c1' c2 ∧ commands h1 = [])
    as (c1' & h1 & -> & Hsimd & Hh1).
  { unfold V1.dump. destruct (V1.dump_log c1); eexists _, _; (split; [done|]);
      split; try done; by destruct Hsimc as (? & ? & ? & ? & ? & ?). }
  pose proof Hsimd as (_ & _ & Hpid & _).
  unfold V1.sleep, V2.sleep. rewrite Hpid.
  destruct (time_sleep (sleep_rejected t) (V2.polling_interval c2)) as [ev|] eqn:Hsl;
    simpl; [|done].
  apply time_sleep_Ok in Hsl as [_ ->].
  split; [done|]. split.
  - intros d Hd. apply Hall. rewrite Hd2. apply Hkeys.
    by rewrite <- Hcurb, <- Hcurc.
  - rewrite !commands_app, Hcmd, Hcmd', Hh1. done.
Qed.

(** Any number of iterations of the two loops. *)
Lemma run_sim ts : ∀ s1 s2,
  sim s1 s2 → cur_recorded s2 → agree (V1.run ts s1) (V2.run ts s2).
Proof.
  induction ts as [|t ts IH]; intros s1 s2 Hsim Hrec; simpl; [done|].
  pose proof (cycle_sim t s1 s2 Hsim Hrec) as Hc. unfold agree in Hc.
  destruct (V1.cycle t s1) as [[a1 e1]|x1], (V2.cycle t s2) as [[a2 e2]|x2];
    try done; simpl.
  destruct Hc as (Hsim' & Hrec' & Hcmd).
  pose proof (IH a1 a2 Hsim' Hrec') as Hr. unfold agree in *.
  destruct (V1.run ts a1) as [[b1 f1]|y1], (V2.run ts a2) as [[b2 f2]|y2];
    try done; simpl.
  destruct Hr as (? & ? & Hcmd'). split; [done|]. split; [done|].
  change (commands (e1 ++ f1) = commands (e2 ++ f2)).
  by rewrite !commands_app, Hcmd, Hcmd'.
Qed.

Lemma fresh_sim ds timeout interval :
  sim (V1.fresh ds timeout interval) (V2.fresh ds timeout interval)
  ∧ cur_recorded (V2.fresh ds timeout interval).
Proof.
  split.
  - repeat split; simpl; rewrite ?fmap_empty; try done.
  - intros d [? Hd]. simpl in Hd. by rewrite lookup_empty in Hd.
Qed.

(** C10. Started on the same tracked list and timeout and fed the same
    counter lines, clock readings and exit statuses, the two versions
    either both end with the same exception or, after any number of
    cycles, have started the same external commands in the same order,
    hold the same label for every device and the same snapshots, and hold
    the same timestamp for every device that is not ACTIVE.  Only the
    timestamp of an ACTIVE device may differ. *)
Theorem versions_agree (ds : list string) (timeout interval : Z) (ts : list Tick) :
  match V1.run ts (V1.fresh ds timeout interval),
        V2.run ts (V2.fresh ds timeout interval) with
  | Ok (s1, e1), Ok (s2, e2) =>
      commands e1 = commands e2
      ∧ (∀ d, V1.status_label s1 d = V2.state <$> V2.disk_states s2 !! d)
      ∧ (∀ d l since, V1.disk_statuses s1 !! d = Some (l, since) → l ≠ ACTIVE →
           V2.disk_states s2 !! d = Some {| V2.state := l; V2.timestamp := since |})
      ∧ V1.diskstats s1 = sectors_list <$> V2.diskstats s2
      ∧ V1.diskstats_prev s1 = sectors_list <$> V2.diskstats_prev s2
      ∧ V1.disks s1 = V2.disks s2 ∧ V1.timeout s1 = V2.timeout s2
  | Raise x1, Raise x2 => x1 = x2
  | _, _ => False
  end.
Proof.
  destruct (fresh_sim ds timeout interval) as [Hsim Hrec].
  pose proof (run_sim ts _ _ Hsim Hrec) as H. unfold agree in H.
  destruct (V1.run ts _) as [[s1 e1]|x1], (V2.run ts _) as [[s2 e2]|x2]; try done.
  destruct H as ((Hd & Ht & _ & Hcur & Hprev & Hrel) & _ & Hcmd).
  split; [done|]. split; [intros d; by apply status_label_rel|].
  split; [|done]. intros d l since Hst Hna. specialize (Hrel d). rewrite Hst in Hrel.
  destruct (V2.disk_states s2 !! d) as [[l' ts']|]; [|done].
  destruct Hrel as [Hl Hts]. simpl in *. subst l'. by rewrite (Hts Hna).
Qed.

(** The timestamps of an active device do differ: the older version
    refreshes them at every changed tick. *)
Example active_timestamps_differ :
  ∃ s1 e1 s2 e2,
    V1.run [still_tick [] 1 0 0; still_tick [] 2 0 0] (V1.fresh ["sda"] 1800 10)
      = Ok (s1, e1)
    ∧ V2.run [still_tick [] 1 0 0; still_tick [] 2 0 0] (V2.fresh ["sda"] 1800 10)
      = Ok (s2, e2)
    ∧ V1.disk_statuses s1 !! "sda" = Some (ACTIVE, 2)
    ∧ V2.disk_states s2 !! "sda" = Some {| V2.state := ACTIVE; V2.timestamp := 1 |}.
Proof.
  eexists _, _, _, _. split; [reflexivity|]. split; [reflexivity|].
  split; by vm_compute.
Qed.

(** ** C5 in the main loop *)





(** * Further properties *)

(** ** Strings *)

#[local] Arguments String.append : simpl nomatch.

Lemma string_app_assoc (a b c : string) : (a +:+ b) +:+ c = a +:+ (b +:+ c).
Proof. induction a as [|x a IH]; simpl; [done|]. by rewrite IH. Qed.

Lemma string_app_empty_r (a : string) : a +:+ "" = a.
Proof. induction a as [|x a IH]; simpl; [done|]. by rewrite IH. Qed.

Lemma solid_app a b : solid (a +:+ b) = solid a && solid b.
Proof.
  induction a as [|x a IH]; simpl; [done|]. rewrite IH. by rewrite andb_assoc.
Qed.

Lemma isspace_space c : Ascii.eqb c " " = true → Py.isspace c = true.
Proof. by intros ->%Ascii.eqb_eq. Qed.

Lemma not_space c : Py.isspace c = false → Ascii.eqb c " " = false.
Proof.
  intros Hc. destruct (Ascii.eqb c " ") eqn:He; [|done].
  apply isspace_space in He. congruence.
Qed.

(** [re.sub] copies a stretch without spaces. *)
Lemma sub_spaces_solid f s :
  solid f = true → Py.sub_spaces (f +:+ s) = f +:+ Py.sub_spaces s.
Proof.
  induction f as [|c f IH]; simpl; [done|].
  intros [Hc Hf]%andb_true_iff. apply negb_true_iff in Hc.
  rewrite (not_space c Hc). by rewrite IH.
Qed.

(** [re.sub] turns a run of spaces in front of a field into one space. *)
Lemma sub_spaces_run n f s :
  is_field f = true →
  Py.sub_spaces (spaces (S n) +:+ f +:+ s) = String " " (f +:+ Py.sub_spaces s).
Proof.
  intros Hf. destruct f as [|c f]; [done|]. simpl in Hf.
  apply andb_true_iff in Hf as [Hc Hf]. apply negb_true_iff in Hc.
  induction n as [|n IH].
  - simpl. rewrite (not_space c Hc). by rewrite sub_spaces_solid.
  - change (spaces (S (S n)) +:+ String c f +:+ s)
      with (String " " (spaces (S n) +:+ String c f +:+ s)).
    change (Py.sub_spaces (String " " (spaces (S n) +:+ String c f +:+ s)))
      with (Py.sub_spaces (spaces (S n) +:+ String c f +:+ s)).
    apply IH.
Qed.

Lemma sub_spaces_cons c s :
  Py.sub_spaces (String c s) =
    if Ascii.eqb c " " then
      match s with
      | String c' _ => if Ascii.eqb c' " " then Py.sub_spaces s
                       else String " " (Py.sub_spaces s)
      | EmptyString => String " " EmptyString
      end
    else String c (Py.sub_spaces s).
Proof. done. Qed.

Lemma blank_sub_spaces w : blank w = true → blank (Py.sub_spaces w) = true.
Proof.
  induction w as [|c w IH]; [done|].
  intros [Hc Hw]%andb_true_iff. rewrite sub_spaces_cons.
  destruct (Ascii.eqb c " ") eqn:He.
  - destruct w as [|c' w]; [done|].
    destruct (Ascii.eqb c' " "); [by apply IH|].
    change (Py.isspace " " && blank (Py.sub_spaces (String c' w)) = true).
    by rewrite (IH Hw).
  - change (Py.isspace c && blank (Py.sub_spaces w) = true). by rewrite Hc, IH.
Qed.

Lemma rstrip_blank w : blank w = true → Py.rstrip w = "".
Proof.
  induction w as [|c w IH]; simpl; [done|].
  intros [Hc Hw]%andb_true_iff. by rewrite IH, Hc.
Qed.

Lemma rstrip_app_blank s w : blank w = true → Py.rstrip (s +:+ w) = Py.rstrip s.
Proof.
  intros Hw. induction s as [|c s IH]; simpl; [by apply rstrip_blank|].
  by rewrite IH.
Qed.

Lemma rstrip_solid f : solid f = true → Py.rstrip f = f.
Proof.
  induction f as [|c f IH]; simpl; [done|].
  intros [Hc Hf]%andb_true_iff. apply negb_true_iff in Hc.
  rewrite (IH Hf), Hc. by destruct f.
Qed.

(** [rstrip] stops at a field. *)
Lemma rstrip_app_field s f : is_field f = true → Py.rstrip (s +:+ f) = s +:+ f.
Proof.
  intros Hf. assert (solid f = true) as Hs by by destruct f.
  induction s as [|c s IH]; simpl; [by apply rstrip_solid|].
  rewrite IH. destruct (s +:+ f) eqn:Hsf; [|done].
  by destruct s, f.
Qed.

(** [lstrip] stops at a field. *)
Lemma lstrip_field f s : is_field f = true → Py.lstrip (f +:+ s) = f +:+ s.
Proof.
  destruct f as [|c f]; [done|]. simpl.
  intros [Hc _]%andb_true_iff. apply negb_true_iff in Hc. by rewrite Hc.
Qed.

Lemma lstrip_blank_app w s : blank w = true → Py.lstrip (w +:+ s) = Py.lstrip s.
Proof.
  induction w as [|c w IH]; simpl; [done|].
  intros [Hc Hw]%andb_true_iff. rewrite Hc. by apply IH.
Qed.

Lemma split_no_sep sep f :
  Py.contains sep f = false → Py.split sep f = [f].
Proof.
  induction f as [|c f IH]; simpl; [done|].
  intros [Hc Hf]%orb_false_iff. rewrite Hc, (IH Hf). done.
Qed.

Lemma split_app_sep sep f s :
  Py.contains sep f = false →
  Py.split sep (f +:+ String sep s) = f :: Py.split sep s.
Proof.
  induction f as [|c f IH]; simpl.
  - intros _. by rewrite Ascii.eqb_refl.
  - intros [Hc Hf]%orb_false_iff. rewrite Hc, (IH Hf). done.
Qed.

Lemma solid_no_space f : solid f = true → Py.contains " " f = false.
Proof.
  induction f as [|c f IH]; simpl; [done|].
  intros [Hc Hf]%andb_true_iff. apply negb_true_iff in Hc.
  by rewrite (not_space c Hc), IH.
Qed.

(** No piece of a split holds the separator, and there is a piece. *)
Lemma split_pieces sep s :
  Py.split sep s ≠ [] ∧ ∀ x, x ∈ Py.split sep s → Py.contains sep x = false.
Proof.
  induction s as [|c s [Hne IH]]; simpl.
  - split; [done|]. by intros x ->%list_elem_of_singleton.
  - destruct (Ascii.eqb c sep) eqn:Hc.
    + split; [done|]. intros x [->|Hx]%elem_of_cons; [done|by apply IH].
    + destruct (Py.split sep s) as [|f fs]; [done|]. split; [done|].
      intros x [->|Hx]%elem_of_cons.
      * simpl. rewrite Hc. apply IH. by left.
      * apply IH. by right.
Qed.

(** A string that ends in a separator and a piece splits into something
    and that piece. *)
Lemma split_last sep q d :
  Py.contains sep d = false →
  ∃ l, l ≠ [] ∧ Py.split sep (q +:+ String sep d) = l ++ [d].
Proof.
  intros Hd. induction q as [|c q (l & Hl & IH)]; simpl.
  - exists [EmptyString]. rewrite Ascii.eqb_refl. by rewrite split_no_sep.
  - rewrite IH. destruct (Ascii.eqb c sep).
    + exists (EmptyString :: l). done.
    + destruct l as [|f l]; [done|]. by exists (String c f :: l).
Qed.

(** ** The parser on the lines the kernel prints *)

Lemma join_tail_app fs t : join_tail fs t = join_tail fs "" +:+ t.
Proof.
  induction fs as [|f fs IH]; simpl; [done|].
  by rewrite IH, string_app_assoc.
Qed.

Lemma sub_spaces_render_from gap fs : ∀ i trail,
  Forall (λ f, is_field f = true) fs →
  Py.sub_spaces (render_from gap i fs +:+ trail) = join_tail fs (Py.sub_spaces trail).
Proof.
  induction fs as [|f fs IH]; intros i trail Hfs; [done|].
  apply Forall_cons in Hfs as [Hf Hfs].
  change (render_from gap i (f :: fs))
    with (spaces (S (gap i)) +:+ f +:+ render_from gap (S i) fs).
  rewrite !string_app_assoc, sub_spaces_run by done.
  simpl. by rewrite IH.
Qed.

Lemma rstrip_join_tail fs : ∀ p f,
  is_field f = true → Forall (λ f, is_field f = true) fs →
  Py.rstrip (p +:+ f +:+ join_tail fs "") = p +:+ f +:+ join_tail fs "".
Proof.
  induction fs as [|f' fs IH]; intros p f Hf Hfs; simpl.
  - rewrite string_app_empty_r. by apply rstrip_app_field.
  - apply Forall_cons in Hfs as [Hf' Hfs].
    specialize (IH (p +:+ f +:+ " ") f' Hf' Hfs).
    by rewrite !string_app_assoc in IH.
Qed.

Lemma split_join_tail fs : ∀ f,
  is_field f = true → Forall (λ f, is_field f = true) fs →
  Py.split " " (f +:+ join_tail fs "") = f :: fs.
Proof.
  assert (∀ f, is_field f = true → Py.contains " " f = false) as Hns.
  { intros f Hf. apply solid_no_space. by destruct f. }
  induction fs as [|f' fs IH]; intros f Hf Hfs; simpl.
  - rewrite string_app_empty_r. apply split_no_sep. by apply Hns.
  - apply Forall_cons in Hfs as [Hf' Hfs].
    rewrite split_app_sep by by apply Hns. by rewrite IH.
Qed.

(** The fields of a printed line are read back as they are, however many
    spaces stand between them and whatever white space ends the line; the
    parser returns the third, sixth and tenth of them. *)
Theorem fields_of_rendered_line (gap : nat → nat) (fields : list string)
    (trail : string) :
  fields ≠ [] → Forall (λ f, is_field f = true) fields → blank trail = true →
  diskstats_fields (render gap fields +:+ trail) = fields
  ∧ parse_diskstats_line (render gap fields +:+ trail)
    = match fields !! 2%nat, fields !! 5%nat, fields !! 9%nat with
      | Some name, Some r, Some w => Ok (name, r, w)
      | _, _, _ => Raise IndexError
      end.
Proof.
  intros Hne Hfs Htrail.
  assert (diskstats_fields (render gap fields +:+ trail) = fields) as Hfields.
  { destruct fields as [|f fs]; [done|].
    apply Forall_cons in Hfs as [Hf Hfs].
    assert (solid f = true) as Hsf by by destruct f.
    unfold diskstats_fields, render, Py.strip.
    rewrite !string_app_assoc.
    assert (Py.lstrip (Py.sub_spaces (spaces (gap 0%nat) +:+ f
                                      +:+ render_from gap 1 fs +:+ trail))
            = f +:+ join_tail fs (Py.sub_spaces trail)) as ->.
    { destruct (gap 0%nat) as [|n].
      - simpl. rewrite sub_spaces_solid, sub_spaces_render_from by done.
        by apply lstrip_field.
      - rewrite sub_spaces_run, sub_spaces_render_from by done.
        simpl. by apply lstrip_field. }
    rewrite join_tail_app, <- string_app_assoc.
    rewrite rstrip_app_blank by by apply blank_sub_spaces.
    pose proof (rstrip_join_tail fs "" f Hf Hfs) as Hr. simpl in Hr. rewrite Hr.
    by apply split_join_tail. }
  split; [done|].
  unfold parse_diskstats_line, list_getitem. rewrite Hfields.
  destruct (fields !! 2%nat); [|done]. destruct (fields !! 5%nat); [|done].
  by destruct (fields !! 9%nat).
Qed.

Lemma fields_of_rendered_line_example :
  parse_diskstats_line
    (render (λ i, if decide (i = 1%nat) then 6%nat else 0%nat)
       ["8"; "0"; "sda"; "19912"; "11150"; "4603573"; "10996"; "76961"; "88315";
        "4666256"; "72070"] +:+ "
")
  = Ok ("sda", "4603573", "4666256").
Proof.
  destruct (fields_of_rendered_line
              (λ i, if decide (i = 1%nat) then 6%nat else 0%nat)
              ["8"; "0"; "sda"; "19912"; "11150"; "4603573"; "10996"; "76961"; "88315";
               "4666256"; "72070"] "
") as [_ H].
  - discriminate.
  - repeat constructor.
  - reflexivity.
  - exact H.
Defined.

(** ** Device names *)

Lemma lstrip_slash p s :
  ∃ q, Py.lstrip (p +:+ String "/" s) = q +:+ String "/" s.
Proof.
  induction p as [|c p [q IH]]; simpl.
  - by exists EmptyString.
  - destruct (Py.isspace c); [by exists q|]. by exists (String c p).
Qed.

Lemma contains_app_sep sep q s : Py.contains sep (q +:+ String sep s) = true.
Proof.
  induction q as [|c q IH]; simpl; [by rewrite Ascii.eqb_refl|].
  rewrite IH. by destruct (Ascii.eqb c sep).
Qed.

(** A device name, bare or behind a path, with white space around it, is
    normalized to the bare name. *)
Theorem normalize_name_recovers (lead d trail : string) :
  is_field d = true → Py.contains "/" d = false →
  blank lead = true → blank trail = true →
  normalize_name (lead +:+ d +:+ trail) = d
  ∧ ∀ p, normalize_name (p +:+ "/" +:+ d +:+ trail) = d.
Proof.
  intros Hd Hslash Hlead Htrail. unfold normalize_name, Py.strip. split.
  - rewrite lstrip_blank_app, lstrip_field, rstrip_app_blank by done.
    rewrite rstrip_solid by by destruct d. by rewrite Hslash.
  - intros p.
    destruct (lstrip_slash p (d +:+ trail)) as [q Hq]. simpl. rewrite Hq.
    replace (q +:+ String "/" (d +:+ trail))
      with (((q +:+ "/") +:+ d) +:+ trail) by by rewrite !string_app_assoc.
    rewrite rstrip_app_blank, rstrip_app_field by done.
    rewrite string_app_assoc. simpl. rewrite contains_app_sep.
    destruct (split_last "/" q d Hslash) as (l & _ & ->).
    by rewrite last_snoc.
Qed.

Lemma normalize_name_recovers_example :
  normalize_name ("  " +:+ "sdb" +:+ " ") = "sdb"
  ∧ normalize_name ("/dev/disk" +:+ "/" +:+ "sdb" +:+ " ") = "sdb".
Proof.
  destruct (normalize_name_recovers "  " "sdb" " ") as [H1 H2]; try reflexivity.
  split; [exact H1|exact (H2 "/dev/disk")].
Defined.

(** A normalized name holds no slash. *)
Theorem normalize_name_no_slash (disk : string) :
  Py.contains "/" (normalize_name disk) = false.
Proof.
  unfold normalize_name.
  destruct (Py.contains "/" (Py.strip disk)) eqn:Hc; [|done].
  destruct (split_pieces "/" (Py.strip disk)) as [Hne Hpieces].
  destruct (last (Py.split "/" (Py.strip disk))) as [x|] eqn:Hlast.
  - simpl. apply Hpieces. apply last_Some in Hlast as [l ->].
    apply elem_of_app. right. by left.
  - by apply last_None in Hlast.
Qed.

(** ** Start-up *)

Lemma normalize_name_bare d :
  is_field d = true → Py.contains "/" d = false → normalize_name d = d.
Proof.
  intros Hd Hslash. unfold normalize_name, Py.strip.
  pose proof (lstrip_field d "" Hd) as Hl. rewrite string_app_empty_r in Hl.
  rewrite Hl, rstrip_solid by by destruct d. by rewrite Hslash.
Qed.

(** A name that matches [[sh]d[a-z]] is a field without slash. *)
Lemma is_disk_name_field d :
  is_disk_name d = true → is_field d = true ∧ Py.contains "/" d = false.
Proof.
  destruct d as [|c1 [|c2 [|c3 [|]]]]; try done. simpl.
  intros [[[H1 H2]%andb_true_iff H3]%andb_true_iff H4]%andb_true_iff.
  apply Ascii.eqb_eq in H2 as ->.
  assert (Py.isspace c1 = false ∧ Ascii.eqb c1 "/" = false) as [-> ->].
  { apply orb_true_iff in H1 as [->%Ascii.eqb_eq| ->%Ascii.eqb_eq]; done. }
  assert (Py.isspace c3 = false ∧ Ascii.eqb c3 "/" = false) as [-> ->]; [|done].
  apply Z.leb_le in H3, H4.
  destruct c3 as [[] [] [] [] [] [] [] []]; simpl in *; (done || lia).
Qed.

Lemma normalize_possible (listing : list string) :
  normalize_name <$> filter (λ dev, is_disk_name dev = true) listing
  = filter (λ dev, is_disk_name dev = true) listing.
Proof.
  induction listing as [|x l IH]; [done|].
  rewrite filter_cons. case_decide as Hx; [|done].
  rewrite fmap_cons, IH. f_equal.
  apply is_disk_name_field in Hx as [? ?]. by apply normalize_name_bare.
Qed.

Lemma filter_elem_of_self (l : list string) : filter (λ x, x ∈ l) l = l.
Proof.
  assert (∀ l' : list string, (∀ x, x ∈ l' → x ∈ l) → filter (λ x, x ∈ l) l' = l')
    as H; [|by apply H].
  induction l' as [|x l' IH]; intros Hsub; [done|].
  rewrite filter_cons. rewrite decide_True by (apply Hsub; by left).
  f_equal. apply IH. intros y Hy. apply Hsub. by right.
Qed.

(** Without a [devices] option the daemon tracks every enumerated device
    that matches the pattern, in the order of the enumeration, and warns. *)
Theorem init_without_devices (int : string → option Z) (config : Config)
    (listing : list string) (section : gmap string string)
    (self : V2.DisksPowerOff) (evs : list Event) :
  config !! PROGRAM_NAME = Some section → section !! DEVICES = None →
  V2.init int config listing = Ok (self, evs) →
  V2.disks self = filter (λ dev, is_disk_name dev = true) listing
  ∧ Syslog LOG_WARNING MissingDevices ∈ evs.
Proof.
  intros Hsec Hdev Hinit.
  pose proof Hinit as (section' & Hsec' & Hdisks & _)%init_Ok.
  rewrite Hsec in Hsec'. injection Hsec' as <-. rewrite Hdev in Hdisks.
  split.
  - by rewrite Hdisks, normalize_possible, filter_elem_of_self.
  - unfold V2.init, dict_getitem in Hinit. rewrite Hsec in Hinit. simpl in Hinit.
    rewrite Hdev in Hinit.
    destruct (V2.numeric_option _ _ TIMEOUT _ _), (V2.numeric_option _ _ _ _ _).
    injection Hinit as _ <-. by left.
Qed.

Lemma init_without_devices_example :
  ∃ self evs,
    V2.init decimal ({[ PROGRAM_NAME := {[ TIMEOUT := "60" ]} ]} : Config)
      ["sdb"; "sda1"; "hda"; "nvme0n1"; "sdB"] = Ok (self, evs)
    ∧ V2.disks self = ["sdb"; "hda"].
Proof.
  pose (config := ({[ PROGRAM_NAME := {[ TIMEOUT := "60" ]} ]} : Config)).
  pose (listing := ["sdb"; "sda1"; "hda"; "nvme0n1"; "sdB"]).
  destruct (V2.init decimal config listing) as [[self evs]|] eqn:Hinit;
    [|by vm_compute in Hinit].
  assert (config !! PROGRAM_NAME = Some {[ TIMEOUT := "60" ]}) as Hsec
    by (vm_compute; reflexivity).
  assert (({[ TIMEOUT := "60" ]} : gmap string string) !! DEVICES = None) as Hdev
    by (vm_compute; reflexivity).
  destruct (init_without_devices decimal config listing _ self evs Hsec Hdev Hinit)
    as [Hdisks _].
  exists self, evs. split; [exact Hinit|exact Hdisks].
Defined.

(** A numeric option that [int] accepts is taken as it is, whatever its
    sign or size, and no warning is written for it. *)
Theorem numeric_options_accepted (int : string → option Z) (config : Config)
    (listing : list string) (section : gmap string string)
    (self : V2.DisksPowerOff) (evs : list Event) :
  config !! PROGRAM_NAME = Some section →
  V2.init int config listing = Ok (self, evs) →
  (∀ value n, section !! TIMEOUT = Some value → int value = Some n →
     V2.timeout self = n
     ∧ ∀ fallback, Syslog LOG_WARNING (InvalidConfigRecord TIMEOUT fallback) ∉ evs)
  ∧ (∀ value n, section !! POLLING_INTERVAL = Some value → int value = Some n →
       V2.polling_interval self = n
       ∧ ∀ fallback,
           Syslog LOG_WARNING (InvalidConfigRecord POLLING_INTERVAL fallback) ∉ evs).
Proof.
  intros Hsec Hinit. unfold V2.init, dict_getitem in Hinit.
  rewrite Hsec in Hinit. simpl in Hinit.
  destruct (match section !! DEVICES with Some _ => _ | None => _ end)
    as [d0 e1] eqn:He1.
  assert (∀ x, x ∈ e1 → x = Syslog LOG_WARNING MissingDevices) as He1'.
  { destruct (section !! DEVICES); simplify_eq.
    - by intros x ?%elem_of_nil.
    - by intros x ->%list_elem_of_singleton. }
  assert (∀ name sf fb v e x,
            V2.numeric_option int section name sf fb = (v, e) → x ∈ e →
            x = Syslog LOG_WARNING (InvalidConfigRecord name fb)
            ∧ int (default sf (section !! name)) = None) as Hopt.
  { intros name sf fb v e x. unfold V2.numeric_option.
    destruct (int _); intros ?; simplify_eq.
    - by intros ?%elem_of_nil.
    - by intros ->%list_elem_of_singleton. }
  destruct (V2.numeric_option int section TIMEOUT "1800" V2.DEFAULT_TIMEOUT)
    as [timeout e3] eqn:Ht.
  destruct (V2.numeric_option int section POLLING_INTERVAL "10"
              V2.DEFAULT_POLLING_INTERVAL) as [interval e4] eqn:Hp.
  simplify_eq. simpl.
  split; intros value n Hv Hint.
  - split.
    + unfold V2.numeric_option in Ht. rewrite Hv in Ht. simpl in Ht.
      rewrite Hint in Ht. by injection Ht.
    + intros fb [Hx|[Hx|[Hx|[Hx|Hx]%elem_of_app]%elem_of_app]%elem_of_cons]%elem_of_app.
      * by apply He1' in Hx.
      * done.
      * destruct (Hopt _ _ _ _ _ _ Ht Hx) as [_ Hnone].
        rewrite Hv in Hnone. simpl in Hnone. congruence.
      * by destruct (Hopt _ _ _ _ _ _ Hp Hx) as [[=] _].
      * by apply list_elem_of_singleton in Hx.
  - split.
    + unfold V2.numeric_option in Hp. rewrite Hv in Hp. simpl in Hp.
      rewrite Hint in Hp. by injection Hp.
    + intros fb [Hx|[Hx|[Hx|[Hx|Hx]%elem_of_app]%elem_of_app]%elem_of_cons]%elem_of_app.
      * by apply He1' in Hx.
      * done.
      * by destruct (Hopt _ _ _ _ _ _ Ht Hx) as [[=] _].
      * destruct (Hopt _ _ _ _ _ _ Hp Hx) as [_ Hnone].
        rewrite Hv in Hnone. simpl in Hnone. congruence.
      * by apply list_elem_of_singleton in Hx.
Qed.

Lemma numeric_options_accepted_example :
  ∃ self evs,
    V2.init decimal
      ({[ PROGRAM_NAME := {[ TIMEOUT := "0"; POLLING_INTERVAL := "-3" ]} ]} : Config)
      ["sda"] = Ok (self, evs)
    ∧ V2.timeout self = 0 ∧ V2.polling_interval self = -3.
Proof.
  pose (section := ({[ TIMEOUT := "0"; POLLING_INTERVAL := "-3" ]} : gmap string string)).
  pose (config := ({[ PROGRAM_NAME := section ]} : Config)).
  destruct (V2.init decimal config ["sda"]) as [[self evs]|] eqn:Hinit;
    [|by vm_compute in Hinit].
  assert (config !! PROGRAM_NAME = Some section) as Hsec by (vm_compute; reflexivity).
  destruct (numeric_options_accepted decimal config ["sda"] section self evs Hsec Hinit)
    as [Ht Hp].
  destruct (Ht "0" 0) as [Ht' _]; [vm_compute; reflexivity|reflexivity|].
  destruct (Hp "-3" (-3)) as [Hp' _]; [vm_compute; reflexivity|reflexivity|].
  exists self, evs. split; [exact Hinit|]. split; [exact Ht'|exact Hp'].
Defined.

(** ** What the loop keeps and what it starts *)

Lemma cycle_frame t s s' evs :
  V2.cycle t s = Ok (s', evs) →
  V2.disks s' = V2.disks s ∧ V2.timeout s' = V2.timeout s
  ∧ V2.polling_interval s' = V2.polling_interval s.
Proof.
  intros (s1 & s2 & e2 & e3 & Hpoll & Hcmp & Hoff & _)%cycle_Ok.
  apply poll_spec in Hpoll as (Hd1 & Ht1 & Hp1 & _).
  destruct (compare_pass _ _ _ _ "" Hcmp) as ((Hd2 & Ht2 & Hp2 & _) & _).
  pose proof (poweroff_frame _ _ _ _ Hoff) as (Hd3 & Ht3 & Hp3 & _).
  repeat split; congruence.
Qed.

(** The commands of one iteration are started by [poweroff], each for a
    device that it meets in a state other than Active with the timeout
    run out. *)
Lemma cycle_commands t s s' evs x :
  V2.cycle t s = Ok (s', evs) → x ∈ evs → is_Popen x = true →
  ∃ d i, (x = smartctl_cmd d ∨ x = hdparm_cmd d) ∧ V2.disks s !! i = Some d.
Proof.
  intros (s1 & s2 & e2 & e3 & Hpoll & Hcmp & Hoff & _ & ->)%cycle_Ok Hx Hp.
  apply poll_spec in Hpoll as (Hd1 & _).
  destruct (compare_pass _ _ _ _ "" Hcmp) as ((Hd2 & _) & _).
  apply elem_of_app in Hx as [Hx|[Hx|Hx]%elem_of_app].
  - apply commands_elem_of in Hx; [|done].
    rewrite (compare_no_command _ _ _ _ Hcmp) in Hx. by apply elem_of_nil in Hx.
  - apply poweroff_loop in Hoff as (_ & _ & Hev).
    destruct (Hev x Hx Hp) as (d & Hd & j & ds & Hj & _).
    exists d, j. split; [done|]. by rewrite <- Hd1, <- Hd2.
  - apply list_elem_of_singleton in Hx as ->. done.
Qed.

Lemma run_frame ts : ∀ s s' evs,
  V2.run ts s = Ok (s', evs) →
  V2.disks s' = V2.disks s ∧ V2.timeout s' = V2.timeout s
  ∧ V2.polling_interval s' = V2.polling_interval s.
Proof.
  induction ts as [|t ts IH]; intros s s' evs; simpl.
  - by intros [= <- <-].
  - destruct (V2.cycle t s) as [[s1 e1]|] eqn:Hc; simpl; [|done].
    destruct (V2.run ts s1) as [[s2 e2]|] eqn:Hr; simpl; [|done].
    intros ?; simplify_eq. apply cycle_frame in Hc as (? & ? & ?).
    apply IH in Hr as (? & ? & ?). repeat split; congruence.
Qed.

Lemma run_commands ts : ∀ s s' evs x,
  V2.run ts s = Ok (s', evs) → x ∈ evs → is_Popen x = true →
  ∃ d, (x = smartctl_cmd d ∨ x = hdparm_cmd d) ∧ d ∈ V2.disks s.
Proof.
  induction ts as [|t ts IH]; intros s s' evs x; simpl.
  - intros [= <- <-] Hx. by apply elem_of_nil in Hx.
  - destruct (V2.cycle t s) as [[s1 e1]|] eqn:Hc; simpl; [|done].
    destruct (V2.run ts s1) as [[s2 e2]|] eqn:Hr; simpl; [|done].
    intros ?; simplify_eq. intros [Hx|Hx]%elem_of_app Hp.
    + destruct (cycle_commands _ _ _ _ _ Hc Hx Hp) as (d & i & Hd & Hi).
      exists d. split; [done|]. by eapply list_elem_of_lookup_2.
    + destruct (IH _ _ _ _ Hr Hx Hp) as (d & Hd & Hin). exists d.
      split; [done|]. apply cycle_frame in Hc as (Hds & _). by rewrite <- Hds.
Qed.

(** From start-up on, whatever the configuration, every external command
    is one of the two command lines of the script, for a device that was
    enumerated in /dev and whose name matches [[sh]d[a-z]]. *)
Theorem commands_only_for_enumerated_disks (int : string → option Z)
    (config : Config) (listing : list string) (ts : list Tick)
    (self self' : V2.DisksPowerOff) (evs0 evs : list Event) :
  V2.init int config listing = Ok (self, evs0) →
  V2.run ts self = Ok (self', evs) →
  (∀ x, x ∈ evs0 → is_Popen x = false)
  ∧ ∀ argv, Popen argv ∈ evs →
      ∃ d, d ∈ listing ∧ is_disk_name d = true
           ∧ (argv = ["smartctl"; "-n"; "standby"; "/dev/" +:+ d]
              ∨ argv = ["hdparm"; "-yY"; "/dev/" +:+ d]).
Proof.
  intros Hinit Hrun. split.
  - unfold V2.init, dict_getitem in Hinit.
    destruct (config !! PROGRAM_NAME) as [section|]; [|done]. simpl in Hinit.
    destruct (match section !! DEVICES with Some _ => _ | None => _ end)
      as [d0 e1] eqn:He1.
    unfold V2.numeric_option in Hinit.
    destruct (int _), (int _); simplify_eq;
      destruct (section !! DEVICES); simplify_eq; intros x Hx;
      repeat (apply elem_of_cons in Hx as [->|Hx]; [done|]);
      by apply elem_of_nil in Hx.
  - intros argv Hx.
    destruct (run_commands _ _ _ _ _ Hrun Hx eq_refl) as (d & Hd & Hin).
    apply init_Ok in Hinit as (section & _ & Hdisks & _).
    rewrite Hdisks in Hin.
    apply list_elem_of_filter in Hin as [[Hname Hl]%list_elem_of_filter _].
    exists d. split; [done|]. split; [done|].
    destruct Hd as [[= ->]|[= ->]]; auto.
Qed.

Lemma commands_only_for_enumerated_disks_example :
  ∃ self evs0 self' evs,
    V2.init decimal ({[ PROGRAM_NAME := {[ TIMEOUT := "0" ]} ]} : Config) ["sda"; "sda1"]
      = Ok (self, evs0)
    ∧ V2.run [still_tick [counter_line "sda" "1" "2"] 5 0 0;
              still_tick [counter_line "sda" "1" "2"] 6 0 0] self = Ok (self', evs)
    ∧ Popen ["hdparm"; "-yY"; "/dev/sda"] ∈ evs
    ∧ ∀ argv, Popen argv ∈ evs →
        ∃ d, d ∈ ["sda"; "sda1"] ∧ is_disk_name d = true
             ∧ (argv = ["smartctl"; "-n"; "standby"; "/dev/" +:+ d]
                ∨ argv = ["hdparm"; "-yY"; "/dev/" +:+ d]).
Proof.
  pose (config := ({[ PROGRAM_NAME := {[ TIMEOUT := "0" ]} ]} : Config)).
  pose (ts := [still_tick [counter_line "sda" "1" "2"] 5 0 0;
               still_tick [counter_line "sda" "1" "2"] 6 0 0]).
  destruct (V2.init decimal config ["sda"; "sda1"]) as [[self evs0]|] eqn:Hinit;
    [|by vm_compute in Hinit].
  destruct (V2.run ts self) as [[self' evs]|] eqn:Hrun.
  - destruct (commands_only_for_enumerated_disks decimal config ["sda"; "sda1"] ts
                self self' evs0 evs Hinit Hrun) as [_ Hcmd].
    exists self, evs0, self', evs. split; [exact Hinit|]. split; [exact Hrun|].
    split; [|exact Hcmd].
    vm_compute in Hinit. injection Hinit as <- _.
    vm_compute in Hrun. injection Hrun as _ <-.
    do 4 right. by left.
  - exfalso. vm_compute in Hinit. injection Hinit as <- _.
    vm_compute in Hrun. discriminate.
Defined.

(** ** [poll] *)

Lemma poll_lines_app l1 l2 : ∀ s,
  V2.poll_lines (l1 ++ l2) s = V2.poll_lines l1 s ≫= V2.poll_lines l2.
Proof.
  induction l1 as [|line l1 IH]; intros s; simpl; [done|].
  destruct (V2.poll_line line s) as [a|]; simpl; [apply IH|done].
Qed.

(** [poll] replaces the snapshot wholesale: the old current map becomes the
    previous one, the states are not touched, the new current map holds
    exactly the tracked devices that some line names (a device that is
    missing from this reading has no current snapshot, whatever it had
    before), and of several lines for one device the last one counts. *)
Theorem poll_replaces_snapshot (ls : list string) (s s' : V2.DisksPowerOff) :
  V2.poll ls s = Ok s' →
  V2.diskstats_prev s' = V2.diskstats s
  ∧ V2.disk_states s' = V2.disk_states s
  ∧ (∀ d, is_Some (V2.diskstats s' !! d) ↔
          d ∈ V2.disks s
          ∧ ∃ line r w, line ∈ ls ∧ parse_diskstats_line line = Ok (d, r, w))
  ∧ (∀ l1 line l2 d r w,
       ls = l1 ++ line :: l2 → parse_diskstats_line line = Ok (d, r, w) →
       d ∈ V2.disks s →
       (∀ line' r' w', line' ∈ l2 → parse_diskstats_line line' ≠ Ok (d, r', w')) →
       V2.diskstats s' !! d
         = Some {| V2.sectors_read := r; V2.sectors_written := w |}).
Proof.
  intros Hpoll. pose proof (poll_spec _ _ _ Hpoll) as (_ & _ & _ & Hprev & Hst & _).
  split; [done|]. split; [done|]. unfold V2.poll in Hpoll.
  set (s0 := V2.set_diskstats ∅ (V2.set_diskstats_prev (V2.diskstats s) s)) in *.
  split.
  - pose proof (poll_lines_spec _ _ _ Hpoll) as (_ & _ & _ & _ & _ & Hsrc & Hall).
    intros d. split.
    + intros [v Hv]. destruct (Hsrc d) as [Hsame|(Hd & line & r & w & Hl & Hp & _)].
      * simpl in Hsame. rewrite Hv, lookup_empty in Hsame. done.
      * split; [done|]. by exists line, r, w.
    + intros (Hd & line & r & w & Hl & Hp). by eapply Hall.
  - intros l1 line l2 d r w -> Hp Hd Hlast.
    rewrite poll_lines_app in Hpoll.
    destruct (V2.poll_lines l1 s0) as [a|] eqn:Ha; [|done]. simpl in Hpoll.
    apply poll_lines_spec in Ha as (Hda & _).
    destruct (V2.poll_line line a) as [b|] eqn:Hb; [|done]. simpl in Hpoll.
    unfold V2.poll_line in Hb. rewrite Hp in Hb. simpl in Hb.
    rewrite bool_decide_eq_true_2 in Hb by by rewrite Hda.
    injection Hb as <-.
    apply poll_lines_spec in Hpoll as (_ & _ & _ & _ & _ & Hsrc & _).
    destruct (Hsrc d) as [->|(_ & line' & r' & w' & Hl' & Hp' & _)].
    + simpl. by rewrite lookup_insert_eq.
    + by destruct (Hlast line' r' w').
Qed.

Lemma poll_replaces_snapshot_example :
  ∃ s',
    V2.poll [counter_line "sda" "1" "2"; counter_line "sdb" "3" "4";
             counter_line "sda" "5" "6"]
      (V2.set_diskstats
         {[ "sdc" := {| V2.sectors_read := "9"; V2.sectors_written := "9" |} ]}
         (V2.fresh ["sda"; "sdc"] 1800 10)) = Ok s'
    ∧ V2.diskstats s' !! "sda"
      = Some {| V2.sectors_read := "5"; V2.sectors_written := "6" |}
    ∧ V2.diskstats_prev s'
      = {[ "sdc" := {| V2.sectors_read := "9"; V2.sectors_written := "9" |} ]}.
Proof.
  pose (ls := [counter_line "sda" "1" "2"; counter_line "sdb" "3" "4";
               counter_line "sda" "5" "6"]).
  pose (s := V2.set_diskstats
               {[ "sdc" := {| V2.sectors_read := "9"; V2.sectors_written := "9" |} ]}
               (V2.fresh ["sda"; "sdc"] 1800 10)).
  destruct (V2.poll ls s) as [s'|] eqn:Hpoll; [|by vm_compute in Hpoll].
  destruct (poll_replaces_snapshot ls s s' Hpoll) as (Hprev & _ & _ & Hlast).
  exists s'. split; [exact Hpoll|]. split; [|exact Hprev].
  apply (Hlast [counter_line "sda" "1" "2"; counter_line "sdb" "3" "4"]
           (counter_line "sda" "5" "6") []).
  - reflexivity.
  - reflexivity.
  - by left.
  - intros line' r' w' Hin. by apply elem_of_nil in Hin.
Defined.

(** ** [compare] *)

Lemma compare_loop_settled t l : ∀ k s,
  (∀ d, d ∈ l → settled2 s d) →
  for_each (λ i, V2.compare_disk (now_compare t i)) k l s = Ok (s, []).
Proof.
  induction l as [|d l IH]; intros k s Hall; simpl; [done|].
  rewrite compare_disk_settled by (apply Hall; by left). simpl.
  rewrite IH; [done|]. intros d' Hd'. apply Hall. by right.
Qed.

Lemma compare_settles_tracked t s s' e d :
  V2.compare t s = Ok (s', e) → d ∈ V2.disks s → settled2 s' d.
Proof.
  intros Hrun [i Hi]%first_at_exists.
  destruct (compare_pass _ _ _ _ d Hrun) as (Hf & _ & Hfirst).
  destruct (Hfirst i Hi) as (s2 & e2 & Hb & Hrec).
  pose proof (compare_disk_frame _ _ _ _ _ Hb) as Hf2.
  apply compare_disk_settles in Hb as (ds & Hds & Hiff).
  exists ds. split; [congruence|].
  rewrite (verdict2_frame s s2 d Hf2) in Hiff.
  by rewrite (verdict2_frame s s' d Hf).
Qed.

(** After a pass of [compare] the label of every tracked device says what
    the detector said: Active exactly for the devices seen changed, Idle or
    PoweredOff for the others.  Devices that are not tracked are left as
    they were, and the snapshots are not touched. *)
Theorem compare_labels_follow_verdict (t : Tick) (s s' : V2.DisksPowerOff)
    (e : list Event) :
  V2.compare t s = Ok (s', e) →
  (∀ d, d ∈ V2.disks s →
     ∃ ds, V2.disk_states s' !! d = Some ds
           ∧ (V2.state ds = ACTIVE ↔
              V2.unchanged (V2.diskstats s) (V2.diskstats_prev s) d = false))
  ∧ (∀ d, d ∉ V2.disks s → V2.disk_states s' !! d = V2.disk_states s !! d)
  ∧ V2.diskstats s' = V2.diskstats s ∧ V2.diskstats_prev s' = V2.diskstats_prev s.
Proof.
  intros Hrun. destruct (compare_pass _ _ _ _ "" Hrun) as (Hf & _).
  split; [|split].
  - intros d Hd.
    destruct (compare_settles_tracked _ _ _ _ d Hrun Hd) as (ds & Hds & Hiff).
    exists ds. split; [done|]. by rewrite (verdict2_frame s s' d Hf) in Hiff.
  - intros d Hd. by destruct (compare_pass _ _ _ _ d Hrun) as (_ & Hout & _); auto.
  - by destruct Hf as (_ & _ & _ & ? & ?).
Qed.

Lemma compare_labels_follow_verdict_example :
  ∃ s' e ds,
    V2.compare (still_tick [] 9 0 0) (sda_object ["sda"] ACTIVE) = Ok (s', e)
    ∧ V2.disk_states s' !! "sda" = Some ds ∧ V2.state ds ≠ ACTIVE.
Proof.
  pose (s := sda_object ["sda"] ACTIVE).
  destruct (V2.compare (still_tick [] 9 0 0) s) as [[s' e]|] eqn:Hrun;
    [|by vm_compute in Hrun].
  destruct (compare_labels_follow_verdict _ s s' e Hrun) as [Hall _].
  destruct (Hall "sda") as (ds & Hds & Hiff); [by left|].
  exists s', e, ds. split; [exact Hrun|]. split; [exact Hds|].
  intros Ha. apply Hiff in Ha. vm_compute in Ha. discriminate.
Defined.

(** A second pass of [compare] over the same snapshots, at any later
    time, changes nothing and logs nothing. *)
Theorem compare_twice (t t' : Tick) (s s' : V2.DisksPowerOff) (e : list Event) :
  V2.compare t s = Ok (s', e) → V2.compare t' s' = Ok (s', []).
Proof.
  intros Hrun. unfold V2.compare at 1.
  apply compare_loop_settled. intros d Hd.
  destruct (compare_pass _ _ _ _ d Hrun) as ((Hds & _) & _).
  rewrite Hds in Hd. by eapply compare_settles_tracked.
Qed.

Lemma compare_twice_example :
  ∃ s' e,
    V2.compare (still_tick [] 9 0 0) (sda_object ["sda"; "sdb"] ACTIVE) = Ok (s', e)
    ∧ e ≠ [] ∧ V2.compare (still_tick [] 20 0 0) s' = Ok (s', []).
Proof.
  pose (s := sda_object ["sda"; "sdb"] ACTIVE).
  destruct (V2.compare (still_tick [] 9 0 0) s) as [[s' e]|] eqn:Hrun.
  - exists s', e. split; [exact Hrun|]. split.
    + vm_compute in Hrun. injection Hrun as _ <-. discriminate.
    + exact (compare_twice _ (still_tick [] 20 0 0) s s' e Hrun).
  - exfalso. vm_compute in Hrun. discriminate.
Defined.

(** ** [poweroff] *)

(** [poweroff] always runs to its end, and all it does to the object is to
    relabel devices PoweredOff that were Idle or PoweredOff: no timestamp
    changes, no record appears or goes, no Active device is touched, the
    snapshots and the settings stay. *)
Theorem poweroff_only_relabels (t : Tick) (s : V2.DisksPowerOff) :
  ∃ s' e,
    V2.poweroff t s = Ok (s', e)
    ∧ V2.diskstats s' = V2.diskstats s ∧ V2.diskstats_prev s' = V2.diskstats_prev s
    ∧ V2.disks s' = V2.disks s ∧ V2.timeout s' = V2.timeout s
    ∧ V2.polling_interval s' = V2.polling_interval s
    ∧ ∀ d, match V2.disk_states s !! d with
           | None => V2.disk_states s' !! d = None
           | Some ds =>
               ∃ ds', V2.disk_states s' !! d = Some ds'
                      ∧ V2.timestamp ds' = V2.timestamp ds
                      ∧ (V2.state ds' = V2.state ds
                         ∨ V2.state ds ≠ ACTIVE ∧ V2.state ds' = POWEROFF)
           end.
Proof.
  destruct (poweroff_total t s) as (s' & e & Hrun). exists s', e.
  split; [done|].
  apply poweroff_loop in Hrun as ((Hd & Ht & Hp & Hc & Hv) & Hrec & _).
  repeat (split; [done|]). intros d.
  destruct (Hrec d) as [->|((j & ds0 & _ & Hds0 & Hel) & ds & Hds & ->)].
  - destruct (V2.disk_states s !! d) as [ds|]; [|done]. exists ds. auto.
  - rewrite Hds. eexists. split; [done|]. simpl. split; [done|]. right.
    split; [|done]. rewrite Hds in Hds0. injection Hds0 as <-.
    by apply eligible2_true in Hel as [? _].
Qed.

(** A command for a device is started only at a visit of the device at
    which it is Idle or PoweredOff and has been so for the timeout at
    least; this holds for every entry of the tracked list, repeated ones
    included. *)
Theorem commands_need_timeout (t : Tick) (s s' : V2.DisksPowerOff)
    (evs : list Event) (d : string) :
  V2.poweroff t s = Ok (s', evs) →
  smartctl_cmd d ∈ evs ∨ hdparm_cmd d ∈ evs →
  ∃ i ds,
    V2.disks s !! i = Some d ∧ V2.disk_states s !! d = Some ds
    ∧ (V2.state ds = IDLE ∨ V2.state ds = POWEROFF)
    ∧ V2.timeout s ≤ now_poweroff t i - V2.timestamp ds.
Proof.
  intros (_ & _ & Hev)%poweroff_loop Hx.
  assert (touched2 t 0 (V2.disks s) s d) as (j & ds & Hj & Hds & Hel).
  { destruct Hx as [Hx|Hx]; destruct (Hev _ Hx eq_refl) as (d' & [Heq|Heq] & Ht);
      try done.
    - by apply smartctl_cmd_inj in Heq as ->.
    - by apply hdparm_cmd_inj in Heq as ->. }
  apply eligible2_true in Hel as [Hna Hto]. exists j, ds.
  split; [done|]. split; [done|]. split; [|done].
  destruct (V2.state ds); auto. done.
Qed.

Lemma commands_need_timeout_example :
  ∃ s' evs i ds,
    V2.poweroff (still_tick [] 1800 0 0) (sda_object ["sdb"; "sda"] IDLE) = Ok (s', evs)
    ∧ V2.disks (sda_object ["sdb"; "sda"] IDLE) !! i = Some "sda"
    ∧ V2.disk_states (sda_object ["sdb"; "sda"] IDLE) !! "sda" = Some ds
    ∧ V2.timeout (sda_object ["sdb"; "sda"] IDLE) ≤ 1800 - V2.timestamp ds.
Proof.
  pose (s := sda_object ["sdb"; "sda"] IDLE).
  destruct (V2.poweroff (still_tick [] 1800 0 0) s) as [[s' evs]|] eqn:Hrun.
  - destruct (commands_need_timeout _ s s' evs "sda" Hrun) as (i & ds & Hi & Hds & _ & Hto).
    + left. vm_compute in Hrun. injection Hrun as _ <-. by left.
    + exists s', evs, i, ds. split; [exact Hrun|]. split; [exact Hi|].
      split; [exact Hds|exact Hto].
  - exfalso. vm_compute in Hrun. discriminate.
Defined.

(** ** Traces *)

Lemma protocol_app e1 e2 : protocol e1 → protocol e2 → protocol (e1 ++ e2).
Proof. induction 1; intros He2; simpl; [done|by constructor; auto..]. Qed.

Lemma attempt_events_protocol rs rh d l : protocol (commands (attempt_events rs rh d l)).
Proof.
  unfold attempt_events, commands. repeat case_bool_decide; simpl;
    repeat (rewrite filter_cons; simpl); rewrite ?filter_nil;
    first [apply protocol_spin | apply protocol_query]; constructor.
Qed.

Lemma poweroff_protocol t s s' evs :
  V2.poweroff t s = Ok (s', evs) → protocol (commands evs).
Proof.
  unfold V2.poweroff. apply (for_each_rel _ (λ _ e _, protocol (commands e))).
  - constructor.
  - intros _ e1 _ e2 _ H1 H2. rewrite commands_app. by apply protocol_app.
  - intros j d a b e _. rewrite poweroff_disk_eq.
    destruct (V2.disk_states a !! d) as [ds|]; [|intros [= _ <-]; constructor].
    destruct (eligible2 _ _ _); intros [= _ <-]; [|constructor].
    apply attempt_events_protocol.
Qed.

Lemma cycle_commands_poweroff t s s' evs :
  V2.cycle t s = Ok (s', evs) →
  ∃ s2 e3, V2.poweroff t s2 = Ok (s', e3) ∧ commands evs = commands e3.
Proof.
  intros (s1 & s2 & e2 & e3 & _ & Hcmp & Hoff & _ & ->)%cycle_Ok.
  exists s2, e3. split; [done|].
  rewrite !commands_app, (compare_no_command _ _ _ _ Hcmp). simpl.
  by rewrite app_nil_r.
Qed.

(** Over any number of cycles the external commands form a sequence of
    attempts, each a standby query that is or is not followed at once by
    the spin-down command for the same device: no spin-down command is
    ever started without the query before it. *)
Theorem run_commands_protocol (ts : list Tick) (s s' : V2.DisksPowerOff)
    (evs : list Event) :
  V2.run ts s = Ok (s', evs) → protocol (commands evs).
Proof.
  revert s s' evs. induction ts as [|t ts IH]; intros s s' evs; simpl.
  - intros [= _ <-]. constructor.
  - destruct (V2.cycle t s) as [[s1 e1]|] eqn:Hc; simpl; [|done].
    destruct (V2.run ts s1) as [[s2 e2]|] eqn:Hr; simpl; [|done].
    intros ?; simplify_eq. rewrite commands_app. apply protocol_app.
    + apply cycle_commands_poweroff in Hc as (a & e3 & Hoff & ->).
      by eapply poweroff_protocol.
    + by eapply IH.
Qed.

Lemma run_commands_protocol_example :
  ∃ s' evs,
    V2.run [still_tick [counter_line "sda" "100" "200"] 1800 0 0;
            still_tick [counter_line "sda" "100" "200"] 1810 2 0]
      (sda_object ["sda"] IDLE) = Ok (s', evs)
    ∧ protocol (commands evs).
Proof.
  pose (ts := [still_tick [counter_line "sda" "100" "200"] 1800 0 0;
               still_tick [counter_line "sda" "100" "200"] 1810 2 0]).
  destruct (V2.run ts (sda_object ["sda"] IDLE)) as [[s' evs]|] eqn:Hrun;
    [|by vm_compute in Hrun].
  exists s', evs. split; [exact Hrun|].
  exact (run_commands_protocol ts _ s' evs Hrun).
Defined.

Lemma no_sleep_in_loops {St : Type} (body : nat → string → St → Result (St * list Event))
    k l s s' evs :
  (∀ i d a b e, body i d a = Ok (b, e) → filter (λ x, is_Sleep x = true) e = []) →
  for_each body k l s = Ok (s', evs) → filter (λ x, is_Sleep x = true) evs = [].
Proof.
  intros Hbody.
  apply (for_each_rel _ (λ _ e _, filter (λ x, is_Sleep x = true) e = [])).
  - done.
  - intros _ e1 _ e2 _ H1 H2. by rewrite filter_app, H1, H2.
  - intros j d a b e _. apply Hbody.
Qed.

Lemma compare_no_sleep t s s' evs :
  V2.compare t s = Ok (s', evs) → filter (λ x, is_Sleep x = true) evs = [].
Proof.
  apply no_sleep_in_loops. intros i d a b e Hb.
  pose proof (compare_disk_cases (now_compare t i) d a) as H. rewrite Hb in H.
  by destruct H as (_ & [[_ ->]|(l & _ & -> & _)] & _).
Qed.

Lemma poweroff_no_sleep t s s' evs :
  V2.poweroff t s = Ok (s', evs) → filter (λ x, is_Sleep x = true) evs = [].
Proof.
  apply no_sleep_in_loops. intros i d a b e. rewrite poweroff_disk_eq.
  destruct (V2.disk_states a !! d) as [ds|]; [|by intros [= _ <-]].
  destruct (eligible2 _ _ _); intros [= _ <-]; [|done].
  unfold attempt_events. by repeat case_bool_decide.
Qed.

(** The loop sleeps once per cycle, at the end of it, for the configured
    interval. *)
Theorem one_sleep_per_cycle (ts : list Tick) (s s' : V2.DisksPowerOff)
    (evs : list Event) :
  V2.run ts s = Ok (s', evs) →
  filter (λ x, is_Sleep x = true) evs
    = replicate (length ts) (Sleep (V2.polling_interval s)).
Proof.
  revert s s' evs. induction ts as [|t ts IH]; intros s s' evs; simpl.
  - by intros [= _ <-].
  - destruct (V2.cycle t s) as [[s1 e1]|] eqn:Hc; simpl; [|done].
    destruct (V2.run ts s1) as [[s2 e2]|] eqn:Hr; simpl; [|done].
    intros ?; simplify_eq. rewrite filter_app, (IH _ _ _ Hr).
    pose proof (cycle_frame _ _ _ _ Hc) as (_ & _ & Hpi). rewrite Hpi.
    apply cycle_Ok in Hc as (a1 & a2 & f2 & f3 & _ & Hcmp & Hoff & _ & ->).
    rewrite !filter_app, (compare_no_sleep _ _ _ _ Hcmp),
      (poweroff_no_sleep _ _ _ _ Hoff), Hpi.
    done.
Qed.

Lemma one_sleep_per_cycle_example :
  ∃ s' evs,
    V2.run [still_tick [] 1 0 0; still_tick [] 2 0 0; still_tick [] 3 0 0]
      (V2.fresh ["sda"] 1800 10) = Ok (s', evs)
    ∧ filter (λ x, is_Sleep x = true) evs = [Sleep 10; Sleep 10; Sleep 10].
Proof.
  pose (ts := [still_tick [] 1 0 0; still_tick [] 2 0 0; still_tick [] 3 0 0]).
  destruct (V2.run ts (V2.fresh ["sda"] 1800 10)) as [[s' evs]|] eqn:Hrun;
    [|by vm_compute in Hrun].
  exists s', evs. split; [exact Hrun|].
  exact (one_sleep_per_cycle ts _ s' evs Hrun).
Defined.

(** ** The state records over the cycles *)

Lemma compare_keeps_records t s s' evs d :
  V2.compare t s = Ok (s', evs) →
  is_Some (V2.disk_states s !! d) → is_Some (V2.disk_states s' !! d).
Proof.
  unfold V2.compare.
  apply (for_each_rel _
           (λ a _ b, is_Some (V2.disk_states a !! d) → is_Some (V2.disk_states b !! d))).
  - done.
  - intros a _ b _ c Hab Hbc ?. auto.
  - intros j x a b e _ Hb Hd.
    pose proof (compare_disk_cases (now_compare t (0 + j)) x a) as H.
    rewrite Hb in H. destruct H as (_ & [[-> _]|(l & -> & _)] & _); [done|].
    destruct (decide (x = d)) as [->|]; [by rewrite lookup_insert_eq|].
    by rewrite lookup_insert_ne.
Qed.

Lemma cycle_records t s s' evs d :
  V2.cycle t s = Ok (s', evs) →
  (is_Some (V2.disk_states s !! d) → is_Some (V2.disk_states s' !! d))
  ∧ (d ∉ V2.disks s → V2.disk_states s' !! d = V2.disk_states s !! d).
Proof.
  intros (s1 & s2 & e2 & e3 & Hpoll & Hcmp & Hoff & _)%cycle_Ok.
  apply poll_spec in Hpoll as (Hd1 & _ & _ & _ & Hst1 & _).
  destruct (compare_pass _ _ _ _ d Hcmp) as ((Hd2 & _) & Hout & _).
  pose proof (poweroff_loop _ _ _ _ _ _ Hoff) as (_ & Hrec & _).
  split.
  - intros Hd. rewrite <- Hst1 in Hd.
    apply (compare_keeps_records _ _ _ _ _ Hcmp) in Hd.
    destruct (Hrec d) as [->|(_ & ? & _ & ->)]; [done|by eexists].
  - intros Hd. unfold V2.poweroff in Hoff.
    apply (poweroff_loop_absent _ _ _ _ _ _ d) in Hoff as (-> & _); [|congruence].
    rewrite Hout by congruence. by rewrite Hst1.
Qed.

(** Over any number of cycles the tracked list, the timeout and the
    polling interval stay as [__init__] set them; a state record, once
    made, is never removed; and a device that is not tracked never gets a
    record. *)
Theorem run_keeps_settings_and_records (ts : list Tick) (s s' : V2.DisksPowerOff)
    (evs : list Event) :
  V2.run ts s = Ok (s', evs) →
  V2.disks s' = V2.disks s ∧ V2.timeout s' = V2.timeout s
  ∧ V2.polling_interval s' = V2.polling_interval s
  ∧ (∀ d, is_Some (V2.disk_states s !! d) → is_Some (V2.disk_states s' !! d))
  ∧ (∀ d, d ∉ V2.disks s → V2.disk_states s' !! d = V2.disk_states s !! d).
Proof.
  intros Hrun. pose proof (run_frame _ _ _ _ Hrun) as (? & ? & ?).
  repeat (split; [done|]).
  revert s s' evs Hrun H H0 H1. induction ts as [|t ts IH]; intros s s' evs; simpl.
  - by intros [= <- <-].
  - destruct (V2.cycle t s) as [[s1 e1]|] eqn:Hc; simpl; [|done].
    destruct (V2.run ts s1) as [[s2 e2]|] eqn:Hr; simpl; [|done].
    intros ? _ _ _; simplify_eq.
    pose proof (run_frame _ _ _ _ Hr) as (? & ? & ?).
    destruct (IH _ _ _ Hr) as [Hkeep Hout]; [done..|].
    pose proof (cycle_frame _ _ _ _ Hc) as (Hd1 & _).
    split; intros d Hd.
    + apply Hkeep. by apply (cycle_records _ _ _ _ d Hc).
    + rewrite Hout by congruence. by apply (cycle_records _ _ _ _ d Hc).
Qed.

Lemma run_keeps_settings_and_records_example :
  ∃ s' evs,
    V2.run [still_tick [counter_line "sdb" "1" "2"] 5 0 0; still_tick [] 6 0 0]
      (sda_object ["sdb"] IDLE) = Ok (s', evs)
    ∧ V2.disks s' = ["sdb"]
    ∧ V2.disk_states s' !! "sda" = Some {| V2.state := IDLE; V2.timestamp := 0 |}.
Proof.
  pose (ts := [still_tick [counter_line "sdb" "1" "2"] 5 0 0; still_tick [] 6 0 0]).
  destruct (V2.run ts (sda_object ["sdb"] IDLE)) as [[s' evs]|] eqn:Hrun;
    [|by vm_compute in Hrun].
  destruct (run_keeps_settings_and_records ts _ s' evs Hrun) as (Hd & _ & _ & _ & Hout).
  exists s', evs. split; [exact Hrun|]. split; [exact Hd|].
  rewrite Hout; [by vm_compute|].
  intros [[=]|Hin%elem_of_nil]%elem_of_cons. done.
Defined.

(** ** Activity and commands *)

Lemma no_popen_no_command evs :
  (∀ x, x ∈ evs → is_Popen x = false) → commands evs = [].
Proof.
  induction evs as [|x evs IH]; intros Hall; [done|].
  unfold commands. rewrite filter_cons.
  rewrite decide_False by (rewrite Hall; [done|by left]).
  apply IH. intros y Hy. apply Hall. by right.
Qed.

(** After [compare], a device with a changed verdict is Active, so no
    visit of [poweroff] finds it passing the test. *)
Lemma changed_not_touched t s1 s2 e2 d :
  V2.compare t s1 = Ok (s2, e2) → verdict2 s1 d = false →
  ¬ touched2 t 0 (V2.disks s2) s2 d.
Proof.
  intros Hcmp Hv (j & ds & Hj & Hds & Hel).
  destruct (compare_pass _ _ _ _ d Hcmp) as (Hf & _).
  pose proof Hf as (Hd2 & _).
  destruct (compare_settles_tracked _ _ _ _ d Hcmp) as (ds' & Hds' & Hiff).
  { rewrite <- Hd2. by eapply list_elem_of_lookup_2. }
  rewrite Hds in Hds'. injection Hds' as <-.
  apply eligible2_true in Hel as [Hna _]. apply Hna, Hiff.
  by rewrite (verdict2_frame s1 s2 d Hf).
Qed.

(** The commands of an iteration are those of its [poweroff]. *)
Lemma cycle_command_elem t s1 s2 e2 e3 pi x :
  V2.compare t s1 = Ok (s2, e2) → is_Popen x = true →
  x ∈ e2 ++ e3 ++ [Sleep pi] ↔ x ∈ e3.
Proof.
  intros Hcmp Hp. rewrite !elem_of_app. split; [|by auto].
  intros [Hx|[Hx|Hx]]; [|done|].
  - apply commands_elem_of in Hx; [|done].
    rewrite (compare_no_command _ _ _ _ Hcmp) in Hx. by apply elem_of_nil in Hx.
  - by apply list_elem_of_singleton in Hx as ->.
Qed.

(** A device that the detector sees changed in a cycle, because its
    counters moved or because it is missing from this or the previous
    reading, gets no command in that cycle, whatever its state and its
    timestamp were; if it is tracked it ends the cycle Active. *)
Theorem changed_device_gets_no_command (t : Tick) (s s1 s' : V2.DisksPowerOff)
    (evs : list Event) (d : string) :
  V2.cycle t s = Ok (s', evs) →
  V2.poll (lines t) s = Ok s1 →
  V2.unchanged (V2.diskstats s1) (V2.diskstats_prev s1) d = false →
  (smartctl_cmd d ∉ evs) ∧ (hdparm_cmd d ∉ evs)
  ∧ (d ∈ V2.disks s →
     ∃ ds, V2.disk_states s' !! d = Some ds ∧ V2.state ds = ACTIVE).
Proof.
  intros (a1 & s2 & e2 & e3 & Hpoll & Hcmp & Hoff & _ & ->)%cycle_Ok Hpoll' Hv.
  rewrite Hpoll' in Hpoll. injection Hpoll as <-.
  apply poll_spec in Hpoll' as (Hd1 & _).
  pose proof (poweroff_loop _ _ _ _ _ _ Hoff) as (_ & Hrec & Hev).
  pose proof (changed_not_touched _ _ _ _ d Hcmp Hv) as Hnt.
  split; [|split].
  - rewrite (cycle_command_elem _ _ _ _ _ _ (smartctl_cmd d) Hcmp eq_refl). intros Hx.
    destruct (Hev _ Hx eq_refl) as (d' & [Heq|Heq] & Ht); [|done].
    by apply smartctl_cmd_inj in Heq as ->.
  - rewrite (cycle_command_elem _ _ _ _ _ _ (hdparm_cmd d) Hcmp eq_refl). intros Hx.
    destruct (Hev _ Hx eq_refl) as (d' & [Heq|Heq] & Ht); [done|].
    by apply hdparm_cmd_inj in Heq as ->.
  - intros Hd. destruct (compare_settles_tracked _ _ _ _ d Hcmp) as (ds & Hds & Hiff).
    { by rewrite Hd1. }
    exists ds. destruct (Hrec d) as [->|[? _]]; [|done]. split; [done|].
    apply Hiff. destruct (compare_pass _ _ _ _ d Hcmp) as (Hf & _).
    by rewrite (verdict2_frame s1 s2 d Hf).
Qed.

Lemma changed_device_gets_no_command_example :
  ∃ s' evs,
    V2.cycle (still_tick [counter_line "sda" "100" "201"] 5000 0 0)
      (sda_object ["sda"] POWEROFF) = Ok (s', evs)
    ∧ smartctl_cmd "sda" ∉ evs.
Proof.
  pose (t := still_tick [counter_line "sda" "100" "201"] 5000 0 0).
  pose (s := sda_object ["sda"] POWEROFF).
  destruct (V2.cycle t s) as [[s' evs]|] eqn:Hc; [|by vm_compute in Hc].
  destruct (V2.poll (lines t) s) as [s1|] eqn:Hp; [|by vm_compute in Hp].
  assert (V2.unchanged (V2.diskstats s1) (V2.diskstats_prev s1) "sda" = false) as Hv.
  { vm_compute in Hp. injection Hp as <-. by vm_compute. }
  destruct (changed_device_gets_no_command t s s1 s' evs "sda" Hc Hp Hv) as [Hq _].
  exists s', evs. split; [exact Hc|exact Hq].
Defined.

(** The first cycle after start-up starts no command: it makes every
    tracked device Active, with the clock reading of its first visit as
    timestamp. *)
Theorem first_cycle_activates (ds : list string) (timeout interval : Z) (t : Tick)
    (s' : V2.DisksPowerOff) (evs : list Event) :
  V2.cycle t (V2.fresh ds timeout interval) = Ok (s', evs) →
  commands evs = []
  ∧ ∀ d i, first_at d ds i →
      V2.disk_states s' !! d
        = Some {| V2.state := ACTIVE; V2.timestamp := now_compare t i |}.
Proof.
  intros (s1 & s2 & e2 & e3 & Hpoll & Hcmp & Hoff & _ & ->)%cycle_Ok.
  pose proof (poll_spec _ _ _ Hpoll) as (Hd1 & _ & _ & Hprev1 & Hst1 & _).
  simpl in Hd1, Hprev1, Hst1.
  assert (∀ d, verdict2 s1 d = false) as Hv.
  { intros d. unfold verdict2, V2.unchanged. rewrite Hprev1, lookup_empty.
    by destruct (V2.diskstats s1 !! d). }
  pose proof (poweroff_loop _ _ _ _ _ _ Hoff) as (_ & Hkeep & Hev).
  split.
  - apply no_popen_no_command. intros x Hx.
    destruct (is_Popen x) eqn:Hp; [|done]. exfalso.
    apply (proj1 (cycle_command_elem _ _ _ _ _ (V2.polling_interval s') _ Hcmp Hp)) in Hx.
    destruct (Hev _ Hx Hp) as (d & _ & Ht).
    by apply (changed_not_touched _ _ _ _ d Hcmp (Hv d)).
  - intros d i Hi.
    destruct (compare_pass _ _ _ _ d Hcmp) as (_ & _ & Hfirst).
    rewrite <- Hd1 in Hi. destruct (Hfirst i Hi) as (a & e & Hb & Hrec).
    rewrite compare_disk_changed_to_active in Hb;
      [|by apply Hv|intros ?; by rewrite Hst1, lookup_empty].
    injection Hb as <- _. simpl in Hrec. rewrite lookup_insert_eq in Hrec.
    destruct (Hkeep d) as [->|(Ht & _)]; [done|].
    by apply (changed_not_touched _ _ _ _ d Hcmp (Hv d)) in Ht.
Qed.

Lemma first_cycle_activates_example :
  ∃ s' evs,
    V2.cycle (still_tick [counter_line "sda" "100" "200"] 7 0 0)
      (V2.fresh ["sda"; "sdb"] 0 10) = Ok (s', evs)
    ∧ commands evs = []
    ∧ V2.disk_states s' !! "sdb" = Some {| V2.state := ACTIVE; V2.timestamp := 7 |}.
Proof.
  pose (t := still_tick [counter_line "sda" "100" "200"] 7 0 0).
  destruct (V2.cycle t (V2.fresh ["sda"; "sdb"] 0 10)) as [[s' evs]|] eqn:Hc;
    [|by vm_compute in Hc].
  destruct (first_cycle_activates ["sda"; "sdb"] 0 10 t s' evs Hc) as [Hcmd Hrec].
  exists s', evs. split; [exact Hc|]. split; [exact Hcmd|].
  apply (Hrec "sdb" 1%nat). split; [done|].
  simpl. intros [[=]|Hin%elem_of_nil]%elem_of_cons. done.
Defined.

(** ** How the loop ends *)



Lemma short_or_long (ls : list string) :
  Forall (λ line, (10 ≤ length (diskstats_fields line))%nat) ls →
  Exists (λ line, (length (diskstats_fields line) < 10)%nat) ls → False.
Proof.
  intros Hall Hex. apply Exists_exists in Hex as (line & Hin & Hlt).
  rewrite Forall_forall in Hall. specialize (Hall line Hin). lia.
Qed.

Lemma accepted_or_rejected (ts : list Tick) :
  Forall (λ t, sleep_rejected t = false) ts →
  Exists (λ t, sleep_rejected t = true) ts → False.
Proof.
  intros Hall Hex. apply Exists_exists in Hex as (t & Hin & Hr).
  rewrite Forall_forall in Hall. rewrite (Hall t Hin) in Hr. done.
Qed.



(** ** The log of state changes *)

Lemma logged2_seq d a e1 b e2 c :
  logged2 d a e1 b → logged2 d b e2 c → logged2 d a (e1 ++ e2) c.
Proof.
  intros Hab [Hbc|(ds & Hds & Hlog)].
  - destruct Hab as [Hab|(ds & Hds & Hlog)]; [left; congruence|].
    right. exists ds. split; [congruence|]. apply elem_of_app. by left.
  - right. exists ds. split; [done|]. apply elem_of_app. by right.
Qed.

Lemma log_names_app l e1 e2 : log_names l e1 → log_names l e2 → log_names l (e1 ++ e2).
Proof. intros H1 H2 p d lab [?|?]%elem_of_app; eauto. Qed.

Lemma log_names_nil l : log_names l [].
Proof. by intros p d lab ?%elem_of_nil. Qed.

Lemma compare_logged t s s' e d :
  V2.compare t s = Ok (s', e) → logged2 d s e s' ∧ log_names (V2.disks s) e.
Proof.
  unfold V2.compare.
  apply (for_each_rel _ (λ a e b, logged2 d a e b ∧ log_names (V2.disks s) e)).
  - intros a. split; [by left|apply log_names_nil].
  - intros a e1 b e2 c [? ?] [? ?].
    split; [by eapply logged2_seq|by apply log_names_app].
  - intros j x a b f Hj Hb.
    pose proof (compare_disk_cases (now_compare t (0 + j)) x a) as H.
    rewrite Hb in H. destruct H as (_ & [[-> ->]|(l & Hst & -> & _)] & _).
    { split; [by left|apply log_names_nil]. }
    split.
    + destruct (decide (x = d)) as [->|Hne].
      * right. eexists. rewrite Hst, lookup_insert_eq. split; [done|]. by left.
      * left. by rewrite Hst, lookup_insert_ne.
    + intros p d' lab [[= <- <- <-]|?%elem_of_nil]%elem_of_cons; [|done].
      split; [done|]. by eapply list_elem_of_lookup_2.
Qed.

Lemma poweroff_logged t s s' e d :
  V2.poweroff t s = Ok (s', e) → logged2 d s e s' ∧ log_names (V2.disks s) e.
Proof.
  unfold V2.poweroff.
  apply (for_each_rel _ (λ a e b, logged2 d a e b ∧ log_names (V2.disks s) e)).
  - intros a. split; [by left|apply log_names_nil].
  - intros a e1 b e2 c [? ?] [? ?].
    split; [by eapply logged2_seq|by apply log_names_app].
  - intros j x a b f Hj. rewrite poweroff_disk_eq.
    destruct (V2.disk_states a !! x) as [[l since]|] eqn:Hx.
    2:{ intros [= <- <-]. split; [by left|apply log_names_nil]. }
    destruct (eligible2 _ _ _).
    2:{ intros [= <- <-]. split; [by left|apply log_names_nil]. }
    intros [= <- <-]. unfold logged2. simpl. split.
    + destruct (decide (x = d)) as [->|Hne]; [|left; by rewrite lookup_insert_ne].
      rewrite lookup_insert_eq.
      destruct (decide (l = POWEROFF)) as [->|Hl].
      * left. by rewrite Hx.
      * right. eexists. split; [done|]. simpl. unfold attempt_events.
        rewrite (bool_decide_eq_true_2 (l ≠ POWEROFF)) by done.
        rewrite !elem_of_app. right. right. by left.
    + intros p d' lab Hin. unfold attempt_events, smartctl_cmd, hdparm_cmd in Hin.
      repeat case_bool_decide; simpl in Hin;
        repeat (apply elem_of_cons in Hin as [Heq|Hin];
                [first [discriminate
                       |simplify_eq; split; [done|]; by eapply list_elem_of_lookup_2]|]);
        by apply elem_of_nil in Hin.
Qed.

Lemma cycle_logged t s s' e d :
  V2.cycle t s = Ok (s', e) → logged2 d s e s' ∧ log_names (V2.disks s) e.
Proof.
  intros (s1 & s2 & e2 & e3 & Hpoll & Hcmp & Hoff & _ & ->)%cycle_Ok.
  apply poll_spec in Hpoll as (Hd1 & _ & _ & _ & Hst1 & _).
  destruct (compare_pass _ _ _ _ "" Hcmp) as ((Hd2 & _) & _).
  destruct (compare_logged _ _ _ _ d Hcmp) as [Hl2 Hn2].
  destruct (poweroff_logged _ _ _ _ d Hoff) as [Hl3 Hn3].
  rewrite Hd2, Hd1 in Hn3. rewrite Hd1 in Hn2. split.
  - rewrite app_assoc. eapply logged2_seq; [|by left].
    eapply logged2_seq; [|done].
    destruct Hl2 as [Hsame|Hlog]; [left; congruence|by right].
  - repeat apply log_names_app; try done.
    intros p d' lab [[=]|?%elem_of_nil]%elem_of_cons. done.
Qed.

Lemma run_logged ts d : ∀ s s' e,
  V2.run ts s = Ok (s', e) → logged2 d s e s' ∧ log_names (V2.disks s) e.
Proof.
  induction ts as [|t ts IH]; intros s s' e; simpl.
  - intros [= <- <-]. split; [by left|apply log_names_nil].
  - destruct (V2.cycle t s) as [[s1 e1]|] eqn:Hc; simpl; [|done].
    destruct (V2.run ts s1) as [[s2 e2]|] eqn:Hr; simpl; [|done].
    intros ?; simplify_eq.
    destruct (cycle_logged _ _ _ _ d Hc) as [Hl1 Hn1].
    destruct (IH _ _ _ Hr) as [Hl2 Hn2].
    apply cycle_frame in Hc as (Hd1 & _). rewrite Hd1 in Hn2.
    split; [by eapply logged2_seq|by apply log_names_app].
Qed.

(** The debug log follows the state machine.  Over any number of cycles,
    a device whose record at the end differs from its record at the start,
    in its label or in its timestamp, has a "state changed to" record in
    the log that names the label it ends with; so a device without such a
    record has kept its label and its timestamp.  And the log holds such
    records for tracked devices only, all at priority LOG_DEBUG. *)
Theorem state_changes_are_logged (ts : list Tick) (s s' : V2.DisksPowerOff)
    (evs : list Event) :
  V2.run ts s = Ok (s', evs) →
  (∀ d, V2.disk_states s' !! d = V2.disk_states s !! d
        ∨ ∃ ds, V2.disk_states s' !! d = Some ds
                ∧ Syslog LOG_DEBUG (StateChangedTo d (V2.state ds)) ∈ evs)
  ∧ (∀ p d l, Syslog p (StateChangedTo d l) ∈ evs → p = LOG_DEBUG ∧ d ∈ V2.disks s).
Proof.
  intros Hrun. split.
  - intros d. by destruct (run_logged _ d _ _ _ Hrun) as [? _].
  - by destruct (run_logged _ "" _ _ _ Hrun) as [_ ?].
Qed.

Lemma state_changes_are_logged_example :
  ∃ s' evs,
    V2.run [still_tick [counter_line "sda" "100" "200"] 1800 0 0;
            still_tick [counter_line "sda" "100" "201"] 1810 0 0]
      (sda_object ["sda"] IDLE) = Ok (s', evs)
    ∧ V2.disk_states s' !! "sda" = Some {| V2.state := ACTIVE; V2.timestamp := 1810 |}
    ∧ Syslog LOG_DEBUG (StateChangedTo "sda" ACTIVE) ∈ evs.
Proof.
  pose (ts := [still_tick [counter_line "sda" "100" "200"] 1800 0 0;
               still_tick [counter_line "sda" "100" "201"] 1810 0 0]).
  destruct (V2.run ts (sda_object ["sda"] IDLE)) as [[s' evs]|] eqn:Hrun;
    [|by vm_compute in Hrun].
  destruct (state_changes_are_logged ts _ s' evs Hrun) as [Hlog _].
  assert (V2.disk_states s' !! "sda"
          = Some {| V2.state := ACTIVE; V2.timestamp := 1810 |}) as Hrec.
  { vm_compute in Hrun. injection Hrun as <- _. by vm_compute. }
  exists s', evs. split; [exact Hrun|]. split; [exact Hrec|].
  destruct (Hlog "sda") as [Hsame|(ds & Hds & Hin)].
  - exfalso. rewrite Hrec in Hsame. vm_compute in Hsame. discriminate.
  - rewrite Hrec in Hds. injection Hds as <-. exact Hin.
Defined.

(** ** The older version: its loops, its flag and its state dump *)

Lemma frame1_refl s : frame1 s s.
Proof. by repeat split. Qed.

Lemma frame1_trans a b c : frame1 a b → frame1 b c → frame1 a c.
Proof. unfold frame1. intuition congruence. Qed.

Lemma verdict1_frame a b d : frame1 a b → verdict1 b d = verdict1 a d.
Proof. intros (_ & _ & _ & Hc & Hp). unfold verdict1. by rewrite Hc, Hp. Qed.

Lemma advance_refl v la : advance v la la.
Proof. intros d. by left. Qed.

Lemma advance_trans v la lb lc : advance v la lb → advance v lb lc → advance v la lc.
Proof.
  intros Hab Hbc d. destruct (Hab d) as [Hab'|Hab'], (Hbc d) as [Hbc'|Hbc'].
  - left. congruence.
  - right. by rewrite <- Hab'.
  - right. by rewrite Hbc'.
  - right. lia.
Qed.

Lemma advance_back v la lb : advance v la lb → advance v lb la → lb = la.
Proof.
  intros Hab Hba. apply map_eq. intros d.
  destruct (Hab d) as [?|?]; [done|]. destruct (Hba d) as [?|?]; [done|lia].
Qed.

Lemma advance_changed v la lb lc :
  advance v la lb → advance v lb lc →
  bool_decide (lc ≠ la) = bool_decide (lb ≠ la) || bool_decide (lc ≠ lb).
Proof.
  intros Hab Hbc.
  destruct (decide (lb = la)) as [->|Hne1].
  { rewrite (bool_decide_eq_false_2 (la ≠ la)) by (intros H; by apply H). done. }
  rewrite (bool_decide_eq_true_2 (lb ≠ la)) by done. simpl.
  apply bool_decide_eq_true_2. intros ->. apply Hne1.
  by eapply advance_back.
Qed.

Lemma loop_rel1_refl a : loop_rel1 a [] a.
Proof.
  split; [apply frame1_refl|]. split; [apply advance_refl|]. split; [|done].
  rewrite (bool_decide_eq_false_2 (labels1 a ≠ labels1 a)) by (intros H; by apply H).
  by rewrite orb_false_r.
Qed.

Lemma loop_rel1_seq a e1 b e2 c :
  loop_rel1 a e1 b → loop_rel1 b e2 c → loop_rel1 a (e1 ++ e2) c.
Proof.
  intros (Hf1 & Ha1 & Hd1 & He1) (Hf2 & Ha2 & Hd2 & He2).
  assert (advance (verdict1 a) (labels1 b) (labels1 c)) as Ha2'.
  { intros d. specialize (Ha2 d). by rewrite (verdict1_frame a b) in Ha2. }
  split; [by eapply frame1_trans|]. split; [by eapply advance_trans|]. split.
  - rewrite Hd2, Hd1, <- orb_assoc. f_equal. symmetry. by eapply advance_changed.
  - by rewrite filter_app, He1, He2.
Qed.

(** One device's record changes, the others stay: the label maps differ
    exactly if the label of that device does. *)
Lemma labels1_step s s' d :
  (∀ d', d' ≠ d → V1.disk_statuses s' !! d' = V1.disk_statuses s !! d') →
  bool_decide (labels1 s' ≠ labels1 s) = bool_decide (labels1 s' !! d ≠ labels1 s !! d).
Proof.
  intros Hothers. apply bool_decide_ext. split.
  - intros Hne Heq. apply Hne. apply map_eq. intros d'.
    destruct (decide (d' = d)) as [->|Hd']; [done|].
    unfold labels1. by rewrite !lookup_fmap, Hothers.
  - intros Hne Heq. apply Hne. by rewrite Heq.
Qed.

Lemma advance_step v s s' d :
  (∀ d', d' ≠ d → V1.disk_statuses s' !! d' = V1.disk_statuses s !! d') →
  (labels1 s' !! d = labels1 s !! d
   ∨ (rank (v d) (labels1 s !! d) < rank (v d) (labels1 s' !! d))%nat) →
  advance v (labels1 s) (labels1 s').
Proof.
  intros Hothers Hd d'. destruct (decide (d' = d)) as [->|Hd']; [done|].
  left. unfold labels1. by rewrite !lookup_fmap, Hothers.
Qed.

(** The body of the older [compare] never raises. *)
Lemma compare_disk1_step now d s :
  ∃ s', V1.compare_disk now d s = Ok (s', []) ∧ loop_rel1 s [] s'.
Proof.
  assert (∀ s', frame1 s s' →
            (∀ d', d' ≠ d → V1.disk_statuses s' !! d' = V1.disk_statuses s !! d') →
            (labels1 s' !! d = labels1 s !! d
             ∨ (rank (verdict1 s d) (labels1 s !! d)
                < rank (verdict1 s d) (labels1 s' !! d))%nat) →
            V1.dump_log s' = V1.dump_log s || bool_decide (labels1 s' !! d ≠ labels1 s !! d) →
            loop_rel1 s [] s') as Hrel.
  { intros s' Hf Hothers Hd Hflag. split; [done|].
    split; [by eapply advance_step|]. split; [|done].
    by rewrite (labels1_step s s' d). }
  unfold V1.compare_disk. fold (verdict1 s d).
  unfold V1.status_label. fold (labels1 s). 
  assert (V1.status_label s d = labels1 s !! d) as Hlab.
  { unfold V1.status_label, labels1. by rewrite lookup_fmap. }
  unfold V1.status_label in Hlab. rewrite !Hlab.
  destruct (verdict1 s d) eqn:Hv.
  - destruct (labels1 s !! d) as [[]|] eqn:Hl; simpl;
      eexists; (split; [done|]); try apply loop_rel1_refl;
      apply Hrel; simpl; try done;
      try (intros d' Hd'; by rewrite lookup_insert_ne);
      unfold labels1; simpl; rewrite ?lookup_fmap, ?lookup_insert_eq; simpl;
      fold (labels1 s); rewrite ?Hl; simpl; rewrite ?orb_true_r; auto with lia.
  - destruct (labels1 s !! d) as [[]|] eqn:Hl; simpl;
      eexists; (split; [done|]);
      apply Hrel; simpl; try done;
      try (intros d' Hd'; by rewrite lookup_insert_ne);
      unfold labels1; simpl; rewrite ?lookup_fmap, ?lookup_insert_eq; simpl;
      fold (labels1 s); rewrite ?Hl; simpl; rewrite ?orb_true_r, ?orb_false_r; auto with lia.
Qed.

(** The body of the older [poweroff] never raises: the record it writes
    to is there whenever the test on the label has passed. *)
Lemma poweroff_disk1_step now rs rh d s :
  ∃ s' e, V1.poweroff_disk now rs rh d s = Ok (s', e) ∧ loop_rel1 s e s'.
Proof.
  assert (∀ s' e, frame1 s s' →
            (∀ d', d' ≠ d → V1.disk_statuses s' !! d' = V1.disk_statuses s !! d') →
            (labels1 s' !! d = labels1 s !! d
             ∨ (rank (verdict1 s d) (labels1 s !! d)
                < rank (verdict1 s d) (labels1 s' !! d))%nat) →
            V1.dump_log s' = V1.dump_log s || bool_decide (labels1 s' !! d ≠ labels1 s !! d) →
            filter (λ x, is_dump x = true) e = [] →
            loop_rel1 s e s') as Hrel.
  { intros s' e Hf Hothers Hd Hflag He. split; [done|].
    split; [by eapply advance_step|]. split; [|done].
    by rewrite (labels1_step s s' d). }
  unfold V1.poweroff_disk, dict_getitem.
  assert (labels1 s !! d = fst <$> V1.disk_statuses s !! d) as Hlab.
  { unfold labels1. by rewrite lookup_fmap. }
  destruct (V1.disk_statuses s !! d) as [[l since]|] eqn:Hst; simpl in *.
  2:{ exists s, []. split; [done|]. apply loop_rel1_refl. }
  destruct (V1.timeout s <=? now - since); rewrite ?andb_false_r, ?andb_true_r.
  2:{ exists s, []. split; [done|]. apply loop_rel1_refl. }
  destruct l; simpl.
  - exists s, []. split; [done|]. apply loop_rel1_refl.
  - rewrite Hst. simpl. eexists _, _. split; [done|].
    apply Hrel; simpl; try done.
    + intros d' Hd'. by rewrite lookup_insert_ne.
    + right. rewrite Hlab. unfold labels1. simpl.
      rewrite lookup_fmap, lookup_insert_eq. simpl.
      destruct (verdict1 s d); simpl; lia.
    + rewrite Hlab. unfold labels1. simpl.
      rewrite lookup_fmap, lookup_insert_eq. simpl.
      by rewrite orb_true_r.
    + by repeat case_bool_decide.
  - rewrite Hst. simpl. eexists _, _. split; [done|].
    apply Hrel; simpl; try done.
    + intros d' Hd'. by rewrite lookup_insert_ne.
    + left. rewrite Hlab. unfold labels1. simpl.
      by rewrite lookup_fmap, lookup_insert_eq.
    + rewrite Hlab. unfold labels1. simpl.
      rewrite lookup_fmap, lookup_insert_eq. simpl.
      by rewrite orb_false_r.
    + by repeat case_bool_decide.
Qed.

Lemma compare1_loop t s :
  ∃ s' e, V1.compare t s = Ok (s', e) ∧ loop_rel1 s e s'.
Proof.
  unfold V1.compare.
  destruct (for_each_total (λ i, V1.compare_disk (now_compare t i)) (λ _, True)
              (V1.disks s) 0%nat s) as (s' & e & Hrun & _); [|done|].
  { intros i d a _ _. destruct (compare_disk1_step (now_compare t i) d a) as (b & Hb & _).
    by exists b, []. }
  exists s', e. split; [done|]. revert Hrun.
  apply (for_each_rel _ loop_rel1).
  - apply loop_rel1_refl.
  - apply loop_rel1_seq.
  - intros j d a b f _ Hb.
    destruct (compare_disk1_step (now_compare t (0 + j)) d a) as (b' & Hb' & Hrel).
    rewrite Hb in Hb'. by simplify_eq.
Qed.

Lemma poweroff1_loop t s :
  ∃ s' e, V1.poweroff t s = Ok (s', e) ∧ loop_rel1 s e s'.
Proof.
  unfold V1.poweroff.
  destruct (for_each_total
              (λ i, V1.poweroff_disk (now_poweroff t i) (smartctl_rc t i) (hdparm_rc t i))
              (λ _, True) (V1.disks s) 0%nat s) as (s' & e & Hrun & _); [|done|].
  { intros i d a _ _.
    destruct (poweroff_disk1_step (now_poweroff t i) (smartctl_rc t i) (hdparm_rc t i) d a)
      as (b & f & Hb & _).
    by exists b, f. }
  exists s', e. split; [done|]. revert Hrun.
  apply (for_each_rel _ loop_rel1).
  - apply loop_rel1_refl.
  - apply loop_rel1_seq.
  - intros j d a b f _ Hb.
    destruct (poweroff_disk1_step (now_poweroff t (0 + j)) (smartctl_rc t (0 + j))
                (hdparm_rc t (0 + j)) d a) as (b' & f' & Hb' & Hrel).
    rewrite Hb in Hb'. by simplify_eq.
Qed.

(** [poll] of the older version: what it keeps, and when it raises. *)
Lemma poll_lines1_spec ls : ∀ s,
  (Forall (λ line, (10 ≤ length (diskstats_fields line))%nat) ls
   ∧ ∃ s', V1.poll_lines ls s = Ok s'
           ∧ V1.disks s' = V1.disks s ∧ V1.timeout s' = V1.timeout s
           ∧ V1.polling_interval s' = V1.polling_interval s
           ∧ V1.disk_statuses s' = V1.disk_statuses s
           ∧ V1.dump_log s' = V1.dump_log s)
  ∨ (Exists (λ line, (length (diskstats_fields line) < 10)%nat) ls
     ∧ V1.poll_lines ls s = Raise IndexError).
Proof.
  induction ls as [|line ls IH]; intros s; simpl.
  - left. split; [done|]. by exists s.
  - unfold V1.poll_line.
    destruct (decide (length (diskstats_fields line) < 10)%nat) as [Hshort|Hlong].
    + right. split; [by left|]. by rewrite parse_diskstats_line_Raise.
    + destruct (parse_diskstats_line_Ok line) as (name & r & w & -> & _); [lia|].
      simpl. case_bool_decide; simpl.
      * destruct (IH (V1.set_diskstats (<[name := [r; w]]> (V1.diskstats s)) s))
          as [[Hall (s' & Hok & Hkeep)]|[Hex Hr]].
        -- left. split; [constructor; [lia|done]|]. by exists s'.
        -- right. split; [by right|done].
      * destruct (IH s) as [[Hall Hok]|[Hex Hr]].
        -- left. split; [constructor; [lia|done]|]. done.
        -- right. split; [by right|done].
Qed.

(** One iteration of the older loop, from any object. *)
Lemma cycle1_outcome t s :
  match V1.cycle t s with
  | Ok (s', evs) =>
      Forall (λ line, (10 ≤ length (diskstats_fields line))%nat) (lines t)
      ∧ (0 ≤ V1.polling_interval s ≤ SLEEP_MAX ∧ sleep_rejected t = false)
      ∧ V1.polling_interval s' = V1.polling_interval s
      ∧ V1.dump_log s' = false
      ∧ (V1.dump_log s = false →
         filter (λ x, is_dump x = true) evs
         = if bool_decide (labels1 s' ≠ labels1 s)
           then [Syslog LOG_INFO (DisksStateChanged (labels1 s'))] else [])
  | Raise x =>
      x = IndexError
      ∧ Exists (λ line, (length (diskstats_fields line) < 10)%nat) (lines t)
      ∨ Forall (λ line, (10 ≤ length (diskstats_fields line))%nat) (lines t)
        ∧ time_sleep (sleep_rejected t) (V1.polling_interval s) = Raise x
  end.
Proof.
  unfold V1.cycle, V1.poll.
  destruct (poll_lines1_spec (lines t)
              (V1.set_diskstats ∅ (V1.set_diskstats_prev (V1.diskstats s) s)))
    as [[Hwf (a & -> & Hda & Hta & Hpia & Hsta & Hdla)]|[Hshort ->]]; [|by left].
  simpl in *.
  destruct (compare1_loop t a) as (b & f & -> & Hab). simpl.
  destruct (poweroff1_loop t b) as (c & g & -> & Hbc). simpl.
  pose proof (loop_rel1_seq _ _ _ _ _ Hab Hbc) as ((_ & _ & Hpic & _) & _ & Hflag & Hnd).
  assert (labels1 a = labels1 s) as Hla by (unfold labels1; by rewrite Hsta).
  rewrite Hla, Hdla in Hflag.
  unfold V1.dump, V1.sleep.
  destruct (V1.dump_log c) eqn:Hdl; simpl; rewrite Hpic, Hpia;
    (destruct (time_sleep (sleep_rejected t) (V1.polling_interval s)) as [ev|x]
       eqn:Hsl; simpl; [|by right]);
    apply time_sleep_Ok in Hsl as [Hok ->].
  - split; [done|]. split; [done|]. split; [congruence|]. split; [done|].
    intros Hs. rewrite Hs in Hflag. simpl in Hflag.
    change (labels1 (V1.set_dump_log false c)) with (labels1 c).
    rewrite <- Hflag, app_assoc, filter_app, Hnd. done.
  - split; [done|]. split; [done|]. split; [congruence|]. split; [done|].
    intros Hs. rewrite Hs in Hflag. simpl in Hflag.
    rewrite <- Hflag, app_assoc, filter_app, Hnd. done.
Qed.

Lemma run1_outcome ts : ∀ s,
  match V1.run ts s with
  | Ok _ =>
      Forall (λ t, Forall (λ line, (10 ≤ length (diskstats_fields line))%nat) (lines t)) ts
      ∧ Forall (λ t, sleep_rejected t = false) ts
      ∧ (ts = [] ∨ 0 ≤ V1.polling_interval s ≤ SLEEP_MAX)
  | Raise x =>
      x = IndexError
      ∧ Exists (λ t, Exists (λ line, (length (diskstats_fields line) < 10)%nat) (lines t)) ts
      ∨ x = OverflowError
        ∧ (V1.polling_interval s < - SLEEP_MAX ∨ SLEEP_MAX < V1.polling_interval s)
      ∨ x = ValueError ∧ - SLEEP_MAX ≤ V1.polling_interval s < 0
      ∨ x = OSError ∧ 0 ≤ V1.polling_interval s ≤ SLEEP_MAX
        ∧ Exists (λ t, sleep_rejected t = true) ts
  end.
Proof.
  induction ts as [|t ts IH]; intros s; simpl; [by auto|].
  pose proof (cycle1_outcome t s) as Hc.
  destruct (V1.cycle t s) as [[a e]|x]; simpl.
  - destruct Hc as (Hwf & [Hpi Hrej] & Hpia & _). specialize (IH a).
    rewrite Hpia in IH.
    destruct (V1.run ts a) as [[b f]|y]; simpl.
    + destruct IH as (Hall & Hacc & _).
      split; [by constructor|]. split; [by constructor|by right].
    + destruct IH as [[-> Hex]|[[-> H]|[[-> H]|(-> & H & Hex)]]].
      * left. split; [done|by right].
      * right. left. done.
      * right. right. left. done.
      * right. right. right. split; [done|]. split; [done|by right].
  - destruct Hc as [[-> Hex]|[Hwf Hsl]]; [left; split; [done|by left]|].
    right. pose proof (time_sleep_cases (sleep_rejected t) (V1.polling_interval s)) as H.
    rewrite Hsl in H. destruct H as [?|[?|(-> & ? & Hr)]]; [by left|by right; left|].
    right. right. split; [done|]. split; [done|by left].
Qed.

(** The older loop, started on any object whatever, goes on for as long as
    every counter line has ten fields, the polling interval is a length
    [time.sleep] takes, from 0 to [SLEEP_MAX], and the operating system
    accepts the sleeps.  It ends only with [IndexError], on a shorter
    line, or with the exception of [time.sleep]: [OverflowError] for an
    interval beyond [SLEEP_MAX] on either side, [ValueError] for a
    negative one within, [OSError] for a sleep the system rejects.  It
    never raises [KeyError]: its [compare] reads the statuses with [get],
    and its [poweroff] indexes them only behind a test that a missing
    status fails. *)
Theorem older_run_outcome (ts : list Tick) (s : V1.DisksPowerOff) :
  (Forall (λ t, Forall (λ line, (10 ≤ length (diskstats_fields line))%nat) (lines t)) ts
   ∧ Forall (λ t, sleep_rejected t = false) ts
   ∧ 0 ≤ V1.polling_interval s ≤ SLEEP_MAX → ∃ s' evs, V1.run ts s = Ok (s', evs))
  ∧ (∀ x, V1.run ts s = Raise x →
       x = IndexError
       ∧ Exists (λ t, Exists (λ line, (length (diskstats_fields line) < 10)%nat) (lines t)) ts
       ∨ x = OverflowError
         ∧ (V1.polling_interval s < - SLEEP_MAX ∨ SLEEP_MAX < V1.polling_interval s)
       ∨ x = ValueError ∧ - SLEEP_MAX ≤ V1.polling_interval s < 0
       ∨ x = OSError ∧ 0 ≤ V1.polling_interval s ≤ SLEEP_MAX
         ∧ Exists (λ t, sleep_rejected t = true) ts).
Proof.
  pose proof (run1_outcome ts s) as H. split.
  - intros (Hall & Hacc & Hpi). destruct (V1.run ts s) as [[s' evs]|x]; [by eauto|].
    exfalso. unfold SLEEP_MAX in *.
    destruct H as [[_ Hex]|[[_ H]|[[_ H]|(_ & _ & Hex)]]]; [|lia|lia|].
    + apply Exists_exists in Hex as (t & Hin & Hex).
      rewrite Forall_forall in Hall. by eapply short_or_long; [apply Hall|].
    + by eapply accepted_or_rejected.
  - intros x Hx. by rewrite Hx in H.
Qed.

(** In the older version an iteration that starts with the flag
    [dump_log] down writes one state dump if the label of some device has
    changed in it, a first label counting as a change, and none if every
    label is as it was; the dump holds the labels as they are at the end
    of the iteration, and the flag is down again when the iteration ends. *)
Theorem state_dump_reports_changes (t : Tick) (s s' : V1.DisksPowerOff)
    (evs : list Event) :
  V1.dump_log s = false →
  V1.cycle t s = Ok (s', evs) →
  V1.dump_log s' = false
  ∧ filter (λ x, is_dump x = true) evs
    = if bool_decide (labels1 s' ≠ labels1 s)
      then [Syslog LOG_INFO (DisksStateChanged (labels1 s'))] else [].
Proof.
  intros Hs Hc. pose proof (cycle1_outcome t s) as H. rewrite Hc in H.
  destruct H as (_ & _ & _ & Hflag & Hdump). auto.
Qed.

Lemma state_dump_reports_changes_example :
  ∃ s' evs,
    V1.cycle (still_tick [] 1 0 0) (V1.fresh ["sda"] 1800 10) = Ok (s', evs)
    ∧ V1.dump_log s' = false
    ∧ labels1 s' !! "sda" = Some ACTIVE
    ∧ filter (λ x, is_dump x = true) evs
      = [Syslog LOG_INFO (DisksStateChanged (labels1 s'))].
Proof.
  pose (t := still_tick [] 1 0 0). pose (s := V1.fresh ["sda"] 1800 10).
  destruct (V1.cycle t s) as [[s' evs]|] eqn:Hc; [|by vm_compute in Hc].
  destruct (state_dump_reports_changes t s s' evs eq_refl Hc) as [Hflag Hdump].
  assert (labels1 s' !! "sda" = Some ACTIVE) as Hl.
  { vm_compute in Hc. injection Hc as <- _. by vm_compute. }
  exists s', evs. split; [exact Hc|]. split; [exact Hflag|]. split; [exact Hl|].
  rewrite bool_decide_eq_true_2 in Hdump; [exact Hdump|].
  intros Heq. rewrite Heq in Hl. vm_compute in Hl. discriminate.
Defined.

(** ** Exactly which commands a cycle starts *)

(** A record that passes the test after some visits of [poweroff] passed
    it before them: the visits change labels to POWEROFF only, on records
    that pass the test. *)
Lemma eligible_back t k l s1 e s2 d now ds2 :
  poweroff_rel2 t k l s1 e s2 →
  V2.disk_states s2 !! d = Some ds2 → eligible2 s2 now ds2 = true →
  ∃ ds1, V2.disk_states s1 !! d = Some ds1 ∧ eligible2 s1 now ds1 = true.
Proof.
  intros (Hf & Hrec & _) Hds2 Hel.
  destruct (Hrec d) as [Hsame|((j & ds' & _ & Hds' & Hel') & ds & Hds & Hds2')].
  - exists ds2. rewrite <- Hsame. by rewrite <- (eligible2_frame s1 s2).
  - exists ds. split; [done|]. rewrite Hds in Hds'. injection Hds' as <-.
    rewrite Hds2 in Hds2'. injection Hds2' as ->.
    rewrite (eligible2_frame s1 s2) in Hel by done.
    apply eligible2_true in Hel as [_ Hto]. apply eligible2_true in Hel' as [Hna _].
    apply eligible2_true. done.
Qed.

Lemma attempt_events_hdparm rs rh x l d :
  hdparm_cmd d ∈ attempt_events rs rh x l → x = d ∧ rs ≠ 2.
Proof.
  unfold attempt_events, smartctl_cmd, hdparm_cmd. intros Hin.
  repeat case_bool_decide; simpl in Hin;
    repeat (apply elem_of_cons in Hin as [Heq|Hin];
            [first [discriminate|by simplify_eq]|]);
    by apply elem_of_nil in Hin.
Qed.

(** A spin-down command comes from a visit at which the device passes the
    test and the query does not exit with 2. *)
Lemma spin_down_origin t l : ∀ k s s' evs d,
  for_each (λ i, V2.poweroff_disk (now_poweroff t i) (smartctl_rc t i) (hdparm_rc t i))
    k l s = Ok (s', evs) →
  hdparm_cmd d ∈ evs →
  ∃ j ds, l !! j = Some d ∧ V2.disk_states s !! d = Some ds
          ∧ eligible2 s (now_poweroff t (k + j)) ds = true
          ∧ smartctl_rc t (k + j)%nat ≠ 2.
Proof.
  induction l as [|x l IH]; intros k s s' evs d Hrun Hin.
  { injection Hrun as _ <-. by apply elem_of_nil in Hin. }
  pose proof Hrun as (s1 & e1 & e2 & Hb & Hr & ->)%for_each_cons_Ok.
  apply elem_of_app in Hin as [Hin|Hin].
  - rewrite poweroff_disk_eq in Hb.
    destruct (V2.disk_states s !! x) as [ds|] eqn:Hds.
    2:{ simplify_eq. by apply elem_of_nil in Hin. }
    destruct (eligible2 s (now_poweroff t k) ds) eqn:Hel.
    2:{ simplify_eq. by apply elem_of_nil in Hin. }
    simplify_eq. apply attempt_events_hdparm in Hin as [-> Hrc].
    exists 0%nat, ds. rewrite Nat.add_0_r. done.
  - destruct (IH _ _ _ _ _ Hr Hin) as (j & ds1 & Hj & Hds1 & Hel & Hrc).
    assert (poweroff_rel2 t k [x] s e1 s1) as Hrel.
    { apply poweroff_loop. simpl. rewrite Hb. simpl. by rewrite app_nil_r. }
    destruct (eligible_back _ _ _ _ _ _ _ _ _ Hrel Hds1 Hel) as (ds & Hds & Hel').
    exists (S j), ds. replace (k + S j)%nat with (S k + j)%nat by lia. done.
Qed.

(** A device with a record at the start of an iteration, met first at
    position [i] of the tracked list, is queried in the iteration exactly if
    its counters are unchanged and, at some position [j] where it stands,
    the clock of [poweroff] is at least the timeout past the moment it
    became idle: the timestamp it had if it was Idle or PoweredOff, the
    clock [compare] read at position [i] if it was Active.  It gets the
    spin-down command exactly if, at such a position, the query does not
    exit with 2. *)
Theorem commands_of_a_cycle (t : Tick) (s s1 s' : V2.DisksPowerOff)
    (evs : list Event) (d : string) (ds : V2.DiskState) (i : nat) :
  V2.cycle t s = Ok (s', evs) →
  V2.poll (lines t) s = Ok s1 →
  first_at d (V2.disks s) i →
  V2.disk_states s !! d = Some ds →
  (smartctl_cmd d ∈ evs ↔
     V2.unchanged (V2.diskstats s1) (V2.diskstats_prev s1) d = true
     ∧ ∃ j, V2.disks s !! j = Some d
            ∧ V2.timeout s ≤ now_poweroff t j
                - (if decide (V2.state ds = ACTIVE) then now_compare t i
                   else V2.timestamp ds))
  ∧ (hdparm_cmd d ∈ evs ↔
       V2.unchanged (V2.diskstats s1) (V2.diskstats_prev s1) d = true
       ∧ ∃ j, V2.disks s !! j = Some d
              ∧ V2.timeout s ≤ now_poweroff t j
                  - (if decide (V2.state ds = ACTIVE) then now_compare t i
                     else V2.timestamp ds)
              ∧ smartctl_rc t j ≠ 2).
Proof.
  intros (a1 & s2 & e2 & e3 & Hpoll & Hcmp & Hoff & _ & ->)%cycle_Ok Hpoll' Hi Hds.
  rewrite Hpoll' in Hpoll. injection Hpoll as <-.
  apply poll_spec in Hpoll' as (Hd1 & Ht1 & _ & _ & Hst1 & _).
  destruct (compare_pass _ _ _ _ d Hcmp) as (Hf & _ & Hfirst).
  pose proof Hf as (Hd2 & Ht2 & _).
  fold (verdict2 s1 d).
  rewrite (cycle_command_elem _ _ _ _ _ _ (smartctl_cmd d) Hcmp eq_refl).
  rewrite (cycle_command_elem _ _ _ _ _ _ (hdparm_cmd d) Hcmp eq_refl).
  pose proof (poweroff_loop _ _ _ _ _ _ Hoff) as (_ & _ & Hev).
  destruct (verdict2 s1 d) eqn:Hv.
  2:{ pose proof (changed_not_touched _ _ _ _ d Hcmp Hv) as Hnt.
      split; (split; [|by intros [? _]]); intros Hx; exfalso;
        destruct (Hev _ Hx eq_refl) as (d' & [Heq|Heq] & Ht); try done.
      - by apply smartctl_cmd_inj in Heq as ->.
      - by apply hdparm_cmd_inj in Heq as ->. }
  (* the record [compare] leaves *)
  assert (∃ ds2, V2.disk_states s2 !! d = Some ds2 ∧ V2.state ds2 ≠ ACTIVE
                 ∧ V2.timestamp ds2 = (if decide (V2.state ds = ACTIVE)
                                       then now_compare t i else V2.timestamp ds))
    as (ds2 & Hds2 & Hna2 & Hts2).
  { rewrite <- Hd1 in Hi. destruct (Hfirst i Hi) as (sx & ex & Hb & ->).
    rewrite <- Hst1 in Hds. case_decide as Ha.
    - rewrite (compare_disk_unchanged_active _ _ _ ds) in Hb by done.
      injection Hb as <- _. simpl. rewrite lookup_insert_eq. by eexists.
    - rewrite (compare_disk_unchanged_idle _ _ _ ds) in Hb by done.
      injection Hb as <- _. by exists ds. }
  rewrite <- Hts2.
  assert (∀ j, eligible2 s2 (now_poweroff t j) ds2 = true
               ↔ V2.timeout s ≤ now_poweroff t j - V2.timestamp ds2) as Hel.
  { intros j. rewrite eligible2_true, Ht2, Ht1. by intuition. }
  split; split.
  - intros Hx. split; [done|].
    destruct (Hev _ Hx eq_refl) as (d' & [Heq|Heq] & (j & ds' & Hj & Hds' & Hel'));
      [|done].
    apply smartctl_cmd_inj in Heq as <-. exists j.
    rewrite Hds2 in Hds'. injection Hds' as <-.
    split; [by rewrite <- Hd1, <- Hd2|]. by apply Hel.
  - intros (_ & j & Hj & Hto).
    rewrite <- Hd1, <- Hd2 in Hj. apply Hel in Hto.
    destruct (poweroff_at _ _ _ _ _ _ _ Hoff Hj Hds2 Hto) as (f1 & l & f3 & -> & _).
    rewrite !elem_of_app. right. left. unfold attempt_events. by left.
  - intros Hx. split; [done|]. unfold V2.poweroff in Hoff.
    destruct (spin_down_origin _ _ _ _ _ _ _ Hoff Hx) as (j & ds' & Hj & Hds' & Hel' & Hrc).
    simpl in Hel', Hrc. exists j. rewrite Hds2 in Hds'. injection Hds' as <-.
    split; [by rewrite <- Hd1, <- Hd2|]. split; [by apply Hel|done].
  - intros (_ & j & Hj & Hto & Hrc).
    rewrite <- Hd1, <- Hd2 in Hj. apply Hel in Hto.
    destruct (poweroff_at _ _ _ _ _ _ _ Hoff Hj Hds2 Hto) as (f1 & l & f3 & -> & _).
    rewrite !elem_of_app. right. left. unfold attempt_events.
    rewrite (bool_decide_eq_true_2 (smartctl_rc t j ≠ 2)) by done.
    rewrite !elem_of_app. right. left. by left.
Qed.

Lemma commands_of_a_cycle_example :
  ∃ s' evs,
    V2.cycle (still_tick [counter_line "sda" "100" "200"] 1800 0 0)
      (sda_object ["sda"; "sda"] ACTIVE) = Ok (s', evs)
    ∧ smartctl_cmd "sda" ∉ evs.
Proof.
  pose (t := still_tick [counter_line "sda" "100" "200"] 1800 0 0).
  pose (s := sda_object ["sda"; "sda"] ACTIVE).
  destruct (V2.cycle t s) as [[s' evs]|] eqn:Hc; [|by vm_compute in Hc].
  destruct (V2.poll (lines t) s) as [s1|] eqn:Hp; [|by vm_compute in Hp].
  destruct (commands_of_a_cycle t s s1 s' evs "sda"
              {| V2.state := ACTIVE; V2.timestamp := 0 |} 0 Hc Hp) as [Hq _].
  - split; [reflexivity|]. simpl. apply not_elem_of_nil.
  - reflexivity.
  - exists s', evs. split; [exact Hc|]. intros Hx.
    apply Hq in Hx as (_ & j & _ & Hto). simpl in Hto. vm_compute in Hto. by apply Hto.
Defined.

(** ** The older version: the timestamp of an active device *)

Lemma last_at_exists (d : string) (l : list string) :
  d ∈ l → ∃ j, l !! j = Some d ∧ (d ∉ drop (S j) l).
Proof.
  induction l as [|x l IH]; [by intros ?%elem_of_nil|].
  intros Hin. destruct (decide (d ∈ l)) as [Hl|Hl].
  - destruct (IH Hl) as (j & Hj & Hd). by exists (S j).
  - apply elem_of_cons in Hin as [->|?]; [|done]. by exists 0%nat.
Qed.

Lemma compare_disk1_other now x s s' e d :
  V1.compare_disk now x s = Ok (s', e) → x ≠ d →
  V1.disk_statuses s' !! d = V1.disk_statuses s !! d.
Proof.
  unfold V1.compare_disk. intros Hb Hne.
  repeat case_match; simplify_eq; simpl; by rewrite ?lookup_insert_ne.
Qed.

Lemma compare1_loop_absent t l : ∀ k s s' e d,
  for_each (λ i, V1.compare_disk (now_compare t i)) k l s = Ok (s', e) → d ∉ l →
  V1.disk_statuses s' !! d = V1.disk_statuses s !! d.
Proof.
  intros k s s' e d Hrun Hd. revert Hrun.
  apply (for_each_rel _ (λ a _ b, V1.disk_statuses b !! d = V1.disk_statuses a !! d)).
  - done.
  - intros a _ b _ c. congruence.
  - intros j x a b f Hj Hb. eapply compare_disk1_other; [done|].
    intros ->. by apply list_elem_of_lookup_2 in Hj.
Qed.

Lemma compare1_loop_frame t l : ∀ k s s' e,
  for_each (λ i, V1.compare_disk (now_compare t i)) k l s = Ok (s', e) → frame1 s s'.
Proof.
  intros k s s' e.
  apply (for_each_rel _ (λ a _ b, frame1 a b)).
  - apply frame1_refl.
  - intros a _ b _ c. apply frame1_trans.
  - intros j x a b f _ Hb.
    destruct (compare_disk1_step (now_compare t (k + j)) x a) as (b' & Hb' & Hf & _).
    rewrite Hb in Hb'. by simplify_eq.
Qed.

(** The older [compare] gives a tracked device with a changed verdict a
    fresh timestamp whatever its label was, an Active device included: the
    clock reading of the last position at which the device stands in the
    tracked list. *)
Theorem older_compare_refreshes_timestamp (t : Tick) (s s' : V1.DisksPowerOff)
    (e : list Event) (d : string) :
  V1.compare t s = Ok (s', e) →
  d ∈ V1.disks s →
  V1.unchanged (V1.diskstats s) (V1.diskstats_prev s) d = false →
  ∃ j, V1.disks s !! j = Some d ∧ (d ∉ drop (S j) (V1.disks s))
       ∧ V1.disk_statuses s' !! d = Some (ACTIVE, now_compare t j).
Proof.
  unfold V1.compare. intros Hrun (j & Hj & Hlast)%last_at_exists Hv.
  exists j. split; [done|]. split; [done|].
  destruct (for_each_lookup _ _ _ _ _ _ _ _ Hrun Hj)
    as (s1 & e1 & s2 & e2 & e3 & H1 & H2 & H3 & _).
  rewrite (compare1_loop_absent _ _ _ _ _ _ d H3 Hlast).
  apply compare1_loop_frame in H1. simpl in H2.
  unfold V1.compare_disk in H2. fold (verdict1 s1 d) in H2.
  rewrite (verdict1_frame s s1) in H2 by done. unfold verdict1 in H2.
  rewrite Hv in H2. injection H2 as <- _. simpl.
  case_bool_decide; simpl; by rewrite lookup_insert_eq.
Qed.

Lemma older_compare_refreshes_timestamp_example :
  ∃ s' e,
    V1.compare (still_tick [] 5 0 0)
      {| V1.disks := ["sda"]; V1.timeout := 1800; V1.polling_interval := 5;
         V1.diskstats := {[ "sda" := ["100"; "201"] ]};
         V1.diskstats_prev := {[ "sda" := ["100"; "200"] ]};
         V1.disk_statuses := {[ "sda" := (ACTIVE, 1) ]}; V1.dump_log := false |}
      = Ok (s', e)
    ∧ V1.disk_statuses s' !! "sda" = Some (ACTIVE, 5).
Proof.
  pose (s := {| V1.disks := ["sda"]; V1.timeout := 1800; V1.polling_interval := 5;
                V1.diskstats := {[ "sda" := ["100"; "201"] ]};
                V1.diskstats_prev := {[ "sda" := ["100"; "200"] ]};
                V1.disk_statuses := {[ "sda" := (ACTIVE, 1) ]}; V1.dump_log := false |}).
  destruct (V1.compare (still_tick [] 5 0 0) s) as [[s' e]|] eqn:Hc;
    [|by vm_compute in Hc].
  destruct (older_compare_refreshes_timestamp _ s s' e "sda" Hc) as (j & _ & _ & Hst).
  - by left.
  - by vm_compute.
  - exists s', e. split; [exact Hc|]. exact Hst.
Defined.

(** ** The two versions from the configuration on *)




